(** * Gokarna Guide: conversation orchestration and live audio

    A shallow embedding of the client-side logic of the chat front end:
    the session store ([updateSessionMessages]), the submission handler
    ([handleSendMessage]) with its image, video and streaming helpers, and
    the live-audio pipeline ([encode], [decode], the [onmessage] playback
    scheduler).

    JavaScript strings are sequences of UTF-16 code units, modelled as
    [list N].  Asynchronous handlers are modelled by the state reached at
    their first [await] together with the continuation that runs when the
    awaited backend call settles. *)

From Stdlib Require Import String Ascii.
From Stdlib Require Import Strings.Byte.
From Stdlib Require Import List NArith ZArith Lia Bool.
From Stdlib Require DecimalString QArith.
Import ListNotations.

Set Implicit Arguments.

(* ================================================================== *)
(** ** JavaScript strings *)
(* ================================================================== *)

Module Js.

Local Open Scope N_scope.

(** A string is its sequence of UTF-16 code units. *)
Definition jsstring := list N.

(** An ASCII literal of the source text. *)
Definition lit (s : string) : jsstring :=
  map N_of_ascii (list_ascii_of_string s).

Fixpoint str_eqb (a b : jsstring) : bool :=
  match a, b with
  | [], [] => true
  | x :: a', y :: b' => N.eqb x y && str_eqb a' b'
  | _, _ => false
  end.

(** WhiteSpace and LineTerminator code units: what [String.prototype.trim]
    strips and what the pattern class [\s] accepts. *)
Definition isWhiteSpace (c : N) : bool :=
  ((9 <=? c) && (c <=? 13)) || (c =? 32) || (c =? 160) || (c =? 5760)
  || ((8192 <=? c) && (c <=? 8202)) || (c =? 8232) || (c =? 8233)
  || (c =? 8239) || (c =? 8287) || (c =? 12288) || (c =? 65279).

(** LineTerminator code units: what the pattern [.] refuses. *)
Definition isLineTerminator (c : N) : bool :=
  (c =? 10) || (c =? 13) || (c =? 8232) || (c =? 8233).

(** [\w] without the unicode flag. *)
Definition isWordChar (c : N) : bool :=
  ((97 <=? c) && (c <=? 122)) || ((65 <=? c) && (c <=? 90))
  || ((48 <=? c) && (c <=? 57)) || (c =? 95).

Fixpoint trimStart (s : jsstring) : jsstring :=
  match s with
  | c :: s' => if isWhiteSpace c then trimStart s' else s
  | [] => []
  end.

Definition trimEnd (s : jsstring) : jsstring := rev (trimStart (rev s)).

(** [s.trim()] *)
Definition trim (s : jsstring) : jsstring := trimEnd (trimStart s).

(** Truthiness of a string: the empty string is falsy. *)
Definition truthy (s : jsstring) : bool :=
  match s with [] => false | _ => true end.

(** Truthiness of [string | null | undefined]. *)
Definition truthy_opt (o : option jsstring) : bool :=
  match o with Some s => truthy s | None => false end.

(** [s.startsWith(p)] *)
Fixpoint startsWith (p s : jsstring) : bool :=
  match p, s with
  | [], _ => true
  | x :: p', y :: s' => N.eqb x y && startsWith p' s'
  | _ :: _, [] => false
  end.

(** [s.includes(p)] on strings: [p] occurs as a substring. *)
Fixpoint str_includes (p s : jsstring) : bool :=
  startsWith p s ||
  match s with
  | [] => false
  | _ :: s' => str_includes p s'
  end.

(** [arr.includes(x)] on an array of strings. *)
Definition arr_includes (arr : list jsstring) (x : jsstring) : bool :=
  existsb (str_eqb x) arr.

(** A value interpolated in a template literal: [undefined] prints as
    the nine letters of its name. *)
Definition tpl (o : option jsstring) : jsstring :=
  match o with Some s => s | None => lit "undefined" end.

(** ASCII case mappings: the action of [toLowerCase] and of the pattern
    flag [i] on the code units below 128. *)
Definition asciiLower (c : N) : N :=
  if (65 <=? c) && (c <=? 90) then c + 32 else c.

Definition asciiUpper (c : N) : N :=
  if (97 <=? c) && (c <=? 122) then c - 32 else c.

End Js.
Import Js.

(* ================================================================== *)
(** ** The base64 codec of the live-audio view *)
(* ================================================================== *)

Module Base64.

Local Open Scope N_scope.

(** The base64 alphabet of RFC 4648, section 4. *)
Definition alphabet : jsstring :=
  lit "ABCDEFGHIJKLMNOPQRSTUVWXYZabcdefghijklmnopqrstuvwxyz0123456789+/".

Definition pad : N := 61.

(** The character of a six-bit value. *)
Definition enc6 (n : N) : N := nth (N.to_nat n) alphabet pad.

Fixpoint index_of (c : N) (l : list N) (i : N) : option N :=
  match l with
  | [] => None
  | x :: l' => if x =? c then Some i else index_of c l' (i + 1)
  end.

(** The six-bit value of a character, when it is in the alphabet. *)
Definition dec6 (c : N) : option N := index_of c alphabet 0.

Definition in_alphabet (c : N) : bool :=
  match dec6 c with Some _ => true | None => false end.

(** Three bytes become four characters; a last group of one or two
    bytes is padded with [=]. *)
Fixpoint enc_groups (s : list N) : list N :=
  match s with
  | [] => []
  | [a] => [enc6 (a / 4); enc6 ((a mod 4) * 16); pad; pad]
  | [a; b] =>
      [enc6 (a / 4); enc6 ((a mod 4) * 16 + b / 16);
       enc6 ((b mod 16) * 4); pad]
  | a :: b :: c :: rest =>
      enc6 (a / 4) :: enc6 ((a mod 4) * 16 + b / 16)
      :: enc6 ((b mod 16) * 4 + c / 64) :: enc6 (c mod 64)
      :: enc_groups rest
  end.

(** [btoa(binary)]: throws InvalidCharacterError ([None]) when a code
    unit is above 255. *)
Definition btoa (binary : jsstring) : option jsstring :=
  if existsb (fun c => 255 <? c) binary then None
  else Some (enc_groups binary).

(** ASCII whitespace, which [atob] removes first. *)
Definition isAsciiWhitespace (c : N) : bool :=
  (c =? 9) || (c =? 10) || (c =? 12) || (c =? 13) || (c =? 32).

(** Removes one or two [=] at the end. *)
Definition strip_padding (d : list N) : list N :=
  match rev d with
  | p1 :: p2 :: r =>
      if p1 =? pad then (if p2 =? pad then rev r else rev (p2 :: r)) else d
  | [p1] => if p1 =? pad then [] else d
  | [] => d
  end.

(** Four six-bit values become three bytes; of a last group of two or
    three values the left-over bits are dropped. *)
Fixpoint dec_groups (l : list N) : list N :=
  match l with
  | s1 :: s2 :: s3 :: s4 :: rest =>
      (s1 * 4 + s2 / 16) :: ((s2 mod 16) * 16 + s3 / 4)
      :: ((s3 mod 4) * 64 + s4) :: dec_groups rest
  | [s1; s2; s3] => [s1 * 4 + s2 / 16; (s2 mod 16) * 16 + s3 / 4]
  | [s1; s2] => [s1 * 4 + s2 / 16]
  | _ => []
  end.

Fixpoint sextets (d : list N) : option (list N) :=
  match d with
  | [] => Some []
  | c :: d' =>
      match dec6 c, sextets d' with
      | Some v, Some vs => Some (v :: vs)
      | _, _ => None
      end
  end.

(** [atob(base64)], the forgiving-base64 decode of the HTML standard:
    throws ([None]) on a length of 1 modulo 4 and on a character outside
    the alphabet. *)
Definition atob (base64 : jsstring) : option jsstring :=
  let d := filter (fun c => negb (isAsciiWhitespace c)) base64 in
  let d := if N.of_nat (length d) mod 4 =? 0 then strip_padding d else d in
  if N.of_nat (length d) mod 4 =? 1 then None
  else match sextets d with
       | Some vs => Some (dec_groups vs)
       | None => None
       end.

(** Storing a number in a [Uint8Array] keeps it modulo 256. *)
Definition to_uint8 (c : N) : byte :=
  match Byte.of_N (c mod 256) with Some b => b | None => x00 end.

(** [encode(bytes)]: the binary string of the bytes, then [btoa]. *)
Definition encode (bytes : list byte) : option jsstring :=
  btoa (map Byte.to_N bytes).

(** [decode(base64)]: [atob], then the code unit of each character. *)
Definition decode (base64 : jsstring) : option (list byte) :=
  match atob base64 with
  | Some binaryString => Some (map to_uint8 binaryString)
  | None => None
  end.

End Base64.

(* ================================================================== *)
(** ** The data model ([types.ts]) *)
(* ================================================================== *)

Module Language.
Record t := { code : jsstring; name : jsstring; nativeName : jsstring }.
End Language.

Module UploadedFile.
Record t := {
  name : jsstring;
  mimeType : jsstring;
  data : jsstring;
  previewUrl : option jsstring
}.
End UploadedFile.

(** The icon components, which the logic only passes around. *)
Inductive Icon :=
| SunCloudIcon | BeachIcon | HotelIcon | FoodIcon | TempleIcon
| TripPlanIcon | PaletteIcon.

Module Suggestion.
Record t := { text : jsstring; icon : Icon; prompt : option jsstring }.
End Suggestion.

(** A grounding citation.  The declared type has two strings; the objects
    of the backend may lack either, which the handler tests. *)
Module Source.
Record t := { uri : option jsstring; title : option jsstring }.
End Source.

Inductive Sender := user | bot.

Inductive VideoState := generating | done | failed.

Module ChatMessage.
Record t := {
  id : Z;
  text : jsstring;
  sender : Sender;
  suggestions : option (list Suggestion.t);
  images : option (list jsstring);
  sources : option (list Source.t);
  isLoading : option bool;
  files : option (list UploadedFile.t);
  isWelcome : option bool;
  isSystem : option bool;
  videoState : option VideoState;
  videoUrl : option jsstring
}.

(** The object literal [{ id, text, sender }]: every other field is
    absent. *)
Definition make (i : Z) (x : jsstring) (s : Sender) : t :=
  {| id := i; text := x; sender := s; suggestions := None; images := None;
     sources := None; isLoading := None; files := None; isWelcome := None;
     isSystem := None; videoState := None; videoUrl := None |}.

Definition with_text (m : t) (x : jsstring) : t :=
  {| id := id m; text := x; sender := sender m;
     suggestions := suggestions m; images := images m;
     sources := sources m; isLoading := isLoading m; files := files m;
     isWelcome := isWelcome m; isSystem := isSystem m;
     videoState := videoState m; videoUrl := videoUrl m |}.

Definition with_isLoading (m : t) (x : bool) : t :=
  {| id := id m; text := text m; sender := sender m;
     suggestions := suggestions m; images := images m;
     sources := sources m; isLoading := Some x; files := files m;
     isWelcome := isWelcome m; isSystem := isSystem m;
     videoState := videoState m; videoUrl := videoUrl m |}.

Definition with_suggestions (m : t) (x : list Suggestion.t) : t :=
  {| id := id m; text := text m; sender := sender m;
     suggestions := Some x; images := images m;
     sources := sources m; isLoading := isLoading m; files := files m;
     isWelcome := isWelcome m; isSystem := isSystem m;
     videoState := videoState m; videoUrl := videoUrl m |}.

Definition with_images (m : t) (x : list jsstring) : t :=
  {| id := id m; text := text m; sender := sender m;
     suggestions := suggestions m; images := Some x;
     sources := sources m; isLoading := isLoading m; files := files m;
     isWelcome := isWelcome m; isSystem := isSystem m;
     videoState := videoState m; videoUrl := videoUrl m |}.

Definition with_sources (m : t) (x : list Source.t) : t :=
  {| id := id m; text := text m; sender := sender m;
     suggestions := suggestions m; images := images m;
     sources := Some x; isLoading := isLoading m; files := files m;
     isWelcome := isWelcome m; isSystem := isSystem m;
     videoState := videoState m; videoUrl := videoUrl m |}.

Definition with_files (m : t) (x : list UploadedFile.t) : t :=
  {| id := id m; text := text m; sender := sender m;
     suggestions := suggestions m; images := images m;
     sources := sources m; isLoading := isLoading m; files := Some x;
     isWelcome := isWelcome m; isSystem := isSystem m;
     videoState := videoState m; videoUrl := videoUrl m |}.

Definition with_isSystem (m : t) (x : bool) : t :=
  {| id := id m; text := text m; sender := sender m;
     suggestions := suggestions m; images := images m;
     sources := sources m; isLoading := isLoading m; files := files m;
     isWelcome := isWelcome m; isSystem := Some x;
     videoState := videoState m; videoUrl := videoUrl m |}.

Definition with_videoState (m : t) (x : VideoState) : t :=
  {| id := id m; text := text m; sender := sender m;
     suggestions := suggestions m; images := images m;
     sources := sources m; isLoading := isLoading m; files := files m;
     isWelcome := isWelcome m; isSystem := isSystem m;
     videoState := Some x; videoUrl := videoUrl m |}.

Definition with_videoUrl (m : t) (x : jsstring) : t :=
  {| id := id m; text := text m; sender := sender m;
     suggestions := suggestions m; images := images m;
     sources := sources m; isLoading := isLoading m; files := files m;
     isWelcome := isWelcome m; isSystem := isSystem m;
     videoState := videoState m; videoUrl := Some x |}.

(** Truthiness of an optional flag. *)
Definition flag (o : option bool) : bool :=
  match o with Some b => b | None => false end.
End ChatMessage.

Module ChatSession.
Record t := {
  id : jsstring;
  title : jsstring;
  messages : list ChatMessage.t;
  languageCode : jsstring
}.

(** [{ ...session, messages }] *)
Definition with_messages (s : t) (x : list ChatMessage.t) : t :=
  {| id := id s; title := title s; messages := x;
     languageCode := languageCode s |}.

(** [{ ...session, languageCode }] *)
Definition with_languageCode (s : t) (x : jsstring) : t :=
  {| id := id s; title := title s; messages := messages s;
     languageCode := x |}.

(** [{ ...session, title }] *)
Definition with_title (s : t) (x : jsstring) : t :=
  {| id := id s; title := x; messages := messages s;
     languageCode := languageCode s |}.
End ChatSession.

(* ================================================================== *)
(** ** The session store ([App]) *)
(* ================================================================== *)

Module Store.

(** The second argument of [updateSessionMessages]: an array, or a
    function of the previous messages. *)
Inductive NewMessages :=
| Messages (l : list ChatMessage.t)
| Updater (f : list ChatMessage.t -> list ChatMessage.t).

(** [typeof newMessages === 'function' ? newMessages(old) : newMessages] *)
Definition applied (newMessages : NewMessages) (old : list ChatMessage.t)
    : list ChatMessage.t :=
  match newMessages with
  | Updater f => f old
  | Messages l => l
  end.

(** [updateSessionMessages(sessionId, newMessages)]: the function it
    hands to [setSessions]. *)
Definition updateSessionMessages (sessionId : jsstring)
    (newMessages : NewMessages) (prevSessions : list ChatSession.t)
    : list ChatSession.t :=
  map (fun session =>
         if str_eqb (ChatSession.id session) sessionId then
           let updatedMessages :=
             applied newMessages (ChatSession.messages session) in
           ChatSession.with_messages session updatedMessages
         else session)
      prevSessions.

(** [sessions.find(s => s.id === id)] *)
Definition findSession (sid : jsstring) (sessions : list ChatSession.t)
    : option ChatSession.t :=
  find (fun s => str_eqb (ChatSession.id s) sid) sessions.

(** [prev.map(msg => msg.id === botMessageId ? f(msg) : msg)] *)
Definition resolveMessage (botMessageId : Z)
    (f : ChatMessage.t -> ChatMessage.t) (prev : list ChatMessage.t)
    : list ChatMessage.t :=
  map (fun msg => if Z.eqb (ChatMessage.id msg) botMessageId
                  then f msg else msg) prev.

(** [prev.length === 1 && prev[0].isWelcome ? fresh : [...prev, ...fresh]] *)
Definition replaceWelcome (fresh prev : list ChatMessage.t)
    : list ChatMessage.t :=
  match prev with
  | [m] => if ChatMessage.flag (ChatMessage.isWelcome m) then fresh
           else prev ++ fresh
  | _ => prev ++ fresh
  end.

(** [[...prev.filter(m => !m.isWelcome), ...fresh]] *)
Definition dropWelcome (fresh prev : list ChatMessage.t)
    : list ChatMessage.t :=
  filter (fun m => negb (ChatMessage.flag (ChatMessage.isWelcome m))) prev
  ++ fresh.

End Store.

(* ================================================================== *)
(** ** Live audio: playback scheduling ([LiveChatView]) *)
(* ================================================================== *)

Module LiveAudio.

(** What the playback code reads of a server message:
    [serverContent?.modelTurn?.parts] and [serverContent?.interrupted].
    [modelTurn] is [None] for a message without server content or
    without a model turn; it holds the parts array, which the
    declaration of [Content] makes optional, each part given by its
    [inlineData?.data].  The transcription fields only feed the
    transcript on screen and are left out. *)
Record LiveServerMessage := {
  modelTurn : option (option (list (option jsstring)));
  interrupted : bool
}.

(** [message.serverContent?.modelTurn?.parts[0]?.inlineData?.data].
    No [?.] guards the index: on a model turn without a parts array the
    read throws a [TypeError], which is [None] here. *)
Definition base64EncodedAudioString (message : LiveServerMessage)
    : option (option jsstring) :=
  match modelTurn message with
  | None => Some None
  | Some None => None
  | Some (Some []) => Some None
  | Some (Some (part :: _)) => Some part
  end.

(** The audio text the handler reads from a message, if it reads one. *)
Definition audio (message : LiveServerMessage) : option jsstring :=
  match base64EncodedAudioString message with
  | Some data => data
  | None => None
  end.

(** Whether a handler ran to its end or stopped at an exception. *)
Inductive Completion := Returned | Threw.

(** [decodeAudioData(data, ctx, 24000, 1)] as far as scheduling needs
    it: the number of frames of the buffer.  [new Int16Array(data.buffer)]
    throws on an odd byte length and [createBuffer] on a length of zero. *)
Definition decodeAudioData (data : list byte) : option N :=
  let len := N.of_nat (length data) in
  if negb (N.eqb (N.modulo len 2) 0) then None
  else if N.eqb (N.div len 2) 0 then None
  else Some (N.div len 2).

(** The frames of the clip a message carries, when it carries one that
    decodes. *)
Definition clip (message : LiveServerMessage) : option N :=
  match audio message with
  | Some base64 =>
      match Base64.decode base64 with
      | Some bytes => decodeAudioData bytes
      | None => None
      end
  | None => None
  end.

(** [Set.prototype.add] and [delete] on a set kept in insertion order. *)
Definition setAdd (x : nat) (s : list nat) : list nat :=
  if existsb (Nat.eqb x) s then s else s ++ [x].

Definition setDelete (x : nat) (s : list nat) : list nat :=
  filter (fun y => negb (Nat.eqb x y)) s.

Section Clock.

(** Times are JavaScript numbers.  The scheduler compares and adds
    them and takes a maximum; the model is stated over any type of
    times with a comparison and an addition, so that it does not
    depend on how the addition rounds. *)
Variable time : Type.
Variable tzero : time.
Variable tadd : time -> time -> time.
Variable tleb : time -> time -> bool.

(** [AudioBuffer.duration] of a buffer of the given number of frames
    at 24 kHz. *)
Variable duration : N -> time.

(** [Math.max(a, b)] *)
Definition tmax (a b : time) : time := if tleb a b then b else a.

(** One call of [source.start(when)]: the node, its start time and the
    duration of its buffer. *)
Record Start := { node : nat; when : time; lasting : time }.

(** The refs of the view that playback uses, and a record of the
    calls made on the audio nodes. *)
Record Player := {
  nextStartTime : time;      (* nextStartTimeRef.current *)
  sources : list nat;        (* sourcesRef.current *)
  created : nat;             (* buffer sources created so far *)
  started : list Start;      (* calls of start, latest first *)
  stopped : list nat         (* calls of stop, latest first *)
}.

Definition initial : Player :=
  {| nextStartTime := tzero; sources := []; created := 0;
     started := []; stopped := [] |}.

(** [source.stop(); sourcesRef.current.delete(source)] *)
Definition stopAndDelete (p : Player) (source : nat) : Player :=
  {| nextStartTime := nextStartTime p;
     sources := setDelete source (sources p);
     created := created p;
     started := started p;
     stopped := source :: stopped p |}.

(** The body of [if (interrupted)]: the loop visits every member of
    the set, each one deleted as it is visited, then the next start
    time is reset. *)
Definition interrupt (p : Player) : Player :=
  let p' := fold_left stopAndDelete (sources p) p in
  {| nextStartTime := tzero;
     sources := sources p';
     created := created p';
     started := started p';
     stopped := stopped p' |}.

(** The end of [onmessage], after the audio part. *)
Definition afterAudio (message : LiveServerMessage) (p : Player)
    : Player :=
  if interrupted message then interrupt p else p.

(** [onmessage(message)] read at playback clock [now]. *)
Definition onmessage (now : time) (message : LiveServerMessage)
    (p : Player) : Player * Completion :=
  match base64EncodedAudioString message with
  | None => (p, Threw)
  | Some (Some ((_ :: _) as base64)) =>
      let p1 :=
        {| nextStartTime := tmax (nextStartTime p) now;
           sources := sources p; created := created p;
           started := started p; stopped := stopped p |} in
      match Base64.decode base64 with
      | None => (p1, Threw)
      | Some bytes =>
          match decodeAudioData bytes with
          | None => (p1, Threw)
          | Some frames =>
              let source := created p1 in
              let p2 :=
                {| nextStartTime :=
                     tadd (nextStartTime p1) (duration frames);
                   sources := setAdd source (sources p1);
                   created := S source;
                   started :=
                     {| node := source; when := nextStartTime p1;
                        lasting := duration frames |} :: started p1;
                   stopped := stopped p1 |} in
              (afterAudio message p2, Returned)
          end
      end
  | Some _ => (afterAudio message p, Returned)
  end.

(** The listener of [ended] on a source. *)
Definition onended (source : nat) (p : Player) : Player :=
  {| nextStartTime := nextStartTime p;
     sources := setDelete source (sources p);
     created := created p;
     started := started p;
     stopped := stopped p |}.

(** What reaches the player: a server message, read at a playback
    clock time, or the end of a source. *)
Inductive Event :=
| Message (now : time) (message : LiveServerMessage)
| Ended (source : nat).

Definition step (p : Player) (e : Event) : Player :=
  match e with
  | Message now message => fst (onmessage now message p)
  | Ended source => onended source p
  end.

Definition run (events : list Event) (p : Player) : Player :=
  fold_left step events p.

Definition quiet (e : Event) : bool :=
  match e with
  | Message _ message => negb (interrupted message)
  | Ended _ => true
  end.

(** An event that schedules nothing and interrupts nothing. *)
Definition silent (e : Event) : bool :=
  match e with
  | Message _ message =>
      negb (interrupted message)
      && match audio message with Some (_ :: _) => false | _ => true end
  | Ended _ => true
  end.

(** In a record of starts, latest first, every clip starts no earlier
    than the end of the clip started before it. *)
Fixpoint in_order (log : list Start) : Prop :=
  match log with
  | later :: (earlier :: _) as rest =>
      tleb (tadd (when earlier) (lasting earlier)) (when later) = true
      /\ in_order rest
  | _ => True
  end.

(** The record of starts is in order and the clip started last ends
    no later than the next start time. *)
Definition scheduled (p : Player) : Prop :=
  in_order (started p) /\
  match started p with
  | last :: _ =>
      tleb (tadd (when last) (lasting last)) (nextStartTime p) = true
  | [] => True
  end.

End Clock.

End LiveAudio.

(* ================================================================== *)
(** ** Regular expressions *)
(* ================================================================== *)

(** The fragment of ECMAScript patterns that the handler uses, with the
    backtracking matcher of the language definition: alternatives are
    tried left to right, a greedy quantifier tries one more repetition
    before it tries to go on, a lazy one the other way round. *)
Module Regex.

Inductive Class :=
| Dot        (* [.]  : any code unit but a line terminator *)
| Space.     (* [\s] *)

Definition accepts (k : Class) (c : N) : bool :=
  match k with
  | Dot => negb (isLineTerminator c)
  | Space => isWhiteSpace c
  end.

Inductive regex :=
| Empty
| Char (c : N)                        (* a literal code unit *)
| WordB                               (* [\b] *)
| Seq (a b : regex)
| Alt (a b : regex)                   (* [a|b] *)
| Rep (k : Class) (min : nat) (max : option nat) (greedy : bool)
| Group (i : nat) (a : regex).        (* the i-th capturing group *)

(** A literal string. *)
Definition str (s : jsstring) : regex :=
  fold_right (fun c r => Seq (Char c) r) Empty s.

(** An alternation [a1|...|an]; with no alternative the pattern between
    the brackets is empty. *)
Fixpoint alts (l : list regex) : regex :=
  match l with
  | [] => Empty
  | [a] => a
  | a :: l' => Alt a (alts l')
  end.

Definition seqs (l : list regex) : regex :=
  fold_right Seq Empty l.

(** Where the matcher stands: the code unit before the position, the
    input from the position on, and the captures made so far. *)
Record State := {
  before : option N;
  rest : jsstring;
  captures : list (nat * jsstring)
}.

Section Matcher.

(** Canonicalize of the language definition under the flag [i]; the
    identity without the flag. *)
Variable canon : N -> N.

(** A quantified class.  [more] consumes one code unit and repeats,
    [k] goes on with what follows the quantifier. *)
Fixpoint rep (accept : N -> bool) (greedy : bool) (min : nat)
    (max : option nat) (prev : option N) (s : jsstring)
    (k : option N -> jsstring -> option State) : option State :=
  let more :=
    match max, s with
    | Some O, _ => None
    | _, [] => None
    | _, c :: s' =>
        if accept c
        then rep accept greedy (pred min) (option_map pred max) (Some c) s' k
        else None
    end in
  match min with
  | S _ => more
  | O =>
      if greedy
      then match more with Some r => Some r | None => k prev s end
      else match k prev s with Some r => Some r | None => more end
  end.

Definition wordAt (c : option N) : bool :=
  match c with Some c => isWordChar c | None => false end.

(** The matcher of a pattern, in continuation-passing style: [k] is
    what remains to be matched after the pattern. *)
Fixpoint matcher (r : regex) (x : State) (k : State -> option State)
    : option State :=
  match r with
  | Empty => k x
  | Char c =>
      match rest x with
      | ch :: s' =>
          if N.eqb (canon ch) (canon c)
          then k {| before := Some ch; rest := s'; captures := captures x |}
          else None
      | [] => None
      end
  | WordB =>
      if xorb (wordAt (before x)) (wordAt (hd_error (rest x)))
      then k x else None
  | Seq a b => matcher a x (fun y => matcher b y k)
  | Alt a b =>
      match matcher a x k with
      | Some y => Some y
      | None => matcher b x k
      end
  | Rep cl min max greedy =>
      rep (accepts cl) greedy min max (before x) (rest x)
          (fun prev s =>
             k {| before := prev; rest := s; captures := captures x |})
  | Group i a =>
      matcher a x
        (fun y =>
           k {| before := before y; rest := rest y;
                captures :=
                  (i, firstn (length (rest x) - length (rest y)) (rest x))
                  :: captures y |})
  end.

(** A match: where it starts, and the state at its end. *)
Record Match := { index : nat; final : State }.

(** The leftmost match at or after a position. *)
Fixpoint search (r : regex) (prev : option N) (s : jsstring) (i : nat)
    : option Match :=
  match matcher r {| before := prev; rest := s; captures := [] |} Some with
  | Some y => Some {| index := i; final := y |}
  | None =>
      match s with
      | [] => None
      | c :: s' => search r (Some c) s' (S i)
      end
  end.

(** [r.exec(s)] and [s.match(r)] for a pattern without the flag [g]. *)
Definition exec (r : regex) (s : jsstring) : option Match :=
  search r None s 0.

(** [r.test(s)] *)
Definition test (r : regex) (s : jsstring) : bool :=
  match exec r s with Some _ => true | None => false end.

(** [match[i]] *)
Fixpoint capture (i : nat) (l : list (nat * jsstring)) : option jsstring :=
  match l with
  | [] => None
  | (j, s) :: l' => if Nat.eqb i j then Some s else capture i l'
  end.

Definition group (i : nat) (m : Match) : option jsstring :=
  capture i (captures (final m)).

(** [s.replace(r, '')] for a pattern with the flag [g]: every match,
    found from left to right from the end of the one before, is cut out.
    [skip] counts the code units of the current match still to be
    dropped. *)
Fixpoint cut (r : regex) (skip : nat) (prev : option N) (s : jsstring)
    : jsstring :=
  match s with
  | [] => []
  | c :: s' =>
      match skip with
      | S n => cut r n (Some c) s'
      | O =>
          match matcher r {| before := prev; rest := s; captures := [] |}
                        Some with
          | Some y =>
              match length s - length (rest y) with
              | O => c :: cut r 0 (Some c) s'
              | S n => cut r n (Some c) s'
              end
          | None => c :: cut r 0 (Some c) s'
          end
      end
  end.

Definition removeAll (r : regex) (s : jsstring) : jsstring :=
  cut r 0 None s.

End Matcher.

End Regex.

(* ================================================================== *)
(** ** The backend, as the handlers see it ([geminiService]) *)
(* ================================================================== *)

Module Backend.

(** What a rejected promise carries: an [Error] with its message, or a
    value that is not an [Error]. *)
Inductive Thrown :=
| ErrorObject (message : jsstring)
| OtherValue.

Inductive Outcome (A : Type) :=
| Fulfilled (a : A)
| Rejected (e : Thrown).

Arguments Fulfilled {A} a.
Arguments Rejected {A} e.

Record InlineData := {
  mimeType : option jsstring;
  data : option jsstring
}.

Record Part := { inlineData : option InlineData }.

(** The fields of a [GenerateContentResponse] that the image handlers
    read: [promptFeedback?.blockReason], [candidates?.[0]?.content] with
    its [parts] (which may be missing on a content object), and [text]. *)
Record GenerateContentResponse := {
  blockReason : option jsstring;
  content : option (option (list Part));
  text : option jsstring
}.

Record PlaceAnswerSource := {
  placeUri : option jsstring;
  displayName : option jsstring
}.

(** A grounding chunk: [web], and [maps?.placeAnswerSources] when it is
    an array. *)
Record GroundingChunk := {
  web : option Source.t;
  placeAnswerSources : option (list PlaceAnswerSource)
}.

(** A chunk of a streamed reply: [chunk.text], and
    [candidates?.[0]?.groundingMetadata?.groundingChunks] when it is an
    array. *)
Record Chunk := {
  chunkText : option jsstring;
  groundingChunks : option (list GroundingChunk)
}.

(** A video operation: [done], and
    [response?.generatedVideos?.[0]?.video?.uri]. *)
Record Operation := {
  opDone : bool;
  resultUri : option jsstring
}.

(** The video backend: the answer to [generateVideos], and the answer to
    the n-th call of [getVideosOperation]. *)
Record VideoBackend := {
  submitted : Outcome Operation;
  polled : nat -> Outcome Operation
}.

(** What the n-th look at the operation gives: the answer to
    [generateVideos] first, then the answers to the polls. *)
Definition seen (backend : VideoBackend) (n : nat) : Outcome Operation :=
  match n with
  | O => submitted backend
  | S k => polled backend k
  end.

(** The chat handle of [startChat]. *)
Inductive Chat := chat (n : nat).

Section Video.

(** [process.env.API_KEY] *)
Variable API_KEY : jsstring.

(** The end of [generateVideo], once the operation is done. *)
Definition download (operation : Operation) : Outcome jsstring :=
  match resultUri operation with
  | Some ((_ :: _) as downloadLink) =>
      Fulfilled (downloadLink ++ lit "&key=" ++ API_KEY)
  | _ =>
      Rejected (ErrorObject (lit
        "Video generation completed but no download link was found."))
  end.

(** The polling loop of [generateVideo]: [n] polls have been made.
    [None] when the operation is still not done after [fuel] more. *)
Fixpoint pollUntilDone (backend : VideoBackend) (fuel : nat) (n : nat)
    (operation : Operation) : option (Outcome jsstring) :=
  if opDone operation then Some (download operation)
  else
    match fuel with
    | O => None
    | S fuel' =>
        match polled backend n with
        | Fulfilled operation' =>
            pollUntilDone backend fuel' (S n) operation'
        | Rejected e => Some (Rejected e)
        end
    end.

(** [generateVideo(file, prompt, aspectRatio)] against a backend: what
    the promise settles to. *)
Definition generateVideo (backend : VideoBackend) (fuel : nat)
    : option (Outcome jsstring) :=
  match submitted backend with
  | Fulfilled operation => pollUntilDone backend fuel 0 operation
  | Rejected e => Some (Rejected e)
  end.

End Video.

End Backend.

(* ================================================================== *)
(** ** The application component ([App]) *)
(* ================================================================== *)

Module Payload.
Record t := {
  text : jsstring;
  files : list UploadedFile.t;
  prompt : option jsstring
}.
End Payload.

Module App.

Import Store.

(** The position of the user, with each coordinate as the template
    literal prints it. *)
Record Location := { latitude : jsstring; longitude : jsstring }.

(** The state and the refs of the component that the handlers use. *)
Record AppState := {
  sessions : list ChatSession.t;
  activeSessionId : option jsstring;
  isBotSpeaking : bool;
  userLocation : option Location;
  pendingImagePrompt : option jsstring;
  chatSessionRef : option Backend.Chat;
  userMessageCount : nat
}.

(** [setSessions(f)] *)
Definition setSessions (f : list ChatSession.t -> list ChatSession.t)
    (st : AppState) : AppState :=
  {| sessions := f (sessions st);
     activeSessionId := activeSessionId st;
     isBotSpeaking := isBotSpeaking st;
     userLocation := userLocation st;
     pendingImagePrompt := pendingImagePrompt st;
     chatSessionRef := chatSessionRef st;
     userMessageCount := userMessageCount st |}.

(** [setIsBotSpeaking(b)] *)
Definition setIsBotSpeaking (b : bool) (st : AppState) : AppState :=
  {| sessions := sessions st;
     activeSessionId := activeSessionId st;
     isBotSpeaking := b;
     userLocation := userLocation st;
     pendingImagePrompt := pendingImagePrompt st;
     chatSessionRef := chatSessionRef st;
     userMessageCount := userMessageCount st |}.

(** [setPendingImagePrompt(p)] *)
Definition setPendingImagePrompt (p : option jsstring) (st : AppState)
    : AppState :=
  {| sessions := sessions st;
     activeSessionId := activeSessionId st;
     isBotSpeaking := isBotSpeaking st;
     userLocation := userLocation st;
     pendingImagePrompt := p;
     chatSessionRef := chatSessionRef st;
     userMessageCount := userMessageCount st |}.

(** [userMessageCount.current = n] *)
Definition setUserMessageCount (n : nat) (st : AppState) : AppState :=
  {| sessions := sessions st;
     activeSessionId := activeSessionId st;
     isBotSpeaking := isBotSpeaking st;
     userLocation := userLocation st;
     pendingImagePrompt := pendingImagePrompt st;
     chatSessionRef := chatSessionRef st;
     userMessageCount := n |}.

(** [updateSessionMessages(sessionId, prev => f(prev))] on the state. *)
Definition update (sessionId : jsstring)
    (f : list ChatMessage.t -> list ChatMessage.t) (st : AppState)
    : AppState :=
  setSessions (updateSessionMessages sessionId (Updater f)) st.

(** The messages of a session of the store; none when the store has no
    such session. *)
Definition messagesOf (sid : jsstring) (st : AppState)
    : list ChatMessage.t :=
  match findSession sid (sessions st) with
  | Some s => ChatSession.messages s
  | None => []
  end.

(** The loading placeholders in the store. *)
Definition loading (st : AppState) : list ChatMessage.t :=
  flat_map
    (fun s => filter (fun m => ChatMessage.flag (ChatMessage.isLoading m))
                     (ChatSession.messages s))
    (sessions st).

(** The placeholder of a reply to come:
    [{ id, text: '', sender: 'bot', isLoading: true }]. *)
Definition placeholder (botMessageId : Z) : ChatMessage.t :=
  ChatMessage.with_isLoading (ChatMessage.make botMessageId [] bot) true.

(** The placeholder of a video to come: [{ id, text: '', sender: 'bot',
    isLoading: true, videoState: 'generating' }]. *)
Definition videoPlaceholder (botMessageId : Z) : ChatMessage.t :=
  ChatMessage.with_videoState (placeholder botMessageId) generating.

Inductive AspectRatio := Landscape | Portrait.

(** A callback handed to [setTimeout]; it reads the clock when it runs. *)
Record Timer := {
  delay : Z;
  callback : Z -> AppState -> AppState
}.

(** The local variables of the streaming part of [handleSendMessage]. *)
Record Reply := {
  botMessageId : Z;
  sessionId : jsstring;
  languageCode : jsstring;
  fullResponse : jsstring;
  sources : list Source.t
}.

(** The backend call a handler is waiting for, with what runs when the
    call settles. *)
Inductive Task :=
| GenerateImage (finalPrompt : jsstring)
    (settle : Backend.Outcome Backend.GenerateContentResponse ->
              AppState -> AppState)
| EditImage (file : UploadedFile.t) (prompt : jsstring)
    (settle : Backend.Outcome Backend.GenerateContentResponse ->
              AppState -> AppState)
| SendMessage (chat : Backend.Chat) (promptText : jsstring)
    (imageParts : list Backend.InlineData) (reply : Reply)
| GenerateVideo (file : UploadedFile.t) (prompt : jsstring)
    (aspectRatio : AspectRatio)
    (settle : Backend.Outcome jsstring -> AppState -> AppState).

(** [addSystemMessage(text)], with the clock it reads. *)
Definition addSystemMessage (activeId : option jsstring) (text : jsstring)
    (now : Z) (st : AppState) : AppState :=
  match activeId with
  | Some ((_ :: _) as sid) =>
      let systemMessage :=
        ChatMessage.with_isSystem (ChatMessage.make now text bot) true in
      update sid (fun prev => prev ++ [systemMessage]) st
  | _ => st
  end.

(** [initialSuggestions[code][5].text], the label of the trip-plan chip;
    the handler reads no other entry of the table. *)
Definition initialSuggestions_5_text (code : jsstring) : option jsstring :=
  if str_eqb code (lit "en-US") then Some (lit "Trip Plan")
  else if str_eqb code (lit "hi-IN") then
    Some [2351; 2366; 2340; 2381; 2352; 2366; 32;
          2351; 2379; 2332; 2344; 2366]%N
  else if str_eqb code (lit "kn-IN") then
    Some [3242; 3277; 3248; 3253; 3262; 3256; 32;
          3247; 3275; 3228; 3240; 3270]%N
  else if str_eqb code (lit "ta-IN") then
    Some [2986; 2991; 2979; 2980; 3021; 32;
          2980; 3007; 2975; 3021; 2975; 2990; 3021]%N
  else if str_eqb code (lit "te-IN") then
    Some [3103; 3149; 3120; 3135; 3114; 3149; 32;
          3114; 3149; 3122; 3134; 3112; 3149]%N
  else if str_eqb code (lit "ml-IN") then
    Some [3375; 3390; 3364; 3405; 3376; 3390; 32;
          3370; 3366; 3405; 3367; 3364; 3391]%N
  else None.

(** [/\b(generate|create|...)\b/i] *)
Definition imageGenRegex : Regex.regex :=
  Regex.seqs
    [Regex.WordB;
     Regex.Group 1 (Regex.alts (map (fun w => Regex.str (lit w))
       ["generate"; "create"; "draw"; "make"; "imagine"; "show me";
        "give me"; "produce"; "render"; "paint"; "picture"; "photo";
        "drawing"; "painting"; "illustration"; "artwork"; "sketch";
        "portrait"]%string));
     Regex.WordB].

(** [/\b(what|how|why|explain|describe)\b.{0,50}\b(to|do you|is it
    possible to)\s*(generate|create|draw|make|edit)/i] *)
Definition imageGenBlockRegex : Regex.regex :=
  Regex.seqs
    [Regex.WordB;
     Regex.Group 1 (Regex.alts (map (fun w => Regex.str (lit w))
       ["what"; "how"; "why"; "explain"; "describe"]%string));
     Regex.WordB;
     Regex.Rep Regex.Dot 0 (Some 50%nat) true;
     Regex.WordB;
     Regex.Group 2 (Regex.alts (map (fun w => Regex.str (lit w))
       ["to"; "do you"; "is it possible to"]%string));
     Regex.Rep Regex.Space 0 None true;
     Regex.Group 3 (Regex.alts (map (fun w => Regex.str (lit w))
       ["generate"; "create"; "draw"; "make"; "edit"]%string))].

(** [/!\[.*?\]\(.*?\)/g] *)
Definition imageMarkdownRegex : Regex.regex :=
  Regex.seqs
    [Regex.Char 33; Regex.Char 91; Regex.Rep Regex.Dot 0 None false;
     Regex.Char 93; Regex.Char 40; Regex.Rep Regex.Dot 0 None false;
     Regex.Char 41].

(** What the cleaning of a reply is to achieve, stated on the text
    itself and not through the matcher.  A text is of one line when it
    holds no line terminator: the dot of the pattern passes over no
    other. *)
Definition oneLine (s : jsstring) : Prop :=
  forall c, In c s -> isLineTerminator c = false.

(** An inline image [![alt](url)]: the alternative text and the address
    are of one line. *)
Definition image (m : jsstring) : Prop :=
  exists alt url,
    m = lit "![" ++ alt ++ lit "](" ++ url ++ lit ")" /\
    oneLine alt /\ oneLine url.

(** The image that a scan from left to right settles on: the alternative
    text ends at the first [](] and the address at the first [)]. *)
Definition tightImage (m : jsstring) : Prop :=
  exists alt url,
    m = lit "![" ++ alt ++ lit "](" ++ url ++ lit ")" /\
    oneLine alt /\ oneLine url /\
    (forall a b, alt <> a ++ lit "](" ++ b) /\
    ~ In 41%N url.

(** An image starts at the head of a text. *)
Definition imageAt (s : jsstring) : Prop :=
  exists m rest, s = m ++ rest /\ image m.

(** No image starts at a code unit of [pre] when [pre ++ rest] is
    read. *)
Definition imageFree (pre rest : jsstring) : Prop :=
  forall a b, pre = a ++ b -> b <> [] -> ~ imageAt (b ++ rest).

(** [stripped s out]: [out] is [s] without the images that one scan from
    left to right finds.  The scan cuts the first image it meets and
    goes on behind it; what a cut brings together is not read again. *)
Inductive stripped : jsstring -> jsstring -> Prop :=
| stripped_none (s : jsstring) :
    imageFree s [] -> stripped s s
| stripped_cut (pre m rest out : jsstring) :
    imageFree pre (m ++ rest) -> tightImage m -> stripped rest out ->
    stripped (pre ++ m ++ rest) (pre ++ out).

(** [s.replace(/_/g, ' ')] *)
Definition underscoresToSpaces (s : jsstring) : jsstring :=
  map (fun c => if N.eqb c 95 then 32%N else c) s.

(** The message of the [TypeError] of [parts.find] on a content object
    without parts.  Engines word it differently; none of the wordings
    contains a phrase the handlers look for. *)
Definition missingPartsMessage : jsstring :=
  lit "Cannot read properties of undefined (reading 'find')".

Section Handlers.

(** The constants of [constants.ts], taken as parameters, and the two
    Unicode tables of the language: [String.prototype.toLowerCase] and
    Canonicalize under the flag [i]. *)
Variable LANGUAGES : list Language.t.
Variable ART_STYLES : list jsstring.
Variable TRIP_PLAN_PROMPT : jsstring -> option jsstring.
Variable SUSTAINABILITY_TIPS : jsstring -> option jsstring.
Variable toLowerCase : jsstring -> jsstring.
Variable canonicalize : N -> N.

(** [a || b] on two table entries, either of which may be missing or
    empty; a message whose text would be undefined has the empty text. *)
Definition orElse (a b : option jsstring) : jsstring :=
  match a with
  | Some ((_ :: _) as s) => s
  | _ => match b with Some s => s | None => [] end
  end.

(** The pattern of a language-change request.  The names are joined with
    [|] inside the group; each name is taken as the literal it is when it
    has no pattern syntax in it. *)
Definition langChangeRegex : Regex.regex :=
  Regex.seqs
    [Regex.WordB;
     Regex.alts (map (fun w => Regex.str (lit w))
       ["in"; "speak"; "talk in"; "use"; "change to"; "switch to";
        "respond in"]%string);
     Regex.Rep Regex.Space 1 None true;
     Regex.Group 1 (Regex.alts
       (map (fun l => Regex.str (toLowerCase (Language.name l))) LANGUAGES));
     Regex.WordB].

(** The language a text asks for: [match] and [targetLanguage] of the
    handler. *)
Definition targetLanguage (text : jsstring) : option Language.t :=
  match Regex.exec canonicalize langChangeRegex (trim text) with
  | Some m =>
      match Regex.group 1 m with
      | Some name =>
          let requestedLangName := toLowerCase name in
          find (fun l => str_eqb (toLowerCase (Language.name l))
                                 requestedLangName) LANGUAGES
      | None => None
      end
  | None => None
  end.

(** The text the catch clause of an image handler shows. *)
Definition imageFailureText (generic safety noImage blocked : jsstring)
    (error : Backend.Thrown) : jsstring :=
  match error with
  | Backend.ErrorObject message =>
      if str_includes (lit "safety") message then safety
      else if str_includes (lit "No image was returned") message then noImage
      else if str_includes (lit "blocked due to") message then blocked
      else generic
  | Backend.OtherValue => generic
  end.

(** The try block of an image handler after the call: the message that
    replaces the placeholder, or what is thrown. *)
Definition imageReply (botMessageId : Z) (caption : jsstring)
    (outcome : Backend.Outcome Backend.GenerateContentResponse)
    : ChatMessage.t + Backend.Thrown :=
  match outcome with
  | Backend.Rejected e => inr e
  | Backend.Fulfilled response =>
      match Backend.blockReason response with
      | Some ((_ :: _) as reason) =>
          inr (Backend.ErrorObject
                 (lit "Request was blocked due to: "
                  ++ underscoresToSpaces (toLowerCase reason) ++ lit "."))
      | _ =>
          match Backend.content response with
          | Some None => inr (Backend.ErrorObject missingPartsMessage)
          | content =>
              let parts :=
                match content with Some (Some l) => l | _ => [] end in
              match find (fun p => match Backend.inlineData p with
                                   | Some _ => true | None => false end)
                         parts with
              | Some {| Backend.inlineData := Some image |} =>
                  inl (ChatMessage.with_isLoading
                         (ChatMessage.with_images
                            (ChatMessage.make botMessageId caption bot)
                            [lit "data:" ++ tpl (Backend.mimeType image)
                             ++ lit ";base64," ++ tpl (Backend.data image)])
                         false)
              | _ =>
                  match Backend.text response with
                  | Some explanation =>
                      if truthy explanation && truthy (trim explanation)
                      then inl (ChatMessage.with_isLoading
                                  (ChatMessage.make botMessageId explanation
                                     bot) false)
                      else inr (Backend.ErrorObject
                                  (lit "No image was returned from the API."))
                  | None =>
                      inr (Backend.ErrorObject
                             (lit "No image was returned from the API."))
                  end
              end
          end
      end
  end.

(** What an image handler does when its call settles. *)
Definition settleImage (sid : jsstring) (botMessageId : Z)
    (caption generic safety noImage blocked : jsstring)
    (outcome : Backend.Outcome Backend.GenerateContentResponse)
    (st : AppState) : AppState :=
  match imageReply botMessageId caption outcome with
  | inl finalBotMessage =>
      update sid (resolveMessage botMessageId (fun _ => finalBotMessage)) st
  | inr error =>
      let userMessage :=
        imageFailureText generic safety noImage blocked error in
      update sid
        (resolveMessage botMessageId
           (fun msg => ChatMessage.with_isLoading
                         (ChatMessage.with_text msg userMessage) false))
        st
  end.

(** [handleImageGeneration(prompt, style)] up to its call of
    [generateImage].  [clock n] is what the n-th [Date.now()] of the run
    returns. *)
Definition handleImageGeneration (prompt style : jsstring)
    (clock : nat -> Z) (st : AppState) : AppState * option Task :=
  match activeSessionId st with
  | Some ((_ :: _) as sid) =>
      let finalPrompt :=
        lit "A " ++ toLowerCase style ++ lit " of: " ++ prompt in
      let botMessageId := (clock 0%nat + 1)%Z in
      let botMessagePlaceholder :=
        ChatMessage.with_isLoading (ChatMessage.make botMessageId [] bot)
          true in
      let userStyleMessage := ChatMessage.make (clock 1%nat) style user in
      (update sid
         (fun prev => prev ++ [userStyleMessage; botMessagePlaceholder]) st,
       Some (GenerateImage finalPrompt
               (settleImage sid botMessageId
                  (lit "Here is the image I generated for you:")
                  (lit "Sorry, I couldn't generate the image. Please try a different prompt.")
                  (lit "I'm unable to create an image for that request as it appears to violate safety guidelines. Could you please try a different idea?")
                  (lit "It seems I had trouble creating an image for that prompt. Could you please try a different one?")
                  (lit "I'm unable to create an image for that request because it was blocked. Please try rephrasing your prompt."))))
  | _ => (st, None)
  end.

(** [handleImageEdit(text, file)] up to its call of [editImage]. *)
Definition handleImageEdit (text : jsstring) (file : UploadedFile.t)
    (clock : nat -> Z) (st : AppState) : AppState * option Task :=
  match activeSessionId st with
  | Some ((_ :: _) as sid) =>
      let userMessage :=
        ChatMessage.with_files
          (ChatMessage.make (clock 0%nat)
             (lit "(Edit Prompt: " ++ text ++ lit ")") user)
          [file] in
      let botMessageId := (clock 1%nat + 1)%Z in
      let botMessagePlaceholder :=
        ChatMessage.with_isLoading (ChatMessage.make botMessageId [] bot)
          true in
      (update sid (replaceWelcome [userMessage; botMessagePlaceholder]) st,
       Some (EditImage file text
               (settleImage sid botMessageId
                  (lit "Here's the edited image:")
                  (lit "Sorry, I couldn't edit the image. Please try a different prompt or image.")
                  (lit "I'm unable to edit the image with that request as it appears to violate safety guidelines. Could you please try a different edit?")
                  (lit "It seems I had trouble editing the image with that prompt. Could you please try a more descriptive or different edit?")
                  (lit "I'm unable to edit the image with that request because it was blocked. Please try rephrasing your prompt."))))
  | _ => (st, None)
  end.

(** The citations of one chunk: [flatMap] over the grounding chunks,
    then [filter(c => !!c && !!c.uri)]. *)
Definition chunkSources (chunk : Backend.Chunk) : list Source.t :=
  match Backend.groundingChunks chunk with
  | Some groundingChunks =>
      filter (fun c => truthy_opt (Source.uri c))
        (flat_map
           (fun c =>
              match Backend.web c with
              | Some w => [w]
              | None =>
                  match Backend.placeAnswerSources c with
                  | Some places =>
                      map (fun p =>
                             {| Source.uri := Backend.placeUri p;
                                Source.title := Backend.displayName p |})
                          places
                  | None => []
                  end
              end)
           groundingChunks)
  | None => []
  end.

Definition key_eqb (a b : option jsstring) : bool :=
  match a, b with
  | Some x, Some y => str_eqb x y
  | None, None => true
  | _, _ => false
  end.

(** [Map.prototype.set]: a key already present keeps its place and takes
    the new value, a new key goes to the end. *)
Fixpoint mapSet (k : option jsstring) (v : Source.t)
    (m : list (option jsstring * Source.t))
    : list (option jsstring * Source.t) :=
  match m with
  | [] => [(k, v)]
  | (k', v') :: m' =>
      if key_eqb k k' then (k, v) :: m' else (k', v') :: mapSet k v m'
  end.

(** [Array.from(new Map(sources.map(s => [s.uri, s])).values())] *)
Definition uniqueSources (sources : list Source.t) : list Source.t :=
  map snd (fold_left (fun m s => mapSet (Source.uri s) s m) sources []).

(** One turn of the [for await] loop. *)
Definition onChunk (chunk : Backend.Chunk) (r : Reply) (st : AppState)
    : Reply * AppState :=
  let fullResponse := fullResponse r ++ tpl (Backend.chunkText chunk) in
  let sources := sources r ++ chunkSources chunk in
  ({| botMessageId := botMessageId r; sessionId := sessionId r;
      languageCode := languageCode r;
      fullResponse := fullResponse; sources := sources |},
   update (sessionId r)
     (resolveMessage (botMessageId r)
        (fun msg => ChatMessage.with_isLoading
                      (ChatMessage.with_text msg fullResponse) true))
     st).

(** The message that replaces the placeholder when the stream is over. *)
Definition finalBotMessage (r : Reply) : ChatMessage.t :=
  let cleanedText :=
    trim (Regex.removeAll (fun c => c) imageMarkdownRegex (fullResponse r)) in
  ChatMessage.with_isLoading
    (ChatMessage.with_sources
       (ChatMessage.make (botMessageId r) cleanedText bot)
       (uniqueSources (sources r)))
    false.

(** After the loop: the final message, and the sustainability tip every
    fifth user turn. *)
Definition onStreamEnd (r : Reply) (st : AppState)
    : AppState * option Timer :=
  let st1 :=
    update (sessionId r)
      (resolveMessage (botMessageId r) (fun _ => finalBotMessage r)) st in
  if (5 <=? userMessageCount st1)%nat then
    let tip :=
      orElse (SUSTAINABILITY_TIPS (languageCode r))
             (SUSTAINABILITY_TIPS (lit "en-US")) in
    (setUserMessageCount 0 st1,
     Some {| delay := 500;
             callback := addSystemMessage (Some (sessionId r)) tip |})
  else (st1, None).

(** The catch clause of the chat turn. *)
Definition onStreamError (sid : jsstring) (botMessageId : Z)
    (st : AppState) : AppState :=
  update sid
    (resolveMessage botMessageId
       (fun msg => ChatMessage.with_isLoading
                     (ChatMessage.with_text msg
                        (lit "Sorry, I encountered an error. Please try again."))
                     false))
    st.

(** The loop over the chunks that arrive: the locals and the state after
    each chunk, starting with those before the first. *)
Fixpoint receive (chunks : list Backend.Chunk) (r : Reply) (st : AppState)
    : list (Reply * AppState) :=
  (r, st) ::
  match chunks with
  | [] => []
  | chunk :: chunks' =>
      let (r', st') := onChunk chunk r st in receive chunks' r' st'
  end.

(** How a stream ends: the iterator is done, or it throws. *)
Inductive Ending := Completes | Throws (e : Backend.Thrown).

(** A whole reply: every chunk, then the end of the stream. *)
Definition streamed (chunks : list Backend.Chunk) (ending : Ending)
    (r : Reply) (st : AppState) : AppState * option Timer :=
  let (r', st') := last (receive chunks r st) (r, st) in
  match ending with
  | Completes => onStreamEnd r' st'
  | Throws _ => (onStreamError (sessionId r) (botMessageId r) st', None)
  end.

(** The text the video handler shows for what [generateVideo] threw. *)
Definition videoFailureText (error : Backend.Thrown) : jsstring :=
  let errorMessage :=
    match error with
    | Backend.ErrorObject message => message
    | Backend.OtherValue => lit "An unknown error occurred."
    end in
  lit "Sorry, I couldn't generate the video. Error: " ++ errorMessage.

(** [handleVideoGeneration(file, prompt, aspectRatio)] up to its call of
    [generateVideo]. *)
Definition handleVideoGeneration (file : UploadedFile.t) (prompt : jsstring)
    (aspectRatio : AspectRatio) (clock : nat -> Z) (st : AppState)
    : AppState * option Task :=
  match activeSessionId st with
  | Some ((_ :: _) as sid) =>
      let userMessage :=
        ChatMessage.with_files
          (ChatMessage.make (clock 0%nat)
             (lit "(Video Prompt: " ++ prompt ++ lit ")") user)
          [file] in
      let botMessageId := (clock 1%nat + 1)%Z in
      let botMessagePlaceholder := videoPlaceholder botMessageId in
      (update sid (replaceWelcome [userMessage; botMessagePlaceholder]) st,
       Some (GenerateVideo file prompt aspectRatio
         (fun outcome =>
            match outcome with
            | Backend.Fulfilled videoUri =>
                let finalBotMessage :=
                  ChatMessage.with_videoUrl
                    (ChatMessage.with_videoState
                       (ChatMessage.with_isLoading
                          (ChatMessage.make botMessageId
                             (lit "Here is the generated video:") bot)
                          false)
                       done)
                    videoUri in
                update sid
                  (resolveMessage botMessageId (fun _ => finalBotMessage))
            | Backend.Rejected error =>
                update sid
                  (resolveMessage botMessageId
                     (fun msg =>
                        ChatMessage.with_videoState
                          (ChatMessage.with_isLoading
                             (ChatMessage.with_text msg
                                (videoFailureText error))
                             false)
                          failed))
            end)))
  | _ => (st, None)
  end.

(** [f.mimeType.startsWith('image/')] *)
Definition isImage (f : UploadedFile.t) : bool :=
  startsWith (lit "image/") (UploadedFile.mimeType f).

(** [`Certainly! I will now respond in ${targetLanguage.name}.`] *)
Definition confirmation (targetLanguage : Language.t) : jsstring :=
  lit "Certainly! I will now respond in "
  ++ Language.name targetLanguage ++ lit ".".

(** The language-change branch of [handleSendMessage]. *)
Definition switchLanguage (sid text : jsstring)
    (targetLanguage : Language.t) (clock : nat -> Z) (st : AppState)
    : AppState * option Task :=
  let userMessage := ChatMessage.make (clock 0%nat) text user in
  let st1 := update sid (dropWelcome [userMessage]) st in
  let st2 :=
    setSessions
      (map (fun session =>
              if str_eqb (ChatSession.id session) sid
              then ChatSession.with_languageCode session
                     (Language.code targetLanguage)
              else session))
      st1 in
  let confirmationMessage :=
    ChatMessage.make (clock 1%nat + 1)%Z (confirmation targetLanguage)
      bot in
  (update sid (fun prev => prev ++ [confirmationMessage]) st2, None).

(** The style-selection branch. *)
Definition selectArtStyle (pending text : jsstring) (clock : nat -> Z)
    (st : AppState) : AppState * option Task :=
  let (st1, task) := handleImageGeneration pending text clock st in
  (setPendingImagePrompt None st1, task).

(** The bot message of the image-request branch: the question, with
    [ART_STYLES.map(style => ({ text: style, icon: PaletteIcon }))] as
    suggestions. *)
Definition styleQuestion (botMessageId : Z) : ChatMessage.t :=
  let artStyleSuggestions :=
    map (fun style =>
           {| Suggestion.text := style; Suggestion.icon := PaletteIcon;
              Suggestion.prompt := None |})
        ART_STYLES in
  ChatMessage.with_suggestions
    (ChatMessage.make botMessageId
       (lit "Sounds creative! Which art style would you like?") bot)
    artStyleSuggestions.

(** The image-request branch. *)
Definition askArtStyle (sid text : jsstring) (clock : nat -> Z)
    (st : AppState) : AppState * option Task :=
  let st1 := setPendingImagePrompt (Some text) st in
  let userMessage := ChatMessage.make (clock 0%nat) text user in
  let botMessage := styleQuestion (clock 1%nat + 1)%Z in
  (update sid (dropWelcome [userMessage; botMessage]) st1, None).

(** [LANGUAGES.map(lang => initialSuggestions[lang.code][5].text
    .toLowerCase())]; [None] when a code has no entry in the table and
    the lookup throws. *)
Fixpoint tripPlanVariants (languages : list Language.t)
    : option (list jsstring) :=
  match languages with
  | [] => Some []
  | lang :: languages' =>
      match initialSuggestions_5_text (Language.code lang),
            tripPlanVariants languages' with
      | Some label, Some variants => Some (toLowerCase label :: variants)
      | _, _ => None
      end
  end.

(** The trip-plan branch. *)
Definition tripPlanReply (sid text : jsstring)
    (currentSession : ChatSession.t) (clock : nat -> Z) (st : AppState)
    : AppState * option Task :=
  let userMessage := ChatMessage.make (clock 0%nat) text user in
  let botResponse :=
    ChatMessage.make (clock 1%nat + 1)%Z
      (orElse (TRIP_PLAN_PROMPT (ChatSession.languageCode currentSession))
              (TRIP_PLAN_PROMPT (lit "en-US")))
      bot in
  (update sid (replaceWelcome [userMessage; botResponse]) st, None).

(** The text sent to the chat: the prompt of the chip or the text, the
    position of the user, and the text files. *)
Definition promptText (payload : Payload.t) (st : AppState) : jsstring :=
  let base :=
    match Payload.prompt payload with
    | Some ((_ :: _) as prompt) => prompt
    | _ => Payload.text payload
    end in
  let located :=
    match userLocation st with
    | Some loc =>
        lit "My current location is latitude: " ++ latitude loc
        ++ lit ", longitude: " ++ longitude loc
        ++ lit ". Please use this for any location-based queries."
        ++ [10; 10]%N ++ lit "My request: " ++ [34]%N ++ base ++ [34]%N
    | None => base
    end in
  fold_left
    (fun promptText f =>
       lit "Context from file " ++ [34]%N ++ UploadedFile.name f
       ++ [34; 58; 10]%N ++ UploadedFile.data f
       ++ [10; 10]%N ++ lit "My question: " ++ promptText)
    (filter (fun f => str_eqb (UploadedFile.mimeType f) (lit "text/plain"))
            (Payload.files payload))
    located.

(** The standard branch, up to its call of [sendMessage]. *)
Definition chatTurn (sid : jsstring) (payload : Payload.t)
    (currentSession : ChatSession.t) (clock : nat -> Z) (st : AppState)
    : AppState * option Task :=
  let text := Payload.text payload in
  let files := Payload.files payload in
  let userMessage :=
    ChatMessage.with_files (ChatMessage.make (clock 0%nat) text user) files in
  let st1 := setUserMessageCount (S (userMessageCount st)) st in
  let botMessageId := (clock 1%nat + 1)%Z in
  let botMessagePlaceholder :=
    ChatMessage.with_isLoading (ChatMessage.make botMessageId [] bot) true in
  let isFirstUserMessage :=
    Nat.eqb
      (length (filter (fun m => match ChatMessage.sender m with
                                | user => true | bot => false end)
                      (ChatSession.messages currentSession)))
      0 in
  let st2 :=
    if isFirstUserMessage then
      setSessions
        (map (fun s => if str_eqb (ChatSession.id s) sid
                       then ChatSession.with_title s (firstn 40 text)
                       else s))
        st1
    else st1 in
  let st3 :=
    update sid (replaceWelcome [userMessage; botMessagePlaceholder]) st2 in
  match chatSessionRef st3 with
  | None => (onStreamError sid botMessageId st3, None)
  | Some chat =>
      let imageParts :=
        map (fun f =>
               {| Backend.mimeType := Some (UploadedFile.mimeType f);
                  Backend.data := Some (UploadedFile.data f) |})
            (filter isImage files) in
      (st3,
       Some (SendMessage chat (promptText payload st3) imageParts
               {| botMessageId := botMessageId; sessionId := sid;
                  languageCode := ChatSession.languageCode currentSession;
                  fullResponse := []; sources := [] |}))
  end.

(** The file to edit: [files.length === 1 &&
    files[0].mimeType.startsWith('image/') && text.trim()]. *)
Definition editTarget (payload : Payload.t) : option UploadedFile.t :=
  match Payload.files payload with
  | [file] =>
      if isImage file && truthy (trim (Payload.text payload))
      then Some file else None
  | _ => None
  end.

(** [handleSendMessage] from the image-editing test on.  The table
    lookup of the trip-plan test throws when a language has no entry; the
    handler then stops where it is. *)
Definition afterStyleSelection (sid : jsstring) (payload : Payload.t)
    (currentSession : ChatSession.t) (clock : nat -> Z) (st : AppState)
    : AppState * option Task :=
  let text := Payload.text payload in
  let files := Payload.files payload in
  match editTarget payload with
  | Some file => handleImageEdit text file clock st
  | None =>
      if Regex.test canonicalize imageGenRegex (trim text)
         && negb (Regex.test canonicalize imageGenBlockRegex (trim text))
         && Nat.eqb (length files) 0
      then askArtStyle sid text clock st
      else
        match tripPlanVariants LANGUAGES with
        | None => (st, None)
        | Some variants =>
            if arr_includes variants (trim (toLowerCase text))
               && Nat.eqb (length files) 0
            then tripPlanReply sid text currentSession clock st
            else chatTurn sid payload currentSession clock st
        end
  end.

(** The language to switch to: the one the text asks for, when its code
    is not the code of the session. *)
Definition switchTarget (text : jsstring) (currentSession : ChatSession.t)
    : option Language.t :=
  match targetLanguage text with
  | Some target =>
      if str_eqb (Language.code target)
                 (ChatSession.languageCode currentSession)
      then None else Some target
  | None => None
  end.

(** [handleSendMessage(payload)] up to its first [await]: the state it
    leaves and the backend call it waits for, if any. *)
Definition handleSendMessage (clock : nat -> Z) (payload : Payload.t)
    (st0 : AppState) : AppState * option Task :=
  let st := setIsBotSpeaking false st0 in
  let text := Payload.text payload in
  let files := Payload.files payload in
  if (negb (truthy (trim text)) && Nat.eqb (length files) 0)
     || negb (truthy_opt (activeSessionId st))
  then (st, None)
  else
    match activeSessionId st with
    | None => (st, None)
    | Some sid =>
        match findSession sid (sessions st) with
        | None => (st, None)
        | Some currentSession =>
            match switchTarget text currentSession with
            | Some target => switchLanguage sid text target clock st
            | None =>
                match pendingImagePrompt st with
                | Some ((_ :: _) as pending) =>
                    if arr_includes ART_STYLES text
                    then selectArtStyle pending text clock st
                    else afterStyleSelection sid payload currentSession
                           clock (setPendingImagePrompt None st)
                | _ =>
                    afterStyleSelection sid payload currentSession clock st
                end
            end
        end
    end.

End Handlers.

(* ------------------------------------------------------------------ *)
(** *** The router as the specification words it *)
(* ------------------------------------------------------------------ *)

(** The six rules of the router, in their order of priority. *)
Inductive Rule :=
| LanguageSwitch | ArtStyleSelection | ImageEdit | ImageIntent
| TripPlan | DefaultChat.

Definition priority : list Rule :=
  [LanguageSwitch; ArtStyleSelection; ImageEdit; ImageIntent; TripPlan;
   DefaultChat].

Definition rule_eqb (a b : Rule) : bool :=
  match a, b with
  | LanguageSwitch, LanguageSwitch | ArtStyleSelection, ArtStyleSelection
  | ImageEdit, ImageEdit | ImageIntent, ImageIntent
  | TripPlan, TripPlan | DefaultChat, DefaultChat => true
  | _, _ => false
  end.

(** The rules that come before a rule in a list. *)
Fixpoint rulesBefore (rule : Rule) (l : list Rule) : list Rule :=
  match l with
  | [] => []
  | r :: l' => if rule_eqb r rule then [] else r :: rulesBefore rule l'
  end.

Section Router.

Variable LANGUAGES : list Language.t.
Variable ART_STYLES : list jsstring.
Variable TRIP_PLAN_PROMPT : jsstring -> option jsstring.
Variable SUSTAINABILITY_TIPS : jsstring -> option jsstring.
Variable toLowerCase : jsstring -> jsstring.
Variable canonicalize : N -> N.

(** Whether a rule matches a submission, on its own. *)
Definition matches (rule : Rule) (payload : Payload.t)
    (currentSession : ChatSession.t) (st : AppState) : bool :=
  let text := Payload.text payload in
  let files := Payload.files payload in
  match rule with
  | LanguageSwitch =>
      match switchTarget LANGUAGES toLowerCase canonicalize text
                         currentSession with
      | Some _ => true | None => false
      end
  | ArtStyleSelection =>
      truthy_opt (pendingImagePrompt st) && arr_includes ART_STYLES text
  | ImageEdit =>
      match files with
      | [file] => isImage file && truthy (trim text)
      | _ => false
      end
  | ImageIntent =>
      Regex.test canonicalize imageGenRegex (trim text)
      && negb (Regex.test canonicalize imageGenBlockRegex (trim text))
      && Nat.eqb (length files) 0
  | TripPlan =>
      match tripPlanVariants toLowerCase LANGUAGES with
      | Some variants =>
          arr_includes variants (trim (toLowerCase text))
          && Nat.eqb (length files) 0
      | None => false
      end
  | DefaultChat => true
  end.

(** A rule matches and no rule of higher priority does. *)
Definition first_to_match (rule : Rule) (payload : Payload.t)
    (currentSession : ChatSession.t) (st : AppState) : Prop :=
  matches rule payload currentSession st = true /\
  forall r, In r (rulesBefore rule priority) ->
            matches r payload currentSession st = false.

(** The rule that fires: the first of the list that matches. *)
Definition firstMatch (payload : Payload.t) (currentSession : ChatSession.t)
    (st : AppState) : option Rule :=
  find (fun rule => matches rule payload currentSession st) priority.

(** The state a rule below style selection starts from: a pending image
    prompt is dropped. *)
Definition superseded (st : AppState) : AppState :=
  if truthy_opt (pendingImagePrompt st)
  then setPendingImagePrompt None st else st.

(** What a rule does. *)
Definition action (rule : Rule) (sid : jsstring) (payload : Payload.t)
    (currentSession : ChatSession.t) (clock : nat -> Z) (st : AppState)
    : AppState * option Task :=
  let text := Payload.text payload in
  match rule with
  | LanguageSwitch =>
      match switchTarget LANGUAGES toLowerCase canonicalize text
                         currentSession with
      | Some target => switchLanguage sid text target clock st
      | None => (st, None)
      end
  | ArtStyleSelection =>
      selectArtStyle toLowerCase (tpl (pendingImagePrompt st)) text clock st
  | ImageEdit =>
      match Payload.files payload with
      | file :: _ =>
          handleImageEdit toLowerCase text file clock (superseded st)
      | [] => (st, None)
      end
  | ImageIntent => askArtStyle ART_STYLES sid text clock (superseded st)
  | TripPlan =>
      tripPlanReply TRIP_PLAN_PROMPT sid text currentSession clock
        (superseded st)
  | DefaultChat => chatTurn sid payload currentSession clock (superseded st)
  end.

(** What the action of a rule leaves behind, as to the backend and the
    loading placeholders: the result [r] of the action on state [st]. *)
Definition footprint (rule : Rule) (payload : Payload.t) (clock : nat -> Z)
    (st : AppState) (r : AppState * option Task) : Prop :=
  match rule with
  | LanguageSwitch | ImageIntent | TripPlan =>
      snd r = None /\ incl (loading (fst r)) (loading st)
  | ArtStyleSelection =>
      (exists finalPrompt settle,
         snd r = Some (GenerateImage finalPrompt settle)) /\
      In (placeholder (clock 0%nat + 1)) (loading (fst r))
  | ImageEdit =>
      (exists file settle,
         snd r = Some (EditImage file (Payload.text payload) settle)) /\
      In (placeholder (clock 1%nat + 1)) (loading (fst r))
  | DefaultChat =>
      match chatSessionRef st with
      | Some chat =>
          (exists promptText imageParts reply,
             snd r = Some (SendMessage chat promptText imageParts reply)) /\
          In (placeholder (clock 1%nat + 1)) (loading (fst r))
      | None => snd r = None /\ incl (loading (fst r)) (loading st)
      end
  end.

(** A submission the handler accepts: some text or a file, and an active
    session that is in the store. *)
Definition accepted (payload : Payload.t) (st : AppState)
    : option (jsstring * ChatSession.t) :=
  if truthy (trim (Payload.text payload))
     || negb (Nat.eqb (length (Payload.files payload)) 0)
  then
    match activeSessionId st with
    | Some ((_ :: _) as sid) =>
        match findSession sid (sessions st) with
        | Some currentSession => Some (sid, currentSession)
        | None => None
        end
    | _ => None
    end
  else None.

(** The router of the specification: the action of the first matching
    rule. *)
Definition router (clock : nat -> Z) (payload : Payload.t)
    (st0 : AppState) : AppState * option Task :=
  let st := setIsBotSpeaking false st0 in
  match accepted payload st with
  | Some (sid, currentSession) =>
      match firstMatch payload currentSession st with
      | Some rule => action rule sid payload currentSession clock st
      | None => (st, None)
      end
  | None => (st, None)
  end.

End Router.

End App.

(* ================================================================== *)
(** ** The scenarios of the specification *)
(* ================================================================== *)

Module Scenario.

Import App.

(** Modelled from the spec: the constants of [constants.ts].  The
    specification names the language entry [{code: hi-IN, name: Hindi}]
    and the art style Watercolor; the code [en-US] is the default language
    of a session in [App], taken here with the name English. *)
Definition LANGUAGES : list Language.t :=
  [ {| Language.code := lit "en-US"; Language.name := lit "English";
       Language.nativeName := lit "English" |};
    {| Language.code := lit "hi-IN"; Language.name := lit "Hindi";
       Language.nativeName := [2361; 2367; 2344; 2381; 2342; 2368]%N |} ].

Definition ART_STYLES : list jsstring := [lit "Watercolor"].

(** No entry of the two text tables is known. *)
Definition TRIP_PLAN_PROMPT (code : jsstring) : option jsstring := None.

Definition SUSTAINABILITY_TIPS (code : jsstring) : option jsstring := None.

(** The two Unicode tables on ASCII text. *)
Definition toLowerCase (s : jsstring) : jsstring := map asciiLower s.

Definition canonicalize (c : N) : N := asciiUpper c.

(** The welcome message of a fresh session; its suggestion chips are not
    read by the handlers and are left out. *)
Definition welcome : ChatMessage.t :=
  {| ChatMessage.id := 1000; ChatMessage.text := [];
     ChatMessage.sender := bot; ChatMessage.suggestions := Some [];
     ChatMessage.images := None; ChatMessage.sources := None;
     ChatMessage.isLoading := None; ChatMessage.files := None;
     ChatMessage.isWelcome := Some true; ChatMessage.isSystem := None;
     ChatMessage.videoState := None; ChatMessage.videoUrl := None |}.

(** A fresh session in English. *)
Definition session : ChatSession.t :=
  {| ChatSession.id := lit "1000"; ChatSession.title := lit "New Chat";
     ChatSession.messages := [welcome];
     ChatSession.languageCode := lit "en-US" |}.

Definition fresh : AppState :=
  {| sessions := [session];
     activeSessionId := Some (lit "1000");
     isBotSpeaking := false;
     userLocation := None;
     pendingImagePrompt := None;
     chatSessionRef := Some (Backend.chat 0);
     userMessageCount := 0 |}.

(** A submission of text alone. *)
Definition say (text : string) : Payload.t :=
  {| Payload.text := lit text; Payload.files := [];
     Payload.prompt := None |}.

(** A clock that shows 2000 ms at every reading. *)
Definition clock (n : nat) : Z := 2000.

Definition handle : Payload.t -> AppState -> AppState * option Task :=
  handleSendMessage LANGUAGES ART_STYLES TRIP_PLAN_PROMPT toLowerCase
    canonicalize clock.

(** The state while an image prompt waits for its style. *)
Definition awaitingStyle : AppState :=
  fst (handle (say "generate a sunset over the beach") fresh).

(** A server message with a clip of three frames (six bytes of PCM). *)
Definition clipMessage : LiveAudio.LiveServerMessage :=
  {| LiveAudio.modelTurn := Some (Some [Some (lit "AAAAAAAA")]);
     LiveAudio.interrupted := false |}.

(** A server message with the interruption signal, and no audio. *)
Definition interruption : LiveAudio.LiveServerMessage :=
  {| LiveAudio.modelTurn := None; LiveAudio.interrupted := true |}.

(** A language that has no row in the table of suggestions. *)
Definition french : Language.t :=
  {| Language.code := lit "fr-FR"; Language.name := lit "French";
     Language.nativeName := lit "Francais" |}.

(** An interruption signal that comes with an audio text in the URL-safe
    alphabet, which [atob] refuses. *)
Definition interruptionWithNoise : LiveAudio.LiveServerMessage :=
  {| LiveAudio.modelTurn := Some (Some [Some (lit "AA-A")]);
     LiveAudio.interrupted := true |}.

(** An interruption signal whose model turn has no parts array. *)
Definition interruptionWithoutParts : LiveAudio.LiveServerMessage :=
  {| LiveAudio.modelTurn := Some None; LiveAudio.interrupted := true |}.

(** A reply in which an image stands inside the brackets of another. *)
Definition nested : list Backend.Chunk :=
  [ {| Backend.chunkText := Some (lit "!![a](b)[c](d)");
       Backend.groundingChunks := None |} ].

Definition cite (uri title : string) : Source.t :=
  {| Source.uri := Some (lit uri); Source.title := Some (lit title) |}.

(** A reply in two chunks, with two images, the first of them in part
    in either chunk, two citations of one page and one of another. *)
Definition chunks : list Backend.Chunk :=
  [ {| Backend.chunkText := Some (lit "Om beach ![map](http://m/1");
       Backend.groundingChunks :=
         Some [ {| Backend.web := Some (cite "http://a" "first");
                   Backend.placeAnswerSources := None |};
                {| Backend.web := Some (cite "http://b" "other");
                   Backend.placeAnswerSources := None |} ] |};
    {| Backend.chunkText :=
         Some (lit ".png) is near. ![pin](http://m/2.png)");
       Backend.groundingChunks :=
         Some [ {| Backend.web := Some (cite "http://a" "second");
                   Backend.placeAnswerSources := None |} ] |} ].

(** A video backend whose operation is done at the second poll, without
    a result URI. *)
Definition noLink : Backend.VideoBackend :=
  {| Backend.submitted :=
       Backend.Fulfilled {| Backend.opDone := false;
                            Backend.resultUri := None |};
     Backend.polled := fun n =>
       Backend.Fulfilled {| Backend.opDone := Nat.leb 1 n;
                            Backend.resultUri := None |} |}.

(** The session of the scenarios after the image request. *)
Definition asked : ChatSession.t :=
  ChatSession.with_messages session
    [ChatMessage.make 2000 (lit "generate a sunset over the beach") user;
     ChatMessage.with_suggestions
       (ChatMessage.make 2001
          (lit "Sounds creative! Which art style would you like?") bot)
       [{| Suggestion.text := lit "Watercolor";
           Suggestion.icon := PaletteIcon;
           Suggestion.prompt := None |}]].

(** The locals of the loop when the stream of a reply opens. *)
Definition opening : Reply :=
  {| botMessageId := 2001; sessionId := lit "1000";
     languageCode := lit "en-US"; fullResponse := []; sources := [] |}.

(** The state while the reply to a question is awaited. *)
Definition asking : AppState :=
  fst (handle (say "where is Om beach") fresh).

(** Two sessions and an update of the messages. *)
Definition other : ChatSession.t :=
  {| ChatSession.id := lit "999"; ChatSession.title := lit "Beaches";
     ChatSession.messages := [];
     ChatSession.languageCode := lit "hi-IN" |}.

Definition greet : Store.NewMessages :=
  Store.Updater
    (fun prev => prev ++ [ChatMessage.make 2000 (lit "hello") user]).


End Scenario.
(* ================================================================== *)
(** ** Session management ([App]) *)
(* ================================================================== *)

(** An entry of the image library: [GeneratedImage] of [types.ts]. *)
Module GeneratedImage.
Record t := { src : jsstring; sessionId : jsstring; messageId : Z }.
End GeneratedImage.

Module Sessions.

Import Store App.

(** [n.toString()] of an integer number, as [Date.now()] returns one:
    its decimal digits, with a minus sign below zero. *)
Definition digits (n : N) : jsstring :=
  lit (DecimalString.NilZero.string_of_uint (N.to_uint n)).

Definition numberToString (n : Z) : jsstring :=
  match n with
  | Z0 => digits 0
  | Zpos p => digits (Npos p)
  | Zneg p => 45%N :: digits (Npos p)
  end.

(** [setActiveSessionId(id)] *)
Definition setActiveSessionId (id : option jsstring) (st : AppState)
    : AppState :=
  {| sessions := sessions st;
     activeSessionId := id;
     isBotSpeaking := isBotSpeaking st;
     userLocation := userLocation st;
     pendingImagePrompt := pendingImagePrompt st;
     chatSessionRef := chatSessionRef st;
     userMessageCount := userMessageCount st |}.

(** The state of the component before its first effect. *)
Definition mounted : AppState :=
  {| sessions := [];
     activeSessionId := None;
     isBotSpeaking := false;
     userLocation := None;
     pendingImagePrompt := None;
     chatSessionRef := None;
     userMessageCount := 0 |}.

(** [sessions.find(s => s.id === activeSessionId)] *)
Definition activeSession (st : AppState) : option ChatSession.t :=
  match activeSessionId st with
  | Some sid => findSession sid (sessions st)
  | None => None
  end.

Definition chip (text : jsstring) (icon : Icon) (prompt : option jsstring)
    : Suggestion.t :=
  {| Suggestion.text := text; Suggestion.icon := icon;
     Suggestion.prompt := prompt |}.

Section Welcome.

(** Two more constants of [constants.ts], taken as parameters. *)
Variable LANGUAGES : list Language.t.
Variable TODAYS_BRIEFING_PROMPT : jsstring -> option jsstring.

(** [initialSuggestions[code]]: the chips of the welcome screen of each
    language, as the table of the component has them. *)
Definition initialSuggestions (code : jsstring)
    : option (list Suggestion.t) :=
  if str_eqb code (lit "en-US") then Some
    [chip (lit "Today's Briefing") SunCloudIcon (TODAYS_BRIEFING_PROMPT (lit
           "en-US"));
     chip (lit "Explore Beaches") BeachIcon None;
     chip (lit "Find Hotels") HotelIcon None;
     chip (lit "Local Food") FoodIcon None;
     chip (lit "Temple Visits") TempleIcon None;
     chip (lit "Trip Plan") TripPlanIcon None]
  else
  if str_eqb code (lit "hi-IN") then Some
    [chip ([2310; 2332; 32; 2325; 2368; 32; 2348; 2381; 2352; 2368; 2347;
           2367; 2306; 2327]%N) SunCloudIcon (TODAYS_BRIEFING_PROMPT (lit
           "hi-IN"));
     chip ([2360; 2350; 2369; 2342; 2381; 2352; 32; 2340; 2335]%N) BeachIcon
           None;
     chip ([2361; 2379; 2335; 2354; 32; 2326; 2379; 2332; 2375; 2306]%N)
           HotelIcon None;
     chip ([2360; 2381; 2341; 2366; 2344; 2368; 2351; 32; 2349; 2379; 2332;
           2344]%N) FoodIcon None;
     chip ([2350; 2306; 2342; 2367; 2352; 32; 2342; 2352; 2381; 2358;
           2344]%N) TempleIcon None;
     chip ([2351; 2366; 2340; 2381; 2352; 2366; 32; 2351; 2379; 2332; 2344;
           2366]%N) TripPlanIcon None]
  else
  if str_eqb code (lit "kn-IN") then Some
    [chip ([3207; 3202; 3238; 3263; 3240; 32; 3244; 3277; 3248; 3264; 3243;
           3263; 3202; 3223; 3277]%N) SunCloudIcon (TODAYS_BRIEFING_PROMPT
           (lit "kn-IN"));
     chip ([3221; 3233; 3250; 3236; 3264; 3248; 3223; 3251; 3265]%N)
           BeachIcon None;
     chip ([3257; 3275; 3231; 3270; 3250; 3277; 8204; 3223; 3251; 3265]%N)
           HotelIcon None;
     chip ([3256; 3277; 3237; 3251; 3264; 3247; 32; 3206; 3257; 3262;
           3248]%N) FoodIcon None;
     chip ([3238; 3271; 3253; 3262; 3250; 3247; 32; 3245; 3271; 3231; 3263;
           3223; 3251; 3265]%N) TempleIcon None;
     chip ([3242; 3277; 3248; 3253; 3262; 3256; 32; 3247; 3275; 3228; 3240;
           3270]%N) TripPlanIcon None]
  else
  if str_eqb code (lit "ta-IN") then Some
    [chip ([2951; 2985; 3021; 2993; 3016; 2991; 32; 2949; 2993; 3007; 2965;
           3021; 2965; 3016]%N) SunCloudIcon (TODAYS_BRIEFING_PROMPT (lit
           "ta-IN"));
     chip ([2965; 2975; 2993; 3021; 2965; 2992; 3016; 2965; 2995; 3021]%N)
           BeachIcon None;
     chip ([3001; 3019; 2975; 3021; 2975; 2994; 3021; 2965; 2995; 3021]%N)
           HotelIcon None;
     chip ([2953; 2995; 3021; 2995; 3010; 2992; 3021; 32; 2953; 2979; 2997;
           3009]%N) FoodIcon None;
     chip ([2965; 3019; 2997; 3007; 2994; 3021; 32; 2997; 2992; 3009; 2965;
           3016; 2965; 2995; 3021]%N) TempleIcon None;
     chip ([2986; 2991; 2979; 2980; 3021; 32; 2980; 3007; 2975; 3021; 2975;
           2990; 3021]%N) TripPlanIcon None]
  else
  if str_eqb code (lit "te-IN") then Some
    [chip ([3112; 3143; 3103; 3135; 32; 3116; 3149; 3120; 3136; 3115; 3135;
           3074; 3095; 3149]%N) SunCloudIcon (TODAYS_BRIEFING_PROMPT (lit
           "te-IN"));
     chip ([3116; 3136; 3098; 3149; 8204; 3122; 3137]%N) BeachIcon None;
     chip ([3257; 3147; 3103; 3123; 3149; 3123; 3137]%N) HotelIcon None;
     chip ([3256; 3277; 3237; 3134; 3112; 3135; 3093; 32; 3078; 3129; 3134;
           3120; 3074]%N) FoodIcon None;
     chip ([3078; 3122; 3119; 32; 3128; 3074; 3110; 3120; 3149; 3126; 3112;
           3122; 3137]%N) TempleIcon None;
     chip ([3103; 3149; 3120; 3135; 3114; 3149; 32; 3114; 3149; 3122; 3134;
           3112; 3149]%N) TripPlanIcon None]
  else
  if str_eqb code (lit "ml-IN") then Some
    [chip ([3335; 3368; 3405; 3368; 3364; 3405; 3364; 3398; 32; 3372; 3405;
           3376; 3392; 3371; 3391; 3330; 3351; 3405]%N) SunCloudIcon
           (TODAYS_BRIEFING_PROMPT (lit "ml-IN"));
     chip ([3372; 3392; 3354; 3405; 3354; 3393; 3349; 3454]%N) BeachIcon None;
     chip ([3385; 3403; 3359; 3405; 3359; 3378; 3393; 3349; 3454]%N)
           HotelIcon None;
     chip ([3370; 3405; 3376; 3390; 3366; 3399; 3382; 3391; 3349; 32; 3373;
           3349; 3405; 3383; 3363; 3330]%N) FoodIcon None;
     chip ([3349; 3405; 3383; 3399; 3364; 3405; 3376; 32; 3384; 3368; 3405;
           3366; 3452; 3382; 3368; 3330]%N) TempleIcon None;
     chip ([3375; 3390; 3364; 3405; 3376; 3390; 32; 3370; 3366; 3405; 3367;
           3364; 3391]%N) TripPlanIcon None]
  else None.

(** [getWelcomeMessage(languageCode)], with the clock it reads. *)
Definition getWelcomeMessage (languageCode : jsstring) (now : Z)
    : ChatMessage.t :=
  {| ChatMessage.id := now; ChatMessage.text := [];
     ChatMessage.sender := bot;
     ChatMessage.suggestions :=
       match initialSuggestions languageCode with
       | Some chips => Some chips
       | None => initialSuggestions (lit "en-US")
       end;
     ChatMessage.images := None; ChatMessage.sources := None;
     ChatMessage.isLoading := None; ChatMessage.files := None;
     ChatMessage.isWelcome := Some true; ChatMessage.isSystem := None;
     ChatMessage.videoState := None; ChatMessage.videoUrl := None |}.

(** The object literal of a new session, which four places of the
    component write out: [{ id: Date.now().toString(), title: 'New Chat',
    messages: [getWelcomeMessage(code)], languageCode: code }].  [clock n]
    is what the n-th [Date.now()] of the run returns. *)
Definition newSession (code : jsstring) (clock : nat -> Z)
    : ChatSession.t :=
  {| ChatSession.id := numberToString (clock 0%nat);
     ChatSession.title := lit "New Chat";
     ChatSession.messages := [getWelcomeMessage code (clock 1%nat)];
     ChatSession.languageCode := code |}.

(** The effect that runs on mount.  [saved] is the array that
    [JSON.parse] returns for the stored text, when there is a stored text
    and it parses to an array of sessions; [lastActiveId] is the stored
    id of the active session. *)
Definition loadSessions (saved : option (list ChatSession.t))
    (lastActiveId : option jsstring) (clock : nat -> Z) (st : AppState)
    : AppState :=
  match saved with
  | Some ((first :: _) as savedSessions) =>
      let activeSession :=
        match lastActiveId with
        | Some id =>
            match findSession id savedSessions with
            | Some s => s
            | None => first
            end
        | None => first
        end in
      setActiveSessionId (Some (ChatSession.id activeSession))
        (setSessions (fun _ => savedSessions) st)
  | _ =>
      let newSession := newSession (lit "en-US") clock in
      setActiveSessionId (Some (ChatSession.id newSession))
        (setSessions (fun _ => [newSession]) st)
  end.

(** [LANGUAGES.find(l => l.code === activeSession?.languageCode)
    || LANGUAGES[0]] *)
Definition activeLanguage (st : AppState) : option Language.t :=
  match
    find (fun l =>
            match activeSession st with
            | Some s => str_eqb (Language.code l) (ChatSession.languageCode s)
            | None => false
            end)
         LANGUAGES
  with
  | Some l => Some l
  | None => hd_error LANGUAGES
  end.

(** [handleNewChat()].  With no language at all, reading
    [activeLanguage.code] throws after the first state update. *)
Definition handleNewChat (clock : nat -> Z) (st : AppState) : AppState :=
  let st1 := setIsBotSpeaking false st in
  match activeLanguage st with
  | Some activeLanguage =>
      let newSession := newSession (Language.code activeLanguage) clock in
      setActiveSessionId (Some (ChatSession.id newSession))
        (setSessions (fun prev => prev ++ [newSession]) st1)
  | None => st1
  end.

(** [handleSelectSession(sessionId)] *)
Definition handleSelectSession (sessionId : jsstring) (st : AppState)
    : AppState :=
  setActiveSessionId (Some sessionId) st.

(** [handleDeleteSession(sessionId)] *)
Definition handleDeleteSession (sessionId : jsstring) (clock : nat -> Z)
    (st : AppState) : AppState :=
  let remainingSessions :=
    filter (fun s => negb (str_eqb (ChatSession.id s) sessionId))
           (sessions st) in
  let isActive :=
    match activeSessionId st with
    | Some active => str_eqb active sessionId
    | None => false
    end in
  if isActive then
    match remainingSessions with
    | first :: _ =>
        setActiveSessionId (Some (ChatSession.id first))
          (setSessions (fun _ => remainingSessions) st)
    | [] =>
        let newSession := newSession (lit "en-US") clock in
        setActiveSessionId (Some (ChatSession.id newSession))
          (setSessions (fun _ => [newSession]) st)
    end
  else setSessions (fun _ => remainingSessions) st.

(** [handleRenameSession(sessionId, newTitle)] *)
Definition handleRenameSession (sessionId newTitle : jsstring)
    (st : AppState) : AppState :=
  if negb (truthy (trim newTitle)) then st
  else
    setSessions
      (map (fun s => if str_eqb (ChatSession.id s) sessionId
                     then ChatSession.with_title s (trim newTitle)
                     else s))
      st.

(** [handleClearAllSessions()] *)
Definition handleClearAllSessions (clock : nat -> Z) (st : AppState)
    : AppState :=
  let st1 := setIsBotSpeaking false st in
  let newSession := newSession (lit "en-US") clock in
  setActiveSessionId (Some (ChatSession.id newSession))
    (setSessions (fun _ => [newSession]) st1).

(** What the history panel can ask of the store. *)
Inductive Command :=
| NewChat (clock : nat -> Z)
| SelectSession (sessionId : jsstring)
| DeleteSession (sessionId : jsstring) (clock : nat -> Z)
| RenameSession (sessionId newTitle : jsstring)
| ClearAllSessions (clock : nat -> Z).

Definition perform (st : AppState) (c : Command) : AppState :=
  match c with
  | NewChat clock => handleNewChat clock st
  | SelectSession sessionId => handleSelectSession sessionId st
  | DeleteSession sessionId clock => handleDeleteSession sessionId clock st
  | RenameSession sessionId newTitle =>
      handleRenameSession sessionId newTitle st
  | ClearAllSessions clock => handleClearAllSessions clock st
  end.

(** The panel lists the sessions of the store; a session that is selected
    is one of them. *)
Definition offered (st : AppState) (c : Command) : Prop :=
  match c with
  | SelectSession sessionId =>
      exists s, In s (sessions st) /\ ChatSession.id s = sessionId
  | _ => True
  end.

(** Commands issued one after the other, each on the panel as the
    command before it left it. *)
Fixpoint offeredAll (st : AppState) (l : list Command) : Prop :=
  match l with
  | [] => True
  | c :: l' => offered st c /\ offeredAll (perform st c) l'
  end.

End Welcome.

(** The active id names a session of the store. *)
Definition activeInStore (st : AppState) : Prop :=
  exists s, In s (sessions st) /\ activeSessionId st = Some (ChatSession.id s).

(** [allGeneratedImages]: the images of the bot messages of every
    session, latest first. *)
Definition allGeneratedImages (sessions : list ChatSession.t)
    : list GeneratedImage.t :=
  rev
    (flat_map
       (fun session =>
          flat_map
            (fun msg =>
               map (fun imageSrc =>
                      {| GeneratedImage.src := imageSrc;
                         GeneratedImage.sessionId := ChatSession.id session;
                         GeneratedImage.messageId := ChatMessage.id msg |})
                   (match ChatMessage.images msg with
                    | Some images => images
                    | None => []
                    end))
            (filter
               (fun msg =>
                  match ChatMessage.sender msg, ChatMessage.images msg with
                  | bot, Some (_ :: _) => true
                  | _, _ => false
                  end)
               (ChatSession.messages session)))
       sessions).

(* ------------------------------------------------------------------ *)
(** *** The history handed to the chat *)
(* ------------------------------------------------------------------ *)

(** A part of a [Content] of the history: [{ text }] or
    [{ inlineData: { data, mimeType } }]. *)
Inductive HistoryPart :=
| TextPart (text : jsstring)
| InlineDataPart (data mimeType : jsstring).

Inductive Role := UserRole | ModelRole.

Record Content := { role : Role; parts : list HistoryPart }.

(** [messageToGeminiContent(message)]; [None] is [null]. *)
Definition messageToGeminiContent (message : ChatMessage.t)
    : option Content :=
  if ChatMessage.flag (ChatMessage.isSystem message)
     || ChatMessage.flag (ChatMessage.isWelcome message)
     || (negb (truthy (trim (ChatMessage.text message)))
         && match ChatMessage.files message with
            | Some (_ :: _) => false
            | _ => true
            end)
  then None
  else
    let textParts :=
      if truthy (ChatMessage.text message)
      then [TextPart (ChatMessage.text message)] else [] in
    let fileParts :=
      match ChatMessage.files message with
      | Some files =>
          map (fun file => InlineDataPart (UploadedFile.data file)
                                          (UploadedFile.mimeType file))
              files
      | None => []
      end in
    Some {| role := match ChatMessage.sender message with
                    | user => UserRole
                    | bot => ModelRole
                    end;
            parts := textParts ++ fileParts |}.

(** [messages.map(messageToGeminiContent).filter(c => c !== null)] *)
Definition geminiHistory (messages : list ChatMessage.t) : list Content :=
  flat_map (fun m => match messageToGeminiContent m with
                     | Some c => [c]
                     | None => []
                     end)
           messages.

(** The effect that follows the active session: a new chat with the
    history of the session, and the count of user turns.  [startChat] is
    the service call, which gives the handle of the chat it creates. *)
Definition chatEffect (startChat : jsstring -> list Content -> Backend.Chat)
    (st : AppState) : AppState :=
  match activeSession st with
  | Some activeSession =>
      {| sessions := sessions st;
         activeSessionId := activeSessionId st;
         isBotSpeaking := isBotSpeaking st;
         userLocation := userLocation st;
         pendingImagePrompt := pendingImagePrompt st;
         chatSessionRef :=
           Some (startChat (ChatSession.languageCode activeSession)
                   (geminiHistory (ChatSession.messages activeSession)));
         userMessageCount :=
           Nat.modulo
             (length (filter (fun m => match ChatMessage.sender m with
                                       | user => true | bot => false end)
                             (ChatSession.messages activeSession)))
             5 |}
  | None => st
  end.

(* ------------------------------------------------------------------ *)
(** *** Summaries *)
(* ------------------------------------------------------------------ *)

(** [m.isSystem && m.text === "Summarizing..."] *)
Definition isSummarizing (m : ChatMessage.t) : bool :=
  ChatMessage.flag (ChatMessage.isSystem m)
  && str_eqb (ChatMessage.text m) (lit "Summarizing...").

(** The call of [summarizeText] that [handleSummarize] waits for, with
    what runs when it settles.  The summary is [response.text], which a
    response may lack. *)
Record Summarize := {
  textToSummarize : jsstring;
  settle : Backend.Outcome (option jsstring) -> AppState -> AppState
}.

(** [handleSummarize(textToSummarize)] up to its call of
    [summarizeText]. *)
Definition handleSummarize (text : jsstring) (clock : nat -> Z)
    (st : AppState) : AppState * option Summarize :=
  match activeSessionId st with
  | Some ((_ :: _) as sid) =>
      (addSystemMessage (Some sid) (lit "Summarizing...") (clock 1%nat) st,
       Some {| textToSummarize := text;
               settle := fun outcome st' =>
                 match outcome with
                 | Backend.Fulfilled summary =>
                     let summaryMessage :=
                       ChatMessage.make (clock 2%nat)
                         ([55357; 56541; 32]%N ++ lit "**Summary**"
                          ++ [10; 10]%N ++ tpl summary)
                         bot in
                     update sid
                       (fun prev =>
                          filter (fun m => negb (isSummarizing m)) prev
                          ++ [summaryMessage])
                       st'
                 | Backend.Rejected _ =>
                     addSystemMessage (Some sid)
                       (lit "Sorry, I couldn't summarize that. Please try again.")
                       (clock 2%nat)
                       (update sid
                          (filter (fun m => negb (isSummarizing m))) st')
                 end |})
  | _ => (st, None)
  end.

(* ------------------------------------------------------------------ *)
(** *** What the handlers leave of the store *)
(* ------------------------------------------------------------------ *)

(** The ids of the sessions, in their order, and the active id. *)
Definition sessionIds (st : AppState) : list jsstring * option jsstring :=
  (map ChatSession.id (sessions st), activeSessionId st).

Definition sameSessions (st st' : AppState) : Prop :=
  sessionIds st' = sessionIds st.

Section Settled.

Variable SUSTAINABILITY_TIPS : jsstring -> option jsstring.

(** Whatever the backend answers to a call, and in whatever state the
    answer arrives, what runs then keeps the sessions; so does the timer
    that the end of a stream may set. *)
Definition settlesWithinSessions (task : Task) : Prop :=
  match task with
  | GenerateImage _ settle | EditImage _ _ settle =>
      forall outcome st, sameSessions st (settle outcome st)
  | GenerateVideo _ _ _ settle =>
      forall outcome st, sameSessions st (settle outcome st)
  | SendMessage _ _ _ reply =>
      forall chunks ending st,
        sameSessions st
          (fst (streamed SUSTAINABILITY_TIPS chunks ending reply st)) /\
        match snd (streamed SUSTAINABILITY_TIPS chunks ending reply st) with
        | Some timer =>
            forall now st', sameSessions st' (callback timer now st')
        | None => True
        end
  end.

(** A handler run from [st] with result [r] keeps the sessions, up to
    its first [await] and after it. *)
Definition keepsSessions (st : AppState) (r : AppState * option Task)
    : Prop :=
  sameSessions st (fst r) /\
  match snd r with
  | Some task => settlesWithinSessions task
  | None => True
  end.

End Settled.

End Sessions.

(* ================================================================== *)
(** ** The chat window and its input ([ChatWindow], [ChatInput]) *)
(* ================================================================== *)

Module ChatWindow.

(** [messages.filter(m => !m.isSystem).length <= 1] *)
Definition isInitialState (messages : list ChatMessage.t) : bool :=
  Nat.leb
    (length (filter (fun m => negb (ChatMessage.flag (ChatMessage.isSystem m)))
                    messages))
    1.

(** [messages.length > 0 && messages[0].isWelcome
    ? messages[0].suggestions : []]; [None] is [undefined]. *)
Definition initialSuggestions (messages : list ChatMessage.t)
    : option (list Suggestion.t) :=
  match messages with
  | first :: _ =>
      if ChatMessage.flag (ChatMessage.isWelcome first)
      then ChatMessage.suggestions first
      else Some []
  | [] => Some []
  end.

(** [[...messages].reverse().find(m => m.sender === 'bot' && !m.isLoading
    && !m.isSystem && m.suggestions && m.suggestions.length > 0)] *)
Definition lastBotMessageWithSuggestions (messages : list ChatMessage.t)
    : option ChatMessage.t :=
  find (fun m =>
          match ChatMessage.sender m with bot => true | user => false end
          && negb (ChatMessage.flag (ChatMessage.isLoading m))
          && negb (ChatMessage.flag (ChatMessage.isSystem m))
          && match ChatMessage.suggestions m with
             | Some (_ :: _) => true
             | _ => false
             end)
       (rev messages).

(** The chips on screen: those of the welcome message in the initial
    state, those of the last bot message that has some after it. *)
Definition chips (messages : list ChatMessage.t) : list Suggestion.t :=
  if isInitialState messages then
    match initialSuggestions messages with
    | Some suggestions => suggestions
    | None => []
    end
  else
    match lastBotMessageWithSuggestions messages with
    | Some {| ChatMessage.suggestions := Some suggestions |} => suggestions
    | _ => []
    end.

(** What a click on a chip submits:
    [{text: suggestion.text, files: [], prompt: suggestion.prompt}]. *)
Definition chipPayload (suggestion : Suggestion.t) : Payload.t :=
  {| Payload.text := Suggestion.text suggestion;
     Payload.files := [];
     Payload.prompt := Suggestion.prompt suggestion |}.

End ChatWindow.

Module ChatInput.

(** The state of the input that sending reads and writes. *)
Record State := {
  inputValue : jsstring;
  stagedFiles : list UploadedFile.t
}.

Definition cleared : State := {| inputValue := []; stagedFiles := [] |}.

(** [handleManualSendMessage()]: the state it leaves and the payload it
    hands to [onSendMessage], if any. *)
Definition handleManualSendMessage (isLoading : bool) (s : State)
    : State * option Payload.t :=
  if (truthy (trim (inputValue s))
      || Nat.ltb 0 (length (stagedFiles s)))
     && negb isLoading
  then (cleared,
        Some {| Payload.text := inputValue s;
                Payload.files := stagedFiles s;
                Payload.prompt := None |})
  else (s, None).

(** [removeStagedFile(fileName)] *)
Definition removeStagedFile (fileName : jsstring) (s : State) : State :=
  {| inputValue := inputValue s;
     stagedFiles :=
       filter (fun f => negb (str_eqb (UploadedFile.name f) fileName))
              (stagedFiles s) |}.

(** What a click on the video button comes to. *)
Inductive VideoClick :=
| Notice (text : jsstring)       (* [addSystemMessage(text)] *)
| Nothing
| Video (file : UploadedFile.t) (prompt : jsstring)
    (aspectRatio : App.AspectRatio).  (* [onGenerateVideo(...)] *)

(** [handleGenerateVideoClick()].  [answer] is what [window.prompt]
    returns and [landscape] what [window.confirm] returns. *)
Definition handleGenerateVideoClick (answer : option jsstring)
    (landscape : bool) (s : State) : State * VideoClick :=
  match stagedFiles s with
  | [file] =>
      if App.isImage file then
        match answer with
        | Some ((_ :: _) as prompt) =>
            (cleared,
             Video file prompt
               (if landscape then App.Landscape else App.Portrait))
        | _ => (s, Nothing)
        end
      else
        (s, Notice (lit "Please upload exactly one image to generate a video."))
  | _ =>
      (s, Notice (lit "Please upload exactly one image to generate a video."))
  end.

End ChatInput.

(* ================================================================== *)
(** ** Copying a message ([MessageBubble]) *)
(* ================================================================== *)

Module MessageBubble.

(** [/\*\*/g] *)
Definition boldMarker : Regex.regex := Regex.str [42; 42]%N.

(** [text.replace(/\*\*/g, '')], the text that [handleCopy] and
    [handleShare] hand on. *)
Definition cleanText (text : jsstring) : jsstring :=
  Regex.removeAll (fun c => c) boldMarker text.

End MessageBubble.

(* ================================================================== *)
(** ** Live audio: the transcript and the samples ([LiveChatView]) *)
(* ================================================================== *)

(** A turn of the transcript: [{ user, bot, isFinal }]. *)
Module Turn.
Record t := {
  user : option jsstring;
  bot : jsstring;
  isFinal : bool
}.
End Turn.

Module Transcript.

(** The fields of [message.serverContent] that feed the transcript.  A
    transcription is an object whose [text] may be missing. *)
Record ServerContent := {
  inputTranscription : option (option jsstring);
  outputTranscription : option (option jsstring);
  turnComplete : bool
}.

(** The state [transcription] and the two refs. *)
Record View := {
  transcription : list Turn.t;
  currentInputTranscription : option jsstring;
  currentOutputTranscription : jsstring
}.

Definition opened : View :=
  {| transcription := [];
     currentInputTranscription := Some [];
     currentOutputTranscription := [] |}.

(** [newTranscription[newTranscription.length - 1]] *)
Definition lastTurn (l : list Turn.t) : option Turn.t :=
  hd_error (rev l).

(** An assignment to a field of the last turn. *)
Fixpoint onLast (f : Turn.t -> Turn.t) (l : list Turn.t) : list Turn.t :=
  match l with
  | [] => []
  | [last] => [f last]
  | turn :: l' => turn :: onLast f l'
  end.

(** The three tests of [onmessage] on the transcription fields, one
    after the other, each state update applied as it is issued. *)
Definition heard (text : option jsstring) (v : View) : View :=
  {| transcription :=
       match lastTurn (transcription v) with
       | Some {| Turn.isFinal := false |} =>
           onLast (fun last => {| Turn.user := text;
                                  Turn.bot := Turn.bot last;
                                  Turn.isFinal := Turn.isFinal last |})
                  (transcription v)
       | _ =>
           transcription v
           ++ [{| Turn.user := text; Turn.bot := [];
                  Turn.isFinal := false |}]
       end;
     currentInputTranscription := text;
     currentOutputTranscription := currentOutputTranscription v |}.

Definition spoken (text : option jsstring) (v : View) : View :=
  let current := currentOutputTranscription v ++ tpl text in
  {| transcription :=
       onLast (fun last => {| Turn.user := Turn.user last;
                              Turn.bot := current;
                              Turn.isFinal := Turn.isFinal last |})
              (transcription v);
     currentInputTranscription := currentInputTranscription v;
     currentOutputTranscription := current |}.

Definition completed (v : View) : View :=
  {| transcription :=
       onLast (fun last => {| Turn.user := Turn.user last;
                              Turn.bot := Turn.bot last;
                              Turn.isFinal := true |})
              (transcription v);
     currentInputTranscription := Some [];
     currentOutputTranscription := [] |}.

Definition onmessage (v : View) (content : ServerContent) : View :=
  let v1 :=
    match inputTranscription content with
    | Some text => heard text v
    | None => v
    end in
  let v2 :=
    match outputTranscription content with
    | Some text => spoken text v1
    | None => v1
    end in
  if turnComplete content then completed v2 else v2.

(** The input texts and the output texts of a run of messages. *)
Definition inputs (l : list ServerContent) : list (option jsstring) :=
  flat_map (fun c => match inputTranscription c with
                     | Some text => [text]
                     | None => []
                     end) l.

Definition outputs (l : list ServerContent) : list jsstring :=
  flat_map (fun c => match outputTranscription c with
                     | Some text => [tpl text]
                     | None => []
                     end) l.

End Transcript.

Module Playback.

Import LiveAudio.

Section Clock.

Variable time : Type.

(** The bookkeeping of the audio nodes: every node was started once, was
    stopped at most once, and after its start; the tracked set holds
    started nodes that were not stopped, each once. *)
Definition wellTracked (p : Player time) : Prop :=
  NoDup (sources p) /\
  NoDup (map (@node time) (started p)) /\
  NoDup (stopped p) /\
  (forall x, In x (map (@node time) (started p)) -> x < created p) /\
  (forall x, In x (sources p) ->
     In x (map (@node time) (started p)) /\ ~ In x (stopped p)) /\
  (forall x, In x (stopped p) -> In x (map (@node time) (started p))).

End Clock.

End Playback.

Module Pcm.

(** A sample of a [Float32Array] is a finite binary fraction, hence a
    rational; the products and quotients by 32768 that the code takes
    are exact in floating point, so the samples are modelled as
    rationals.  NaN and the infinities, which a microphone does not
    deliver, are left out. *)
Definition Sample := QArith_base.Q.

(** The element of an [Int16Array] over two bytes; the byte order is
    that of the platform, little-endian on every browser platform. *)
Definition int16 (lo hi : byte) : Z :=
  let u := (Z.of_N (Byte.to_N lo) + 256 * Z.of_N (Byte.to_N hi))%Z in
  if (u <? 32768)%Z then u else (u - 65536)%Z.

(** [new Int16Array(data.buffer)] *)
Fixpoint dataInt16 (data : list byte) : list Z :=
  match data with
  | lo :: hi :: rest => int16 lo hi :: dataInt16 rest
  | _ => []
  end.

(** The channel data that [decodeAudioData] fills:
    [dataInt16[i] / 32768.0]. *)
Definition channelData (data : list byte) : option (list Sample) :=
  match LiveAudio.decodeAudioData data with
  | Some _ =>
      Some (map (fun s => QArith_base.Qmake s 32768) (dataInt16 data))
  | None => None
  end.

(** ToInt16 of an integer: modulo 2^16, read as signed. *)
Definition toInt16 (n : Z) : Z :=
  let m := (n mod 65536)%Z in
  if (m <? 32768)%Z then m else (m - 65536)%Z.

(** The integer part of a number, towards zero. *)
Definition truncate (x : Sample) : Z :=
  Z.quot (QArith_base.Qnum x) (Zpos (QArith_base.Qden x)).

(** [int16[i] = inputData[i] * 32768] *)
Definition quantize (sample : Sample) : Z :=
  toInt16 (truncate (QArith_base.Qmult sample (QArith_base.Qmake 32768 1))).

(** The two bytes of an element of an [Int16Array]. *)
Definition bytesOf (s : Z) : list byte :=
  let u := (s mod 65536)%Z in
  [Base64.to_uint8 (Z.to_N (u mod 256)); Base64.to_uint8 (Z.to_N (u / 256))].

(** [new Uint8Array(int16.buffer)] after the loop of [onaudioprocess]. *)
Definition pcmBytes (inputData : list Sample) : list byte :=
  flat_map (fun sample => bytesOf (quantize sample)) inputData.

(** The [data] of the blob sent to the session. *)
Definition pcmBlobData (inputData : list Sample) : option jsstring :=
  Base64.encode (pcmBytes inputData).

End Pcm.

(* ================================================================== *)
(** ** Further scenarios *)
(* ================================================================== *)

Module Examples.

Import App Scenario.

(** No briefing prompt is known. *)
Definition TODAYS_BRIEFING_PROMPT (code : jsstring) : option jsstring :=
  None.

(** A clock that moves on by one millisecond at every reading. *)
Definition ticking (n : nat) : Z := 2000 + Z.of_nat n.

(** What the history panel is asked in turn: a new chat, a new title for
    it, the first session again, its deletion. *)
Definition commands : list Sessions.Command :=
  [Sessions.NewChat ticking;
   Sessions.RenameSession (lit "2000") (lit " Beaches ");
   Sessions.SelectSession (lit "2000");
   Sessions.DeleteSession (lit "2000") clock].

(** A chat service that hands out one handle. *)
Definition startChat (languageCode : jsstring)
    (history : list Sessions.Content) : Backend.Chat :=
  Backend.chat 0.

(** The state while a summary is awaited, and the call awaited. *)
Definition summarizing : AppState :=
  fst (Sessions.handleSummarize (lit "a long text") clock fresh).

Definition summary : Sessions.Summarize :=
  match snd (Sessions.handleSummarize (lit "a long text") clock fresh) with
  | Some task => task
  | None => {| Sessions.textToSummarize := [];
               Sessions.settle := fun _ st => st |}
  end.

(** A reply of the image model with one image. *)
Definition pictured : Backend.GenerateContentResponse :=
  {| Backend.blockReason := None;
     Backend.content :=
       Some (Some [{| Backend.inlineData :=
                        Some {| Backend.mimeType := Some (lit "image/png");
                                Backend.data := Some (lit "AAAA") |} |}]);
     Backend.text := None |}.

(** The message that shows the image of the reply. *)
Definition picture : ChatMessage.t :=
  ChatMessage.with_isLoading
    (ChatMessage.with_images
       (ChatMessage.make 2001
          (lit "Here is the image I generated for you:") bot)
       [lit "data:image/png;base64,AAAA"])
    false.

(** The messages of one turn of a live conversation. *)
Definition hello : Transcript.ServerContent :=
  {| Transcript.inputTranscription := Some (Some (lit "hello"));
     Transcript.outputTranscription := None;
     Transcript.turnComplete := false |}.

Definition answer (text : string) : Transcript.ServerContent :=
  {| Transcript.inputTranscription := None;
     Transcript.outputTranscription := Some (Some (lit text));
     Transcript.turnComplete := false |}.

(** A clip in the URL-safe alphabet, with the interruption signal. *)
Definition urlSafeClip : LiveAudio.LiveServerMessage :=
  {| LiveAudio.modelTurn := Some (Some [Some (lit "AA-A")]);
     LiveAudio.interrupted := true |}.

(** Two samples of the microphone: a half and minus a quarter. *)
Definition frame : list Pcm.Sample :=
  [QArith_base.Qmake 1 2; QArith_base.Qmake (-1) 4].

(** The input of the chat with a greeting typed and nothing staged. *)
Definition typed : ChatInput.State :=
  {| ChatInput.inputValue := lit "hello"; ChatInput.stagedFiles := [] |}.

End Examples.

(* ================================================================== *)
(** ** The rendering of a line ([MarkdownRenderer]) *)
(* ================================================================== *)

Module MarkdownRenderer.

Import Regex.

(** [/\[(.*?)\]\((.*?)\)|\*\*(.*?)\*\*/g] *)
Definition combinedRegex : regex :=
  Alt (seqs [Char 91; Group 1 (Rep Dot 0 None false); Char 93; Char 40;
             Group 2 (Rep Dot 0 None false); Char 41])
      (seqs [Char 42; Char 42; Group 3 (Rep Dot 0 None false);
             Char 42; Char 42]).

(** What [processLine] pushes: a piece of the line, a link, or bold
    text. *)
Inductive Element :=
| Text (text : jsstring)
| Anchor (linkText linkUrl : jsstring)
| Strong (boldText : jsstring).

(** The element of a match: a link when the first two groups took part,
    bold text when the third did. *)
Definition element (m : Match) : list Element :=
  match group 1 m, group 2 m with
  | Some linkText, Some linkUrl => [Anchor linkText linkUrl]
  | _, _ =>
      match group 3 m with
      | Some boldText => [Strong boldText]
      | None => []
      end
  end.

(** The loop of [processLine] from [lastIndex] on: [s] is the line from
    there, [prev] the code unit before it.  Every match takes at least
    one code unit, so the loop makes no more turns than [s] is long;
    [fuel] bounds the turns. *)
Fixpoint processFrom (fuel : nat) (prev : option N) (s : jsstring)
    : list Element :=
  match search (fun c => c) combinedRegex prev s 0 with
  | Some m =>
      match fuel with
      | O => []
      | S fuel' =>
          (match index m with
           | O => []
           | S _ => [Text (firstn (index m) s)]
           end)
          ++ element m
          ++ processFrom fuel' (before (final m)) (rest (final m))
      end
  | None =>
      match s with
      | [] => []
      | _ :: _ => [Text s]
      end
  end.

(** [processLine(line)] *)
Definition processLine (line : jsstring) : list Element :=
  processFrom (length line) None line.

(** The markdown that an element stands for. *)
Definition source (e : Element) : jsstring :=
  match e with
  | Text text => text
  | Anchor linkText linkUrl =>
      [91]%N ++ linkText ++ [93; 40]%N ++ linkUrl ++ [41]%N
  | Strong boldText => [42; 42]%N ++ boldText ++ [42; 42]%N
  end.

End MarkdownRenderer.

(* ================================================================== *)
(** * Properties *)
(* ================================================================== *)

Unset Implicit Arguments.

Ltac Zify.zify_post_hook ::= Z.to_euclidean_division_equations.

Module JsFacts.

Lemma str_eqb_eq (a b : jsstring) : str_eqb a b = true <-> a = b.
Proof.
  revert b; induction a as [|x a IH]; intros [|y b]; simpl;
    try (split; [discriminate | discriminate]);
    try (split; reflexivity).
  rewrite andb_true_iff, N.eqb_eq, IH.
  split; [intros [-> ->]; reflexivity | intros H; inversion H; auto].
Qed.

Lemma str_eqb_refl (a : jsstring) : str_eqb a a = true.
Proof. apply str_eqb_eq; reflexivity. Qed.

Lemma str_eqb_neq (a b : jsstring) : str_eqb a b = false <-> a <> b.
Proof.
  split.
  - intros H E. apply str_eqb_eq in E. congruence.
  - intros H. destruct (str_eqb a b) eqn:E; [|reflexivity].
    apply str_eqb_eq in E. contradiction.
Qed.

Lemma arr_includes_In (arr : list jsstring) (x : jsstring) :
  arr_includes arr x = true <-> In x arr.
Proof.
  unfold arr_includes. rewrite existsb_exists. split.
  - intros [y [Hy E]]. apply str_eqb_eq in E. subst. exact Hy.
  - intros H. exists x. split; [exact H | apply str_eqb_refl].
Qed.

End JsFacts.
Import JsFacts.

Module Base64Facts.
Import Base64.
Local Open Scope N_scope.

(** Every six-bit value is recovered from its character. *)
Lemma dec6_enc6 (n : N) : n < 64 -> dec6 (enc6 n) = Some n.
Proof.
  intros H.
  assert (A : forallb (fun k => match dec6 (enc6 k) with
                                 | Some v => v =? k | None => false end)
                      (map N.of_nat (seq 0 64)) = true) by (vm_compute; reflexivity).
  rewrite forallb_forall in A.
  specialize (A n).
  assert (I : In n (map N.of_nat (seq 0 64))).
  { apply in_map_iff. exists (N.to_nat n). split; [lia|]. apply in_seq. lia. }
  apply A in I. destruct (dec6 (enc6 n)); [|discriminate].
  apply N.eqb_eq in I. congruence.
Qed.

Lemma enc6_not_pad (n : N) : n < 64 -> enc6 n <> pad.
Proof.
  intros H E.
  assert (A : forallb (fun k => negb (enc6 k =? pad))
                      (map N.of_nat (seq 0 64)) = true) by (vm_compute; reflexivity).
  rewrite forallb_forall in A.
  assert (I : In n (map N.of_nat (seq 0 64))).
  { apply in_map_iff. exists (N.to_nat n). split; [lia|]. apply in_seq. lia. }
  apply A in I. rewrite E in I. discriminate.
Qed.

Lemma enc6_not_space (n : N) : n < 64 -> isAsciiWhitespace (enc6 n) = false.
Proof.
  intros H.
  assert (A : forallb (fun k => negb (isAsciiWhitespace (enc6 k)))
                      (map N.of_nat (seq 0 64)) = true) by (vm_compute; reflexivity).
  rewrite forallb_forall in A.
  assert (I : In n (map N.of_nat (seq 0 64))).
  { apply in_map_iff. exists (N.to_nat n). split; [lia|]. apply in_seq. lia. }
  apply A in I. destruct (isAsciiWhitespace (enc6 n)); [discriminate|reflexivity].
Qed.

Lemma list_ind3 (A : Type) (P : list A -> Prop) :
  P [] -> (forall a, P [a]) -> (forall a b, P [a; b]) ->
  (forall a b c l, P l -> P (a :: b :: c :: l)) ->
  forall l, P l.
Proof.
  intros H0 H1 H2 H3. fix IH 1.
  intros [|a [|b [|c l]]];
    [apply H0 | apply H1 | apply H2 | apply H3; apply IH].
Qed.

(** The arithmetic of one group: three bytes, four six-bit values. *)
Lemma group_bounds (a b c : N) :
  a < 256 -> b < 256 -> c < 256 ->
  a / 4 < 64 /\ (a mod 4) * 16 + b / 16 < 64 /\
  (b mod 16) * 4 + c / 64 < 64 /\ c mod 64 < 64 /\
  (a mod 4) * 16 < 64 /\ (b mod 16) * 4 < 64.
Proof. intros; repeat split; lia. Qed.

Lemma group_back (a b c : N) :
  a < 256 -> b < 256 -> c < 256 ->
  (a / 4) * 4 + ((a mod 4) * 16 + b / 16) / 16 = a /\
  (((a mod 4) * 16 + b / 16) mod 16) * 16 + ((b mod 16) * 4 + c / 64) / 4 = b /\
  (((b mod 16) * 4 + c / 64) mod 4) * 64 + c mod 64 = c.
Proof. intros; repeat split; lia. Qed.

Lemma length_enc_groups (s : list N) :
  N.of_nat (length (enc_groups s)) mod 4 = 0.
Proof.
  induction s as [| a | a b | a b c l IH] using list_ind3;
    try reflexivity.
  cbn [enc_groups length].
  replace (N.of_nat (S (S (S (S (length (enc_groups l)))))))
    with (N.of_nat (length (enc_groups l)) + 1 * 4) by lia.
  rewrite N.Div0.mod_add. exact IH.
Qed.

Lemma enc_groups_long (s : list N) :
  s <> [] -> (4 <= length (enc_groups s))%nat.
Proof.
  destruct s as [|a [|b [|c l]]]; intros H; try congruence;
    cbn [enc_groups length]; lia.
Qed.

Lemma filter_enc_groups (s : list N) :
  Forall (fun c => c < 256) s ->
  filter (fun c => negb (isAsciiWhitespace c)) (enc_groups s) = enc_groups s.
Proof.
  induction s as [| a | a b | a b c l IH] using list_ind3; intros F.
  - reflexivity.
  - inversion F as [|? ? Ha _]; subst.
    destruct (group_bounds a a a Ha Ha Ha) as (B1 & _ & _ & _ & B5 & _).
    cbn [enc_groups filter].
    rewrite !enc6_not_space by assumption. reflexivity.
  - inversion F as [|? ? Ha F1]; subst. inversion F1 as [|? ? Hb _]; subst.
    destruct (group_bounds a b b Ha Hb Hb) as (B1 & B2 & _ & _ & _ & B6).
    cbn [enc_groups filter].
    rewrite !enc6_not_space by assumption. reflexivity.
  - inversion F as [|? ? Ha F1]; subst. inversion F1 as [|? ? Hb F2]; subst.
    inversion F2 as [|? ? Hc F3]; subst.
    destruct (group_bounds a b c Ha Hb Hc) as (B1 & B2 & B3 & B4 & _ & _).
    cbn [enc_groups filter].
    rewrite !enc6_not_space by assumption. cbn [negb].
    rewrite (IH F3). reflexivity.
Qed.

Lemma strip_padding_app (g x : list N) :
  (2 <= length x)%nat -> strip_padding (g ++ x) = g ++ strip_padding x.
Proof.
  intros L. unfold strip_padding. rewrite rev_app_distr.
  destruct (rev x) as [|p1 [|p2 r]] eqn:E.
  - apply (f_equal (@length N)) in E. rewrite length_rev in E. simpl in E. lia.
  - apply (f_equal (@length N)) in E. rewrite length_rev in E. simpl in E. lia.
  - cbn [app].
    destruct (p1 =? pad); [|reflexivity].
    destruct (p2 =? pad).
    + rewrite rev_app_distr, rev_involutive. reflexivity.
    + change (p2 :: r ++ rev g) with ((p2 :: r) ++ rev g).
      rewrite rev_app_distr, rev_involutive. reflexivity.
Qed.

(** What [atob] sees after the padding is removed decodes to the bytes. *)
Lemma strip_enc_groups (s : list N) :
  Forall (fun c => c < 256) s ->
  exists vs,
    sextets (strip_padding (enc_groups s)) = Some vs /\
    dec_groups vs = s /\
    N.of_nat (length (strip_padding (enc_groups s))) mod 4 <> 1.
Proof.
  induction s as [| a | a b | a b c l IH] using list_ind3; intros F.
  - exists []. repeat split. cbn. lia.
  - inversion F as [|? ? Ha _]; subst.
    destruct (group_bounds a a a Ha Ha Ha) as (B1 & _ & _ & _ & B5 & _).
    destruct (group_back a a a Ha Ha Ha) as (E1 & _ & _).
    exists [a / 4; (a mod 4) * 16].
    cbn [enc_groups]. unfold strip_padding. cbn [rev app].
    rewrite N.eqb_refl. cbn [sextets].
    rewrite !dec6_enc6 by assumption.
    repeat split.
    + cbn [dec_groups]. f_equal. lia.
    + cbn. lia.
  - inversion F as [|? ? Ha F1]; subst. inversion F1 as [|? ? Hb _]; subst.
    destruct (group_bounds a b b Ha Hb Hb) as (B1 & B2 & _ & _ & _ & B6).
    exists [a / 4; (a mod 4) * 16 + b / 16; (b mod 16) * 4].
    cbn [enc_groups]. unfold strip_padding. cbn [rev app].
    rewrite N.eqb_refl.
    destruct (enc6 ((b mod 16) * 4) =? pad) eqn:E.
    { apply N.eqb_eq in E. exfalso. exact (enc6_not_pad _ B6 E). }
    cbn [rev app sextets].
    rewrite !dec6_enc6 by assumption.
    repeat split.
    + cbn [dec_groups]. f_equal; [lia|]. f_equal. lia.
    + cbn. lia.
  - inversion F as [|? ? Ha F1]; subst. inversion F1 as [|? ? Hb F2]; subst.
    inversion F2 as [|? ? Hc F3]; subst.
    destruct (group_bounds a b c Ha Hb Hc) as (B1 & B2 & B3 & B4 & _ & _).
    destruct (group_back a b c Ha Hb Hc) as (E1 & E2 & E3).
    destruct (IH F3) as (vs & S1 & S2 & S3).
    exists (a / 4 :: (a mod 4) * 16 + b / 16
            :: (b mod 16) * 4 + c / 64 :: c mod 64 :: vs).
    cbn [enc_groups].
    set (g := [enc6 (a / 4); enc6 ((a mod 4) * 16 + b / 16);
               enc6 ((b mod 16) * 4 + c / 64); enc6 (c mod 64)]).
    change (enc6 (a / 4) :: enc6 ((a mod 4) * 16 + b / 16)
            :: enc6 ((b mod 16) * 4 + c / 64) :: enc6 (c mod 64)
            :: enc_groups l) with (g ++ enc_groups l).
    destruct l as [|x l'].
    + cbn [enc_groups] in *. rewrite app_nil_r. subst g.
      unfold strip_padding. cbn [rev app].
      destruct (enc6 (c mod 64) =? pad) eqn:E.
      { apply N.eqb_eq in E. exfalso. exact (enc6_not_pad _ B4 E). }
      cbn [sextets]. rewrite !dec6_enc6 by assumption.
      cbn in S1. injection S1 as <-.
      repeat split.
      * cbn [dec_groups]. rewrite E1, E2, E3. reflexivity.
      * cbn. lia.
    + assert (L : (4 <= length (enc_groups (x :: l')))%nat)
        by (apply enc_groups_long; discriminate).
      rewrite strip_padding_app by lia.
      subst g. cbn [app sextets]. rewrite !dec6_enc6 by assumption.
      rewrite S1. repeat split.
      * cbn [dec_groups]. rewrite E1, E2, E3, S2. reflexivity.
      * cbn [length].
        replace (N.of_nat (S (S (S (S (length (strip_padding
                   (enc_groups (x :: l')))))))))
          with (N.of_nat (length (strip_padding (enc_groups (x :: l'))))
                + 1 * 4) by lia.
        rewrite N.Div0.mod_add. exact S3.
Qed.

(** [atob] inverts [btoa] on binary strings. *)
Lemma atob_btoa (s : jsstring) :
  Forall (fun c => c < 256) s ->
  btoa s = Some (enc_groups s) /\ atob (enc_groups s) = Some s.
Proof.
  intros F. split.
  - unfold btoa.
    replace (existsb (fun c => 255 <? c) s) with false; [reflexivity|].
    symmetry. apply not_true_is_false. intros E.
    apply existsb_exists in E. destruct E as (c & I & L).
    rewrite Forall_forall in F. apply F in I. apply N.ltb_lt in L. lia.
  - unfold atob. rewrite (filter_enc_groups _ F), length_enc_groups.
    cbn [N.eqb].
    destruct (strip_enc_groups _ F) as (vs & S1 & S2 & S3).
    destruct (N.of_nat (length (strip_padding (enc_groups s))) mod 4 =? 1) eqn:E.
    { apply N.eqb_eq in E. contradiction. }
    rewrite S1, S2. reflexivity.
Qed.

Lemma bytes_bounded (b : list byte) :
  Forall (fun c => c < 256) (map Byte.to_N b).
Proof.
  apply Forall_forall. intros c I. apply in_map_iff in I.
  destruct I as (x & <- & _). pose proof (Byte.to_N_bounded x). lia.
Qed.

Lemma to_uint8_to_N (b : byte) : to_uint8 (Byte.to_N b) = b.
Proof.
  unfold to_uint8. pose proof (Byte.to_N_bounded b).
  rewrite N.mod_small by lia. rewrite Byte.of_to_N. reflexivity.
Qed.

(** C9. The codec of the live-audio view round-trips: every byte array
    [b] has an encoding [s], [decode s] is [b] again, and encoding what
    [decode] returns on [s] gives [s] again. *)
Theorem encode_decode_roundtrip (b : list byte) :
  exists s,
    encode b = Some s /\
    decode s = Some b /\
    match decode s with Some b' => encode b' | None => None end = Some s.
Proof.
  destruct (atob_btoa _ (bytes_bounded b)) as (E & D).
  exists (enc_groups (map Byte.to_N b)).
  assert (R : decode (enc_groups (map Byte.to_N b)) = Some b).
  { unfold decode. rewrite D, map_map. f_equal.
    rewrite <- (map_id b) at 2. apply map_ext. exact to_uint8_to_N. }
  split; [exact E|]. split; [exact R|].
  rewrite R. exact E.
Qed.

(** The two bytes of "Hi" and their encoding. *)
Example encode_Hi : encode [x48; x69] = Some (lit "SGk=").
Proof. reflexivity. Qed.

Example decode_Hi : decode (lit "SGk=") = Some [x48; x69].
Proof. reflexivity. Qed.

(** [atob] refuses a length of 1 modulo 4 and foreign characters. *)
Example decode_bad_length : decode (lit "SGk=A") = None.
Proof. reflexivity. Qed.

End Base64Facts.

(* ================================================================== *)
(** ** The session store *)
(* ================================================================== *)

Module StoreFacts.
Import Store.

Lemma update_nth (sid : jsstring) (nm : NewMessages)
    (sessions : list ChatSession.t) (i : nat) :
  nth_error (updateSessionMessages sid nm sessions) i =
  option_map (fun s => if str_eqb (ChatSession.id s) sid
                       then ChatSession.with_messages s
                              (applied nm (ChatSession.messages s))
                       else s)
             (nth_error sessions i).
Proof.
  unfold updateSessionMessages. rewrite nth_error_map.
  destruct (nth_error sessions i); reflexivity.
Qed.

Lemma update_absent (sid : jsstring) (nm : NewMessages)
    (sessions : list ChatSession.t) :
  (forall s, In s sessions -> ChatSession.id s <> sid) ->
  updateSessionMessages sid nm sessions = sessions.
Proof.
  intros H. unfold updateSessionMessages.
  rewrite <- (map_id sessions) at 2.
  apply map_ext_in. intros s I.
  apply H in I. apply str_eqb_neq in I. rewrite I. reflexivity.
Qed.

Lemma update_length (sid : jsstring) (nm : NewMessages)
    (sessions : list ChatSession.t) :
  length (updateSessionMessages sid nm sessions) = length sessions.
Proof. apply length_map. Qed.

Lemma update_find (sid : jsstring) (nm : NewMessages)
    (sessions : list ChatSession.t) (s : ChatSession.t) :
  findSession sid sessions = Some s ->
  findSession sid (updateSessionMessages sid nm sessions) =
  Some (ChatSession.with_messages s (applied nm (ChatSession.messages s))).
Proof.
  unfold findSession, updateSessionMessages.
  induction sessions as [|x l IH]; simpl; [discriminate|].
  destruct (str_eqb (ChatSession.id x) sid) eqn:E.
  - intros H. injection H as <-. simpl. rewrite E. reflexivity.
  - simpl. rewrite E. exact IH.
Qed.

(** C10. [updateSessionMessages] keeps the length and the order of the
    list; at every position the session keeps its id, title and
    languageCode; a session with another id is unchanged; a session with
    the given id gets its messages replaced by the array, or by the
    function applied to its old messages; and when no session has the
    given id the list is returned as it was. *)
Theorem updateSessionMessages_frame (sid : jsstring) (nm : NewMessages)
    (sessions : list ChatSession.t) :
  length (updateSessionMessages sid nm sessions) = length sessions /\
  (forall i s, nth_error sessions i = Some s ->
     exists s',
       nth_error (updateSessionMessages sid nm sessions) i = Some s' /\
       ChatSession.id s' = ChatSession.id s /\
       ChatSession.title s' = ChatSession.title s /\
       ChatSession.languageCode s' = ChatSession.languageCode s /\
       (ChatSession.id s <> sid -> s' = s) /\
       (ChatSession.id s = sid ->
          ChatSession.messages s' = applied nm (ChatSession.messages s))) /\
  ((forall s, In s sessions -> ChatSession.id s <> sid) ->
     updateSessionMessages sid nm sessions = sessions).
Proof.
  split; [apply update_length|]. split; [|apply update_absent].
  intros i s H. rewrite update_nth, H. simpl.
  destruct (str_eqb (ChatSession.id s) sid) eqn:E.
  - eexists. split; [reflexivity|]. simpl.
    apply str_eqb_eq in E.
    repeat split; try reflexivity. intros N. contradiction.
  - exists s. apply str_eqb_neq in E.
    repeat split; try reflexivity. intros N. contradiction.
Qed.

End StoreFacts.

(* ================================================================== *)
(** ** Live audio: playback scheduling *)
(* ================================================================== *)

Module LiveAudioFacts.
Import LiveAudio.

Section Clock.

Variable time : Type.
Variable tzero : time.
Variable tadd : time -> time -> time.
Variable tleb : time -> time -> bool.
Variable duration : N -> time.

Local Abbreviation Player := (Player time).
Local Abbreviation onmessage := (onmessage tzero tadd tleb duration).
Local Abbreviation step := (step tzero tadd tleb duration).
Local Abbreviation run := (run tzero tadd tleb duration).
Local Abbreviation in_order := (in_order tadd tleb).
Local Abbreviation tmax := (tmax tleb).
Local Abbreviation interrupt := (interrupt tzero).

Local Abbreviation scheduled := (scheduled tadd tleb).

Lemma audio_read (m : LiveServerMessage) (base64 : jsstring) :
  audio m = Some base64 ->
  base64EncodedAudioString m = Some (Some base64).
Proof.
  unfold audio. destruct (base64EncodedAudioString m) as [[x|]|]; congruence.
Qed.

Lemma clip_audio (m : LiveServerMessage) (frames : N) :
  clip m = Some frames ->
  exists c base64 bytes,
    audio m = Some (c :: base64) /\
    Base64.decode (c :: base64) = Some bytes /\
    decodeAudioData bytes = Some frames.
Proof.
  unfold clip. destruct (audio m) as [[|c b]|]; try discriminate.
  destruct (Base64.decode (c :: b)) as [bytes|] eqn:D; [|discriminate].
  intros H. exists c, b, bytes. auto.
Qed.

(** A message with a clip that decodes, and no interruption. *)
Lemma onmessage_clip (now : time) (m : LiveServerMessage) (p : Player)
    (frames : N) :
  clip m = Some frames -> interrupted m = false ->
  onmessage now m p =
  ({| nextStartTime :=
        tadd (tmax (nextStartTime p) now) (duration frames);
      sources := setAdd (created p) (sources p);
      created := S (created p);
      started :=
        {| node := created p; when := tmax (nextStartTime p) now;
           lasting := duration frames |} :: started p;
      stopped := stopped p |}, Returned).
Proof.
  intros C I. destruct (clip_audio m _ C) as (c & b & bytes & A & D & F).
  unfold LiveAudio.onmessage, afterAudio.
  rewrite (audio_read m _ A); cbv beta iota zeta. rewrite D, F, I.
  reflexivity.
Qed.

Section Order.

Hypothesis tleb_refl : forall a, tleb a a = true.
Hypothesis tleb_trans :
  forall a b c, tleb a b = true -> tleb b c = true -> tleb a c = true.

Lemma tmax_left (a b : time) : tleb a (tmax a b) = true.
Proof.
  unfold LiveAudio.tmax. destruct (tleb a b) eqn:E; auto.
Qed.

Lemma step_scheduled (p : Player) (e : Event time) :
  quiet e = true -> scheduled p -> scheduled (step p e).
Proof.
  intros Q [O B]. destruct e as [now m | source]; simpl in *.
  - apply negb_true_iff in Q.
    unfold LiveAudio.onmessage, afterAudio. rewrite Q.
    destruct (base64EncodedAudioString m) as [[[|c b]|]|]; simpl;
      try (split; assumption).
    assert (B' : match started p with
                 | last :: _ =>
                     tleb (tadd (when last) (lasting last))
                          (tmax (nextStartTime p) now) = true
                 | [] => True
                 end).
    { destruct (started p) as [|last rest]; [exact I|].
      eapply tleb_trans; [exact B | apply tmax_left]. }
    destruct (Base64.decode (c :: b)) as [bytes|]; simpl;
      [|split; assumption].
    destruct (decodeAudioData bytes) as [frames|]; simpl;
      [|split; assumption].
    split; [|apply tleb_refl].
    destruct (started p) as [|last rest]; simpl; auto.
  - split; assumption.
Qed.

Lemma run_scheduled (events : list (Event time)) (p : Player) :
  forallb (@quiet time) events = true ->
  scheduled p -> scheduled (run events p).
Proof.
  revert p. induction events as [|e l IH]; intros p Q S; simpl in *.
  - exact S.
  - apply andb_true_iff in Q. destruct Q as [Q1 Q2].
    apply IH; [exact Q2|]. apply step_scheduled; assumption.
Qed.

End Order.

Lemma stopAll_sources (l : list nat) (p : Player) :
  (forall x, In x (sources p) -> In x l) ->
  sources (fold_left (@stopAndDelete time) l p) = [].
Proof.
  revert p. induction l as [|y l IH]; intros p H; simpl.
  - destruct (sources p) as [|x s]; [reflexivity|].
    destruct (H x (or_introl eq_refl)).
  - apply IH. intros x I. simpl in I. unfold setDelete in I.
    apply filter_In in I. destruct I as [I N].
    apply H in I. destruct I as [<- | I]; [|exact I].
    rewrite Nat.eqb_refl in N. discriminate.
Qed.

Lemma stopAll_stopped (l : list nat) (p : Player) (x : nat) :
  In x l \/ In x (stopped p) ->
  In x (stopped (fold_left (@stopAndDelete time) l p)).
Proof.
  revert p. induction l as [|y l IH]; intros p H; simpl.
  - destruct H as [[]|H]; exact H.
  - apply IH. simpl. destruct H as [[->|H]|H]; auto.
Qed.

Lemma stopAll_frame (l : list nat) (p : Player) :
  started (fold_left (@stopAndDelete time) l p) = started p /\
  created (fold_left (@stopAndDelete time) l p) = created p.
Proof.
  revert p. induction l as [|y l IH]; intros p; simpl; [auto|].
  destruct (IH (stopAndDelete p y)) as [A B]. rewrite A, B. auto.
Qed.

Lemma interrupt_spec (p : Player) :
  sources (interrupt p) = [] /\
  nextStartTime (interrupt p) = tzero /\
  (forall x, In x (sources p) -> In x (stopped (interrupt p))).
Proof.
  unfold LiveAudio.interrupt; simpl. split; [|split].
  - apply stopAll_sources. auto.
  - reflexivity.
  - intros x I. apply stopAll_stopped. auto.
Qed.

Lemma setAdd_In (x : nat) (s : list nat) : In x (setAdd x s).
Proof.
  unfold setAdd. destruct (existsb (Nat.eqb x) s) eqn:E.
  - apply existsb_exists in E. destruct E as (y & I & E).
    apply Nat.eqb_eq in E. subst. exact I.
  - apply in_or_app. right. left. reflexivity.
Qed.

Lemma setAdd_keeps (x y : nat) (s : list nat) :
  In y s -> In y (setAdd x s).
Proof.
  unfold setAdd. destruct (existsb (Nat.eqb x) s); [auto|].
  intros I. apply in_or_app. left. exact I.
Qed.

Lemma silent_step (p : Player) (e : Event time) :
  silent e = true -> nextStartTime (step p e) = nextStartTime p.
Proof.
  destruct e as [now m | source]; simpl; [|reflexivity].
  intros S. apply andb_true_iff in S. destruct S as [S1 S2].
  apply negb_true_iff in S1.
  unfold LiveAudio.onmessage, afterAudio. rewrite S1.
  unfold audio in S2.
  destruct (base64EncodedAudioString m) as [[[|c b]|]|]; try reflexivity.
  discriminate.
Qed.

Lemma silent_run (events : list (Event time)) (p : Player) :
  forallb (@silent time) events = true ->
  nextStartTime (run events p) = nextStartTime p.
Proof.
  revert p. induction events as [|e l IH]; intros p S; simpl in *.
  - reflexivity.
  - apply andb_true_iff in S. destruct S as [S1 S2].
    change (nextStartTime (run l (step p e)) = nextStartTime p).
    rewrite (IH _ S2). apply silent_step. exact S1.
Qed.

(** The start a message with a clip records, interrupted or not. *)
Lemma onmessage_clip_started (now : time) (m : LiveServerMessage)
    (p : Player) (frames : N) :
  clip m = Some frames ->
  started (fst (onmessage now m p)) =
    {| node := created p; when := tmax (nextStartTime p) now;
       lasting := duration frames |} :: started p.
Proof.
  intros C. destruct (clip_audio m _ C) as (c & b & bytes & A & D & F).
  unfold LiveAudio.onmessage, afterAudio.
  rewrite (audio_read m _ A); cbv beta iota zeta. rewrite D, F. cbn [fst].
  destruct (interrupted m); [|reflexivity].
  unfold LiveAudio.interrupt. cbn [started].
  apply stopAll_frame.
Qed.

(** C7. Without an interruption signal the clips are started in
    order: in the record of starts of any run from the initial
    player, each clip starts no earlier than the start of the clip
    before it plus that clip's duration.  A clip starts at the maximum
    of the next start time and the playback clock, and the next start
    time is then advanced by its duration: of two clips handled one
    after the other, where the second arrives no later than the first
    ends, the second starts exactly at the start of the first plus
    the first's duration. *)
Theorem playback_in_order :
  (forall a, tleb a a = true) ->
  (forall a b c, tleb a b = true -> tleb b c = true -> tleb a c = true) ->
  (forall a b, tleb a b = true -> tleb b a = true -> a = b) ->
  (forall events,
     forallb (@quiet time) events = true ->
     in_order (started (run events (initial tzero)))) /\
  (forall p now1 m1 frames1 now2 m2 frames2,
     clip m1 = Some frames1 -> interrupted m1 = false ->
     clip m2 = Some frames2 -> interrupted m2 = false ->
     let start1 := tmax (nextStartTime p) now1 in
     tleb now2 (tadd start1 (duration frames1)) = true ->
     let p2 := fst (onmessage now2 m2 (fst (onmessage now1 m1 p))) in
     started p2 =
       {| node := S (created p);
          when := tadd start1 (duration frames1);
          lasting := duration frames2 |}
       :: {| node := created p; when := start1;
             lasting := duration frames1 |}
       :: started p /\
     nextStartTime p2 =
       tadd (tadd start1 (duration frames1)) (duration frames2)).
Proof.
  intros R T A. split.
  - intros events Q.
    apply (run_scheduled R T events (initial tzero) Q).
    split; exact I.
  - intros p now1 m1 f1 now2 m2 f2 C1 I1 C2 I2 start1 L p2. subst p2.
    rewrite (onmessage_clip now1 m1 p _ C1 I1). cbn [fst].
    rewrite (onmessage_clip now2 m2 _ _ C2 I2). cbn [fst started nextStartTime created].
    fold start1.
    assert (E : tmax (tadd start1 (duration f1)) now2
                = tadd start1 (duration f1)).
    { unfold LiveAudio.tmax.
      destruct (tleb (tadd start1 (duration f1)) now2) eqn:E; [|reflexivity].
      apply A; assumption. }
    rewrite E. split; reflexivity.
Qed.

(** C8, as amended.  A message with the interruption signal that the
    handler reads to its end: its model turn, if it has one, has a parts
    array, and its audio text, if it has one, decodes to a clip.  The
    handler returns; it has stopped every source of the tracked set,
    emptied the set and reset the next start time to zero; after it, and
    after any events that carry neither a clip nor an interruption, the
    next clip starts at the playback clock read when it arrives. *)
Theorem interruption_resets (p : Player) (now : time)
    (m : LiveServerMessage) :
  interrupted m = true ->
  modelTurn m <> Some None ->
  (audio m = None \/ audio m = Some [] \/ clip m <> None) ->
  let p' := fst (onmessage now m p) in
  snd (onmessage now m p) = Returned /\
  sources p' = [] /\
  nextStartTime p' = tzero /\
  (forall x, In x (sources p) -> In x (stopped p')) /\
  (forall s, In s (started p') ->
     In s (started p) \/ In (node s) (stopped p')) /\
  (forall events now' m' frames,
     forallb (@silent time) events = true ->
     clip m' = Some frames ->
     tleb tzero now' = true ->
     started (fst (onmessage now' m' (run events p'))) =
       {| node := created (run events p'); when := now';
          lasting := duration frames |}
       :: started (run events p')).
Proof.
  intros I P W p'.
  assert (K : exists q,
             onmessage now m p = (interrupt q, Returned) /\
             (forall x, In x (sources p) -> In x (sources q)) /\
             (forall s, In s (started q) ->
                In s (started p) \/ In (node s) (sources q))).
  { unfold LiveAudio.onmessage, afterAudio. rewrite I.
    destruct W as [W | [W | W]].
    - unfold audio in W.
      destruct (base64EncodedAudioString m) as [data|] eqn:R.
      + subst data. exists p. auto.
      + exfalso. apply P. unfold base64EncodedAudioString in R.
        destruct (modelTurn m) as [[[|part parts]|]|];
          try discriminate R. reflexivity.
    - rewrite (audio_read m _ W). exists p. auto.
    - destruct (clip m) as [frames|] eqn:C; [|congruence].
      destruct (clip_audio m _ C) as (c & b & bytes & A & D & F).
      rewrite (audio_read m _ A); cbv beta iota zeta. rewrite D, F.
      eexists. split; [reflexivity|]. simpl. split.
      + intros x. apply setAdd_keeps.
      + intros s [<- | H]; [right; apply setAdd_In | left; exact H]. }
  destruct K as (q & E & Q1 & Q2). subst p'. rewrite E. cbn [fst snd].
  destruct (interrupt_spec q) as (S1 & S2 & S3).
  split; [reflexivity|]. split; [exact S1|]. split; [exact S2|].
  split; [intros x H; apply S3, Q1, H|]. split.
  - intros s H.
    assert (F : started (interrupt q) = started q).
    { unfold LiveAudio.interrupt. cbn [started]. apply stopAll_frame. }
    rewrite F in H. destruct (Q2 s H) as [H1 | H1]; [left; exact H1|].
    right. apply S3. exact H1.
  - intros events now' m' frames Sil C L.
    rewrite (onmessage_clip_started now' m' _ _ C).
    rewrite (silent_run events _ Sil), S2.
    unfold LiveAudio.tmax. rewrite L. reflexivity.
Qed.

End Clock.

End LiveAudioFacts.

(* ================================================================== *)
(** ** The patterns of the handler *)
(* ================================================================== *)

Module RegexFacts.

Import Regex App.

(** The patterns on ASCII text, with the flag [i]. *)
Local Abbreviation tests r s := (test asciiUpper r (lit s)).

Example image_request_verb :
  tests imageGenRegex "generate a sunset over the beach" = true.
Proof. vm_compute. reflexivity. Qed.

Example image_request_case : tests imageGenRegex "Show Me a temple" = true.
Proof. vm_compute. reflexivity. Qed.

(** [\b]: the verb inside a longer word does not count. *)
Example image_request_inside_word : tests imageGenRegex "regenerate" = false.
Proof. vm_compute. reflexivity. Qed.

Example meta_question : tests imageGenBlockRegex "how to generate an image" = true.
Proof. vm_compute. reflexivity. Qed.

Example meta_question_far :
  tests imageGenBlockRegex "explain todo generate" = false.
Proof. vm_compute. reflexivity. Qed.

Example not_meta_question :
  tests imageGenBlockRegex "generate a sunset over the beach" = false.
Proof. vm_compute. reflexivity. Qed.

(** Every image is cut out, the lazy quantifiers stopping at the first
    bracket that closes. *)
Example images_cut :
  removeAll (fun c => c) imageMarkdownRegex
    (lit "a ![x](y) b ![p](q)) c") = lit "a  b ) c".
Proof. vm_compute. reflexivity. Qed.

(** The search goes on after a match: what the cut brings together is
    not looked at again. *)
Example images_cut_once :
  removeAll (fun c => c) imageMarkdownRegex (lit "!![a](b)[c](d)")
  = lit "![c](d)".
Proof. vm_compute. reflexivity. Qed.

(** A text without an exclamation mark has no image to cut. *)
Lemma removeAll_plain (s : jsstring) :
  ~ In 33%N s -> removeAll (fun c => c) imageMarkdownRegex s = s.
Proof.
  unfold removeAll. generalize (@None N).
  induction s as [|c s IH]; intros prev H; [reflexivity|].
  cbn [cut].
  assert (E : N.eqb c 33 = false).
  { apply N.eqb_neq. intros ->. apply H. left. reflexivity. }
  assert (M : matcher (fun c => c) imageMarkdownRegex
                {| before := prev; rest := c :: s; captures := [] |} Some
              = None).
  { unfold imageMarkdownRegex, seqs. cbn [fold_right matcher rest].
    rewrite E. reflexivity. }
  rewrite M. f_equal. apply IH. intros I. apply H. right. exact I.
Qed.

End RegexFacts.

(* ================================================================== *)
(** ** The images of a reply *)
(* ================================================================== *)

Module ImageFacts.

Import Regex App.

Local Abbreviation matcher := (matcher (fun c => c)).
Local Abbreviation lazyDot := (Rep Dot 0 None false).
(* [.*?\)] and [.*?\]\(.*?\)], the pattern from its quantifiers on *)
Local Abbreviation closing := (Seq lazyDot (Seq (Char 41) Empty)).
Local Abbreviation linking :=
  (Seq lazyDot (Seq (Char 93) (Seq (Char 40) closing))).

Lemma rep_lazy_step (accept : N -> bool) (prev : option N) (s : jsstring)
    (k : option N -> jsstring -> option State) :
  rep accept false 0 None prev s k =
  match k prev s with
  | Some r => Some r
  | None =>
      match s with
      | [] => None
      | c :: s' =>
          if accept c then rep accept false 0 None (Some c) s' k else None
      end
  end.
Proof. destruct s; reflexivity. Qed.

(** A lazy quantifier finds a way on when there is one behind a piece
    that it can run over. *)
Lemma rep_lazy_complete (accept : N -> bool)
    (k : option N -> jsstring -> option State) (u s2 : jsstring) :
  forall prev,
    (forall c, In c u -> accept c = true) ->
    (forall p, k p s2 <> None) ->
    rep accept false 0 None prev (u ++ s2) k <> None.
Proof.
  induction u as [|c u IH]; intros prev A K; rewrite rep_lazy_step.
  - cbn [app]. destruct (k prev s2) eqn:E; [discriminate|].
    exfalso. exact (K prev E).
  - cbn [app]. destruct (k prev (c :: u ++ s2)); [discriminate|].
    rewrite (A c (or_introl eq_refl)). apply IH; [|exact K].
    intros x I. apply A. right. exact I.
Qed.

(** A lazy quantifier runs over the shortest piece behind which there is
    a way on. *)
Lemma rep_lazy_sound (accept : N -> bool)
    (k : option N -> jsstring -> option State) :
  (forall p p' s, k p s = k p' s) ->
  forall s prev y,
    rep accept false 0 None prev s k = Some y ->
    exists u s2,
      s = u ++ s2 /\
      (forall c, In c u -> accept c = true) /\
      k prev s2 = Some y /\
      (forall a b, u = a ++ b -> b <> [] -> k prev (b ++ s2) = None).
Proof.
  intros Hk. induction s as [|c s IH]; intros prev y H;
    rewrite rep_lazy_step in H.
  - destruct (k prev []) eqn:E; [|discriminate]. injection H as <-.
    exists [], []. split; [reflexivity|]. split; [intros c []|].
    split; [exact E|]. intros a b Eab Nb.
    destruct a; destruct b; try discriminate Eab. congruence.
  - destruct (k prev (c :: s)) eqn:E.
    + injection H as <-. exists [], (c :: s).
      split; [reflexivity|]. split; [intros x []|].
      split; [exact E|]. intros a b Eab Nb.
      destruct a; destruct b; try discriminate Eab. congruence.
    + destruct (accept c) eqn:Ac; [|discriminate].
      destruct (IH _ _ H) as (u & s2 & -> & Au & K & Mn).
      exists (c :: u), s2. split; [reflexivity|].
      split; [intros x [<-|I]; auto|].
      split; [rewrite (Hk prev (Some c)); exact K|].
      intros a b Eab Nb. destruct a as [|a0 a'].
      * cbn [app] in Eab. subst b. exact E.
      * injection Eab as <- Eab. rewrite (Hk prev (Some c)).
        apply (Mn a' b Eab Nb).
Qed.

Lemma oneLine_accepts (u : jsstring) :
  oneLine u <-> forall c, In c u -> accepts Dot c = true.
Proof.
  unfold oneLine, accepts. split; intros H c I.
  - rewrite (H c I). reflexivity.
  - apply negb_true_iff. apply (H c I).
Qed.

Lemma oneLine_app (u v : jsstring) :
  oneLine (u ++ v) <-> oneLine u /\ oneLine v.
Proof.
  unfold oneLine. split.
  - intros H. split; intros c I; apply H; apply in_or_app; auto.
  - intros [H1 H2] c I. apply in_app_or in I. destruct I; auto.
Qed.

(** The end of the pattern: the address and the bracket that closes. *)
Lemma closing_step (p : option N) (s : jsstring)
    (caps : list (nat * jsstring)) :
  matcher closing {| before := p; rest := s; captures := caps |} Some =
  rep (accepts Dot) false 0 None p s
    (fun _ s' =>
       match s' with
       | ch :: s'' =>
           if N.eqb ch 41
           then Some {| before := Some ch; rest := s''; captures := caps |}
           else None
       | [] => None
       end).
Proof. reflexivity. Qed.

Lemma closing_sound (p : option N) (s : jsstring)
    (caps : list (nat * jsstring)) (y : State) :
  matcher closing {| before := p; rest := s; captures := caps |} Some
    = Some y ->
  exists url,
    s = url ++ 41%N :: rest y /\ oneLine url /\ ~ In 41%N url.
Proof.
  rewrite closing_step. intros H.
  apply rep_lazy_sound in H; [|reflexivity].
  destruct H as (u & s2 & -> & A & K & Mn).
  destruct s2 as [|ch s2]; [discriminate|].
  destruct (N.eqb_spec ch 41) as [->|]; [|discriminate].
  injection K as <-. cbn [rest]. exists u.
  split; [reflexivity|]. split; [apply oneLine_accepts; exact A|].
  intros I. apply in_split in I. destruct I as (a & b & ->).
  specialize (Mn a (41%N :: b) eq_refl). cbn in Mn.
  assert (F : Some {| before := Some 41%N; rest := b ++ 41%N :: s2;
                      captures := caps |} = None)
    by (apply Mn; discriminate).
  discriminate F.
Qed.

Lemma closing_complete (p : option N) (url r : jsstring)
    (caps : list (nat * jsstring)) :
  oneLine url ->
  matcher closing {| before := p; rest := url ++ 41%N :: r;
                     captures := caps |} Some <> None.
Proof.
  intros L. rewrite closing_step.
  apply rep_lazy_complete; [apply oneLine_accepts; exact L|].
  intros _. cbn. discriminate.
Qed.

(** The pattern behind [![]: the alternative text, [](] and the end. *)
Lemma linking_step (p : option N) (s : jsstring)
    (caps : list (nat * jsstring)) :
  matcher linking {| before := p; rest := s; captures := caps |} Some =
  rep (accepts Dot) false 0 None p s
    (fun _ s' =>
       match s' with
       | c1 :: s1 =>
           if N.eqb c1 93 then
             match s1 with
             | c2 :: s2 =>
                 if N.eqb c2 40 then
                   matcher closing
                     {| before := Some c2; rest := s2; captures := caps |}
                     Some
                 else None
             | [] => None
             end
           else None
       | [] => None
       end).
Proof. reflexivity. Qed.

Lemma linking_complete (p : option N) (alt url r : jsstring)
    (caps : list (nat * jsstring)) :
  oneLine alt -> oneLine url ->
  matcher linking
    {| before := p; rest := alt ++ [93; 40]%N ++ url ++ 41%N :: r;
       captures := caps |} Some <> None.
Proof.
  intros La Lu. rewrite linking_step.
  apply rep_lazy_complete; [apply oneLine_accepts; exact La|].
  intros _. cbn [app]. cbn [N.eqb Pos.eqb].
  apply closing_complete. exact Lu.
Qed.

Lemma linking_sound (p : option N) (s : jsstring)
    (caps : list (nat * jsstring)) (y : State) :
  matcher linking {| before := p; rest := s; captures := caps |} Some
    = Some y ->
  exists alt url,
    s = alt ++ [93; 40]%N ++ url ++ 41%N :: rest y /\
    oneLine alt /\ oneLine url /\
    (forall a b, alt <> a ++ [93; 40]%N ++ b) /\
    ~ In 41%N url.
Proof.
  rewrite linking_step. intros H.
  apply rep_lazy_sound in H; [|reflexivity].
  destruct H as (u & s2 & -> & A & K & Mn).
  destruct s2 as [|c1 [|c2 s2]]; try discriminate.
  - destruct (N.eqb c1 93); discriminate.
  - destruct (N.eqb_spec c1 93) as [->|]; [|discriminate].
    destruct (N.eqb_spec c2 40) as [->|]; [|discriminate].
    apply closing_sound in K. destruct K as (url & -> & Lu & Nu).
    apply oneLine_accepts in A.
    exists u, url. split; [reflexivity|]. split; [exact A|].
    split; [exact Lu|]. split; [|exact Nu].
    intros a b ->.
    specialize (Mn a ([93; 40]%N ++ b) eq_refl).
    cbn [app N.eqb Pos.eqb] in Mn.
    apply oneLine_app in A. destruct A as [_ A].
    apply (oneLine_app [93; 40]%N b) in A. destruct A as [_ Lb].
    assert (L : oneLine (b ++ [93; 40]%N ++ url)).
    { apply oneLine_app. split; [exact Lb|]. apply oneLine_app.
      split; [|exact Lu].
      intros c [<-|[<-|[]]]; reflexivity. }
    apply (closing_complete (Some 40%N) (b ++ [93; 40]%N ++ url) (rest y)
             caps L).
    rewrite <- !app_assoc. cbn [app]. apply Mn. discriminate.
Qed.

Lemma image_step (p : option N) (s : jsstring) :
  matcher imageMarkdownRegex
    {| before := p; rest := s; captures := [] |} Some =
  match s with
  | c1 :: s1 =>
      if N.eqb c1 33 then
        match s1 with
        | c2 :: s2 =>
            if N.eqb c2 91 then
              matcher linking
                {| before := Some c2; rest := s2; captures := [] |} Some
            else None
        | [] => None
        end
      else None
  | [] => None
  end.
Proof. reflexivity. Qed.

(** What the pattern matches at the head of a text is an image, the one
    that ends soonest. *)
Lemma image_sound (p : option N) (s : jsstring) (y : State) :
  matcher imageMarkdownRegex
    {| before := p; rest := s; captures := [] |} Some = Some y ->
  exists m, s = m ++ rest y /\ tightImage m.
Proof.
  rewrite image_step. intros H.
  destruct s as [|c1 [|c2 s]]; try discriminate.
  - destruct (N.eqb c1 33); discriminate.
  - destruct (N.eqb_spec c1 33) as [->|]; [|discriminate].
    destruct (N.eqb_spec c2 91) as [->|]; [|discriminate].
    apply linking_sound in H.
    destruct H as (alt & url & -> & La & Lu & Na & Nu).
    exists (lit "![" ++ alt ++ lit "](" ++ url ++ lit ")").
    split.
    + change (lit "![") with [33; 91]%N.
      change (lit "](") with [93; 40]%N. change (lit ")") with [41]%N.
      cbn [app]. repeat (rewrite <- app_assoc; cbn [app]). reflexivity.
    + exists alt, url. auto.
Qed.

(** Where an image starts, the pattern matches. *)
Lemma image_complete (p : option N) (s : jsstring) :
  imageAt s ->
  matcher imageMarkdownRegex
    {| before := p; rest := s; captures := [] |} Some <> None.
Proof.
  intros (m & r & -> & alt & url & -> & La & Lu).
  rewrite image_step.
  change (lit "![") with [33; 91]%N.
  change (lit "](") with [93; 40]%N. change (lit ")") with [41]%N.
  cbn [app N.eqb Pos.eqb]. repeat (rewrite <- app_assoc; cbn [app]).
  apply (linking_complete (Some 91%N) alt url r [] La Lu).
Qed.

(** Once a match is found, the code units of it that remain are dropped
    and the scan goes on behind them. *)
Lemma cut_skip (r : regex) (m rest : jsstring) :
  forall prev, exists prev',
    cut (fun c => c) r (length m) prev (m ++ rest)
    = cut (fun c => c) r 0 prev' rest.
Proof.
  induction m as [|c m IH]; intros prev.
  - exists prev. reflexivity.
  - cbn [length app cut]. apply IH.
Qed.

Lemma tightImage_image (m : jsstring) : tightImage m -> image m.
Proof.
  intros (alt & url & E & La & Lu & _). exists alt, url. auto.
Qed.

Lemma image_cons (m : jsstring) :
  image m -> exists m', m = 33%N :: m'.
Proof. intros (alt & url & -> & _). eexists. reflexivity. Qed.

Lemma imageAt_head (m rest : jsstring) : image m -> imageAt (m ++ rest).
Proof. intros I. exists m, rest. auto. Qed.

Lemma imageFree_nil (rest : jsstring) : imageFree [] rest.
Proof.
  intros a b E Nb. destruct a; destruct b; try discriminate E. congruence.
Qed.

Lemma imageFree_cons (c : N) (pre rest : jsstring) :
  ~ imageAt (c :: pre ++ rest) -> imageFree pre rest ->
  imageFree (c :: pre) rest.
Proof.
  intros Ni F a b E Nb. destruct a as [|a0 a'].
  - cbn [app] in E. subst b. exact Ni.
  - injection E as _ E. apply (F a' b E Nb).
Qed.

Lemma stripped_cons (c : N) (s out : jsstring) :
  ~ imageAt (c :: s) -> stripped s out -> stripped (c :: s) (c :: out).
Proof.
  intros Ni S. destruct S as [s F | pre m rest out F T S].
  - apply stripped_none. apply imageFree_cons; [|exact F].
    rewrite app_nil_r. exact Ni.
  - apply (@stripped_cut (c :: pre) m rest out); [|exact T|exact S].
    apply imageFree_cons; assumption.
Qed.

(** The cleaning cuts out the images that one scan finds. *)
Lemma cut_stripped (n : nat) :
  forall s, length s <= n ->
  forall prev,
    stripped s (cut (fun c => c) imageMarkdownRegex 0 prev s).
Proof.
  induction n as [|n IH]; intros s L prev.
  - destruct s; [|cbn in L; lia]. apply stripped_none, imageFree_nil.
  - destruct s as [|c s]; [apply stripped_none, imageFree_nil|].
    cbn [cut].
    destruct (matcher imageMarkdownRegex
                {| before := prev; rest := c :: s; captures := [] |} Some)
      as [y|] eqn:M.
    + destruct (image_sound _ _ _ M) as (m & E & T).
      destruct (image_cons m (tightImage_image _ T)) as (m' & ->).
      cbn [app] in E. injection E as -> E.
      assert (Ln : length (33%N :: s) - length (rest y) = S (length m')).
      { rewrite E. cbn [length]. rewrite length_app. lia. }
      rewrite Ln.
      assert (Lr : length (rest y) <= n).
      { rewrite E in L. cbn [length] in L. rewrite length_app in L. lia. }
      rewrite E.
      destruct (cut_skip imageMarkdownRegex m' (rest y) (Some 33%N))
        as (prev' & ->).
      exact (@stripped_cut [] (33%N :: m') (rest y) _ (imageFree_nil _) T
               (IH (rest y) Lr prev')).
    + apply stripped_cons.
      * intros I. exact (image_complete prev (c :: s) I M).
      * apply IH. cbn [length] in L. lia.
Qed.

Lemma first_link (alt : jsstring) :
  forall alt' x x',
    (forall a b, alt <> a ++ [93; 40]%N ++ b) ->
    (forall a b, alt' <> a ++ [93; 40]%N ++ b) ->
    alt ++ [93; 40]%N ++ x = alt' ++ [93; 40]%N ++ x' ->
    alt = alt' /\ x = x'.
Proof.
  induction alt as [|c t IH]; intros alt' x x' Na Na' E.
  - destruct alt' as [|c' [|d' t']]; cbn [app] in E.
    + injection E as ->. auto.
    + discriminate E.
    + injection E as <- <- _. destruct (Na' [] t'). reflexivity.
  - destruct alt' as [|c' t']; cbn [app] in E.
    + destruct t as [|d t]; cbn [app] in E; [discriminate E|].
      injection E as -> -> _. destruct (Na [] t). reflexivity.
    + injection E as <- E.
      destruct (IH t' x x') as [-> ->]; [| |exact E|auto].
      * intros a b ->. apply (Na (c :: a) b). reflexivity.
      * intros a b ->. apply (Na' (c :: a) b). reflexivity.
Qed.

Lemma first_close (url : jsstring) :
  forall url' x x',
    ~ In 41%N url -> ~ In 41%N url' ->
    url ++ 41%N :: x = url' ++ 41%N :: x' ->
    url = url' /\ x = x'.
Proof.
  induction url as [|c t IH]; intros url' x x' Nu Nu' E.
  - destruct url' as [|c' t']; cbn [app] in E.
    + injection E as ->. auto.
    + injection E as <- _. destruct Nu'. left. reflexivity.
  - destruct url' as [|c' t']; cbn [app] in E.
    + injection E as -> _. destruct Nu. left. reflexivity.
    + injection E as <- E.
      destruct (IH t' x x') as [-> ->]; [| |exact E|auto].
      * intros I. apply Nu. right. exact I.
      * intros I. apply Nu'. right. exact I.
Qed.

(** At one place of a text, one image only ends soonest. *)
Lemma tightImage_unique (m m' r r' : jsstring) :
  tightImage m -> tightImage m' -> m ++ r = m' ++ r' ->
  m = m' /\ r = r'.
Proof.
  intros (alt & url & -> & _ & _ & Na & Nu)
         (alt' & url' & -> & _ & _ & Na' & Nu').
  change (lit "![") with [33; 91]%N.
  change (lit "](") with [93; 40]%N. change (lit ")") with [41]%N.
  intros E. cbn [app] in E. repeat (rewrite <- app_assoc in E; cbn [app] in E).
  injection E as E.
  apply (first_link alt alt' _ _ Na Na') in E. destruct E as [-> E].
  apply (first_close url url' _ _ Nu Nu') in E. destruct E as [-> ->].
  auto.
Qed.

(** The images that one scan finds are determined by the text: so is
    what remains of it. *)
Lemma stripped_functional (s out : jsstring) :
  stripped s out -> forall out', stripped s out' -> out = out'.
Proof.
  induction 1 as [s F | pre m rest out F T S IH]; intros out' S'.
  - inversion S' as [s' F' | pre' m' rest' o' F' T' S'' E]; [reflexivity|].
    subst. exfalso.
    assert (Nb : m' ++ rest' <> []).
    { destruct (image_cons m' (tightImage_image _ T')) as (x & ->).
      discriminate. }
    apply (F pre' (m' ++ rest') eq_refl Nb). rewrite app_nil_r.
    apply imageAt_head, tightImage_image, T'.
  - assert (Nm : forall x y, tightImage x -> x ++ y <> []).
    { intros x y Tx. destruct (image_cons x (tightImage_image _ Tx))
        as (z & ->). discriminate. }
    inversion S' as [s' F' E | pre' m' rest' o' F' T' S'' E].
    + subst. exfalso.
      apply (F' pre (m ++ rest) eq_refl (Nm m rest T)).
      rewrite app_nil_r. apply imageAt_head, tightImage_image, T.
    + subst. apply app_eq_app in E. destruct E as (d & [[E1 E2] | [E1 E2]]).
      * destruct d as [|x d].
        -- rewrite app_nil_r in E1. subst pre'. cbn [app] in E2.
           destruct (tightImage_unique m m' rest rest' T T' E2) as [-> ->].
           rewrite (IH o' S''). reflexivity.
        -- exfalso. apply (F' pre (x :: d) E1); [discriminate|].
           rewrite <- E2. apply imageAt_head, tightImage_image, T.
      * destruct d as [|x d].
        -- rewrite app_nil_r in E1. subst pre'. cbn [app] in E2.
           symmetry in E2.
           destruct (tightImage_unique m m' rest rest' T T' E2) as [-> ->].
           rewrite (IH o' S''). reflexivity.
        -- exfalso. apply (F pre' (x :: d) E1); [discriminate|].
           rewrite <- E2. apply imageAt_head, tightImage_image, T'.
Qed.

(** [replace] with the image pattern: what is left is the text without
    the images of one scan, and nothing else is. *)
Lemma removeAll_stripped (s : jsstring) :
  stripped s (removeAll (fun c => c) imageMarkdownRegex s) /\
  forall out, stripped s out ->
    out = removeAll (fun c => c) imageMarkdownRegex s.
Proof.
  assert (S : stripped s (removeAll (fun c => c) imageMarkdownRegex s))
    by (apply (cut_stripped (length s)); apply Nat.le_refl).
  split; [exact S|]. intros out So.
  apply (stripped_functional s out So _ S).
Qed.

End ImageFacts.

(* ================================================================== *)
(** ** The submission handler *)
(* ================================================================== *)

Module AppFacts.

Import Store StoreFacts App.

(** Case analysis on every test of a conditional in the goal. *)
Ltac case_branches :=
  repeat match goal with
  | |- context [if ?b then _ else _] => destruct b eqn:?
  end.

Lemma messagesOf_update (sid : jsstring)
    (f : list ChatMessage.t -> list ChatMessage.t) (st : AppState)
    (s : ChatSession.t) :
  findSession sid (sessions st) = Some s ->
  findSession sid (sessions (update sid f st)) =
    Some (ChatSession.with_messages s (f (ChatSession.messages s))) /\
  messagesOf sid (update sid f st) = f (messagesOf sid st).
Proof.
  intros H. unfold messagesOf, update, setSessions. cbn [sessions].
  rewrite (update_find sid (Updater f) _ _ H), H. split; reflexivity.
Qed.

Lemma findSession_id (sid : jsstring) (l : list ChatSession.t)
    (s : ChatSession.t) :
  findSession sid l = Some s -> ChatSession.id s = sid /\ In s l.
Proof.
  unfold findSession. intros H. apply find_some in H.
  destruct H as [I E]. apply str_eqb_eq in E. auto.
Qed.

Lemma findSession_map (sid : jsstring) (g : ChatSession.t -> ChatSession.t)
    (l : list ChatSession.t) (s : ChatSession.t) :
  (forall x, ChatSession.id (g x) = ChatSession.id x) ->
  findSession sid l = Some s ->
  findSession sid
    (map (fun x => if str_eqb (ChatSession.id x) sid then g x else x) l)
  = Some (g s).
Proof.
  intros G. unfold findSession.
  induction l as [|x l IH]; simpl; [discriminate|].
  destruct (str_eqb (ChatSession.id x) sid) eqn:E.
  - intros H. injection H as <-. rewrite G, E. reflexivity.
  - rewrite E. exact IH.
Qed.

(** The loading placeholders of a store after an update of one session
    by a function that adds none. *)
Lemma loading_update (sid : jsstring)
    (f : list ChatMessage.t -> list ChatMessage.t) (st : AppState) :
  (forall prev m, In m (f prev) ->
     ChatMessage.flag (ChatMessage.isLoading m) = true -> In m prev) ->
  incl (loading (update sid f st)) (loading st).
Proof.
  intros F m. unfold loading, update, setSessions, updateSessionMessages.
  cbn [sessions]. rewrite !in_flat_map.
  intros (s' & I & M). apply in_map_iff in I. destruct I as (s & <- & I).
  exists s. split; [exact I|].
  destruct (str_eqb (ChatSession.id s) sid); [|exact M].
  cbn [applied ChatSession.with_messages ChatSession.messages] in M.
  apply filter_In in M. destruct M as [M L].
  apply filter_In. split; [|exact L]. apply (F _ _ M L).
Qed.

Lemma loading_same_sessions (st st' : AppState) :
  sessions st' = sessions st -> loading st' = loading st.
Proof. unfold loading. intros ->. reflexivity. Qed.

Lemma dropWelcome_loading (fresh prev : list ChatMessage.t)
    (m : ChatMessage.t) :
  (forall x, In x fresh -> ChatMessage.isLoading x = None) ->
  In m (dropWelcome fresh prev) ->
  ChatMessage.flag (ChatMessage.isLoading m) = true -> In m prev.
Proof.
  intros F I L. unfold dropWelcome in I. apply in_app_or in I.
  destruct I as [I | I].
  - apply filter_In in I. tauto.
  - apply F in I. rewrite I in L. discriminate.
Qed.

Lemma replaceWelcome_loading (fresh prev : list ChatMessage.t)
    (m : ChatMessage.t) :
  (forall x, In x fresh -> ChatMessage.isLoading x = None) ->
  In m (replaceWelcome fresh prev) ->
  ChatMessage.flag (ChatMessage.isLoading m) = true -> In m prev.
Proof.
  intros F I L.
  assert (A : In m (prev ++ fresh) -> In m prev).
  { intros H. apply in_app_or in H. destruct H as [H | H]; [exact H|].
    apply F in H. rewrite H in L. discriminate. }
  unfold replaceWelcome in I.
  destruct prev as [|w [|w' prev]]; try (apply A; exact I).
  destruct (ChatMessage.flag (ChatMessage.isWelcome w));
    [|apply A; exact I].
  apply F in I. rewrite I in L. discriminate.
Qed.

Lemma loading_map (g : ChatSession.t -> ChatSession.t) (st : AppState) :
  (forall s, ChatSession.messages (g s) = ChatSession.messages s) ->
  loading (setSessions (map g) st) = loading st.
Proof.
  intros G. unfold loading, setSessions. cbn [sessions].
  induction (sessions st) as [|x l IH]; simpl; [reflexivity|].
  rewrite G, IH. reflexivity.
Qed.

Lemma loading_present (sid : jsstring)
    (f : list ChatMessage.t -> list ChatMessage.t) (st : AppState)
    (s : ChatSession.t) (m : ChatMessage.t) :
  findSession sid (sessions st) = Some s ->
  In m (f (ChatSession.messages s)) ->
  ChatMessage.flag (ChatMessage.isLoading m) = true ->
  In m (loading (update sid f st)).
Proof.
  intros F I L. unfold loading. apply in_flat_map.
  destruct (messagesOf_update sid f st s F) as [F' _].
  apply findSession_id in F'. destruct F' as [_ F'].
  eexists. split; [exact F'|]. cbn [ChatSession.messages ChatSession.with_messages].
  apply filter_In. split; assumption.
Qed.

Lemma replaceWelcome_fresh (fresh prev : list ChatMessage.t)
    (m : ChatMessage.t) :
  In m fresh -> In m (replaceWelcome fresh prev).
Proof.
  intros I. unfold replaceWelcome.
  destruct prev as [|w [|w' prev]]; try (apply in_or_app; right; exact I).
  destruct (ChatMessage.flag (ChatMessage.isWelcome w));
    [exact I | apply in_or_app; right; exact I].
Qed.

Lemma truthy_sid (o : option jsstring) (sid : jsstring) :
  o = Some sid -> truthy sid = true ->
  exists c sid', sid = c :: sid' /\ o = Some (c :: sid').
Proof.
  intros -> T. destruct sid as [|c sid']; [discriminate|].
  exists c, sid'. auto.
Qed.

Section Router.

Variable LANGUAGES : list Language.t.
Variable ART_STYLES : list jsstring.
Variable TRIP_PLAN_PROMPT : jsstring -> option jsstring.
Variable toLowerCase : jsstring -> jsstring.
Variable canonicalize : N -> N.

Local Abbreviation handleSendMessage :=
  (handleSendMessage LANGUAGES ART_STYLES TRIP_PLAN_PROMPT toLowerCase
     canonicalize).
Local Abbreviation router :=
  (router LANGUAGES ART_STYLES TRIP_PLAN_PROMPT toLowerCase canonicalize).
Local Abbreviation matches := (matches LANGUAGES ART_STYLES toLowerCase canonicalize).
Local Abbreviation firstMatch :=
  (firstMatch LANGUAGES ART_STYLES toLowerCase canonicalize).
Local Abbreviation action :=
  (action LANGUAGES ART_STYLES TRIP_PLAN_PROMPT toLowerCase canonicalize).
Local Abbreviation switchTarget :=
  (switchTarget LANGUAGES toLowerCase canonicalize).
Local Abbreviation afterStyleSelection :=
  (afterStyleSelection LANGUAGES ART_STYLES TRIP_PLAN_PROMPT toLowerCase
     canonicalize).

Local Abbreviation first_to_match :=
  (first_to_match LANGUAGES ART_STYLES toLowerCase canonicalize).

Lemma firstMatch_first (payload : Payload.t) (cur : ChatSession.t)
    (st : AppState) (rule : Rule) :
  firstMatch payload cur st = Some rule ->
  first_to_match rule payload cur st.
Proof.
  unfold App.firstMatch, priority, App.first_to_match.
  cbn [find].
  case_branches; intros H; try discriminate H; injection H as <-;
  (split; [assumption|]);
  cbn [rulesBefore priority rule_eqb]; intros r I;
  repeat (destruct I as [<- | I]; [assumption|]); destruct I.
Qed.

Lemma firstMatch_total (payload : Payload.t) (cur : ChatSession.t)
    (st : AppState) :
  exists rule, firstMatch payload cur st = Some rule.
Proof.
  unfold App.firstMatch, priority. cbn [find].
  change (matches DefaultChat payload cur st) with true.
  case_branches; eexists; reflexivity.
Qed.

Lemma find_cons (A : Type) (f : A -> bool) (a : A) (l : list A) :
  find f (a :: l) = if f a then Some a else find f l.
Proof. reflexivity. Qed.

(** From the image-editing test on, the handler runs the action of the
    first rule below style selection that matches. *)
Lemma afterStyleSelection_action (sid : jsstring) (payload : Payload.t)
    (cur : ChatSession.t) (clock : nat -> Z) (st : AppState) :
  tripPlanVariants toLowerCase LANGUAGES <> None ->
  afterStyleSelection sid payload cur clock (superseded st) =
  match find (fun rule => matches rule payload cur st)
             [ImageEdit; ImageIntent; TripPlan; DefaultChat] with
  | Some rule => action rule sid payload cur clock st
  | None => (st, None)
  end.
Proof.
  intros T. unfold App.afterStyleSelection, editTarget.
  cbn [find App.matches].
  destruct (Payload.files payload) as [|file [|file' files]] eqn:Fl;
    cbn [length Nat.eqb]; rewrite ?andb_true_r, ?andb_false_r.
  - destruct (Regex.test canonicalize imageGenRegex
                (trim (Payload.text payload))
              && negb (Regex.test canonicalize imageGenBlockRegex
                         (trim (Payload.text payload)))); [reflexivity|].
    destruct (tripPlanVariants toLowerCase LANGUAGES) as [variants|];
      [|congruence].
    destruct (arr_includes variants
                (trim (toLowerCase (Payload.text payload))));
      reflexivity.
  - destruct (isImage file && truthy (trim (Payload.text payload)));
      [cbn [App.action]; rewrite Fl; reflexivity|].
    destruct (tripPlanVariants toLowerCase LANGUAGES) as [variants|];
      [|congruence].
    rewrite ?andb_false_r. reflexivity.
  - destruct (tripPlanVariants toLowerCase LANGUAGES) as [variants|];
      [|congruence].
    rewrite ?andb_false_r. reflexivity.
Qed.

(** The handler is the router of the specification: on every submission
    it runs the action of the first rule that matches, and nothing on a
    submission it does not accept. *)
Lemma handleSendMessage_router (clock : nat -> Z) (payload : Payload.t)
    (st : AppState) :
  tripPlanVariants toLowerCase LANGUAGES <> None ->
  handleSendMessage clock payload st = router clock payload st.
Proof.
  intros T. unfold App.handleSendMessage, App.router, accepted.
  set (st1 := setIsBotSpeaking false st).
  destruct (truthy (trim (Payload.text payload))) eqn:E1;
    destruct (Nat.eqb (length (Payload.files payload)) 0) eqn:E2;
    destruct (activeSessionId st1) as [[|c sid]|] eqn:E3;
    cbn [negb andb orb truthy_opt truthy]; try reflexivity.
  all: destruct (findSession (c :: sid) (sessions st1)) as [cur|] eqn:F;
    [|reflexivity].
  all: unfold App.firstMatch, priority; do 2 rewrite find_cons;
    change (matches LanguageSwitch payload cur st1)
      with (match switchTarget (Payload.text payload) cur with
            | Some _ => true | None => false end);
    change (matches ArtStyleSelection payload cur st1)
      with (truthy_opt (pendingImagePrompt st1)
            && arr_includes ART_STYLES (Payload.text payload)).
  all: destruct (switchTarget (Payload.text payload) cur) as [target|] eqn:S;
    [cbn [App.action]; rewrite S; reflexivity|].
  all: destruct (pendingImagePrompt st1) as [[|d pending]|] eqn:P;
    cbn [truthy_opt truthy andb].
  all: try (destruct (arr_includes ART_STYLES (Payload.text payload));
            [cbn [App.action]; rewrite P; reflexivity|]).
  all: rewrite <- (afterStyleSelection_action (c :: sid) payload cur clock
                     st1 T);
    unfold superseded; rewrite P; reflexivity.
Qed.

Lemma accepted_inv (payload : Payload.t) (st : AppState) (sid : jsstring)
    (cur : ChatSession.t) :
  accepted payload st = Some (sid, cur) ->
  (truthy (trim (Payload.text payload)) = true \/ Payload.files payload <> [])
  /\ activeSessionId st = Some sid /\ truthy sid = true
  /\ findSession sid (sessions st) = Some cur.
Proof.
  unfold accepted.
  destruct (truthy (trim (Payload.text payload))
            || negb (Nat.eqb (length (Payload.files payload)) 0)) eqn:G;
    [|discriminate].
  destruct (activeSessionId st) as [[|c s]|]; try discriminate.
  destruct (findSession (c :: s) (sessions st)) as [x|] eqn:F;
    [|discriminate].
  intros H. injection H as <- <-.
  repeat split; auto.
  apply orb_true_iff in G. destruct G as [G | G]; [left; exact G|].
  right. intros E. rewrite E in G. discriminate.
Qed.

(** The language-change branch waits for no call and adds no loading
    placeholder. *)
Lemma switchLanguage_quiet (sid text : jsstring) (target : Language.t)
    (clock : nat -> Z) (st : AppState) :
  snd (switchLanguage sid text target clock st) = None /\
  incl (loading (fst (switchLanguage sid text target clock st)))
       (loading st).
Proof.
  unfold switchLanguage. cbn [fst snd]. split; [reflexivity|].
  eapply incl_tran.
  { apply loading_update. intros prev m I L.
    apply in_app_or in I. destruct I as [I | [<- | []]]; [exact I|].
    discriminate L. }
  rewrite loading_map.
  - apply loading_update. intros prev m I L.
    eapply dropWelcome_loading; [|exact I|exact L].
    intros x [<- | []]. reflexivity.
  - intros s. destruct (str_eqb (ChatSession.id s) sid); reflexivity.
Qed.

(** So does the image-request branch. *)
Lemma askArtStyle_quiet (sid text : jsstring) (clock : nat -> Z)
    (st : AppState) :
  snd (askArtStyle ART_STYLES sid text clock st) = None /\
  incl (loading (fst (askArtStyle ART_STYLES sid text clock st)))
       (loading st).
Proof.
  unfold askArtStyle. cbn [fst snd]. split; [reflexivity|].
  eapply incl_tran.
  { apply loading_update. intros prev m I L.
    eapply dropWelcome_loading; [|exact I|exact L].
    intros x [<- | [<- | []]]; reflexivity. }
  apply incl_refl.
Qed.

(** So does the trip-plan branch. *)
Lemma tripPlanReply_quiet (sid text : jsstring) (cur : ChatSession.t)
    (clock : nat -> Z) (st : AppState) :
  snd (tripPlanReply TRIP_PLAN_PROMPT sid text cur clock st) = None /\
  incl (loading (fst (tripPlanReply TRIP_PLAN_PROMPT sid text cur clock st)))
       (loading st).
Proof.
  unfold tripPlanReply. cbn [fst snd]. split; [reflexivity|].
  apply loading_update. intros prev m I L.
  eapply replaceWelcome_loading; [|exact I|exact L].
  intros x [<- | [<- | []]]; reflexivity.
Qed.

Lemma superseded_frame (st : AppState) :
  sessions (superseded st) = sessions st /\
  activeSessionId (superseded st) = activeSessionId st /\
  chatSessionRef (superseded st) = chatSessionRef st.
Proof.
  unfold superseded. destruct (truthy_opt (pendingImagePrompt st)); auto.
Qed.

Lemma handleImageGeneration_calls (prompt style sid : jsstring)
    (cur : ChatSession.t) (clock : nat -> Z) (st : AppState) :
  activeSessionId st = Some sid -> truthy sid = true ->
  findSession sid (sessions st) = Some cur ->
  exists settle,
    handleImageGeneration toLowerCase prompt style clock st =
      (update sid
         (fun prev => prev ++ [ChatMessage.make (clock 1%nat) style user;
                               placeholder (clock 0%nat + 1)]) st,
       Some (GenerateImage
               (lit "A " ++ toLowerCase style ++ lit " of: " ++ prompt)
               settle)) /\
    (forall outcome st',
       pendingImagePrompt (settle outcome st') = pendingImagePrompt st') /\
    In (placeholder (clock 0%nat + 1))
       (loading (fst (handleImageGeneration toLowerCase prompt style
                        clock st))).
Proof.
  intros A T F. destruct (truthy_sid _ _ A T) as (c & sid' & -> & A').
  unfold handleImageGeneration. rewrite A'.
  eexists. split; [reflexivity|]. split.
  - intros outcome st'. unfold settleImage.
    destruct (imageReply toLowerCase (clock 0%nat + 1)%Z
                (lit "Here is the image I generated for you:") outcome);
      reflexivity.
  - cbn [fst]. eapply loading_present; [exact F| |reflexivity].
    apply in_or_app. right. right. left. reflexivity.
Qed.

Lemma handleImageEdit_calls (text sid : jsstring) (file : UploadedFile.t)
    (cur : ChatSession.t) (clock : nat -> Z) (st : AppState) :
  activeSessionId st = Some sid -> truthy sid = true ->
  findSession sid (sessions st) = Some cur ->
  exists settle,
    snd (handleImageEdit toLowerCase text file clock st) =
      Some (EditImage file text settle) /\
    In (placeholder (clock 1%nat + 1))
       (loading (fst (handleImageEdit toLowerCase text file clock st))).
Proof.
  intros A T F. destruct (truthy_sid _ _ A T) as (c & sid' & -> & A').
  unfold handleImageEdit. rewrite A'. cbn [fst snd].
  eexists. split; [reflexivity|].
  eapply loading_present; [exact F| |reflexivity].
  apply replaceWelcome_fresh. right. left. reflexivity.
Qed.

Lemma replaceWelcome_In (fresh prev : list ChatMessage.t)
    (m : ChatMessage.t) :
  In m (replaceWelcome fresh prev) -> In m prev \/ In m fresh.
Proof.
  unfold replaceWelcome. intros I.
  destruct prev as [|w [|w' prev]]; try (apply in_app_or; exact I).
  destruct (ChatMessage.flag (ChatMessage.isWelcome w));
    [right; exact I | apply in_app_or; exact I].
Qed.

Lemma update_twice (sid : jsstring)
    (f g : list ChatMessage.t -> list ChatMessage.t) (st : AppState) :
  update sid g (update sid f st) = update sid (fun prev => g (f prev)) st.
Proof.
  unfold update, setSessions, updateSessionMessages.
  cbn [sessions activeSessionId isBotSpeaking userLocation
       pendingImagePrompt chatSessionRef userMessageCount].
  f_equal. rewrite map_map. apply map_ext. intros x.
  destruct (str_eqb (ChatSession.id x) sid) eqn:E.
  - cbn [ChatSession.with_messages ChatSession.id ChatSession.messages
         applied].
    rewrite E. reflexivity.
  - rewrite E. reflexivity.
Qed.

Lemma chatTurn_calls (sid : jsstring) (payload : Payload.t)
    (cur : ChatSession.t) (clock : nat -> Z) (st : AppState) :
  findSession sid (sessions st) = Some cur ->
  match chatSessionRef st with
  | Some chat =>
      (exists promptText imageParts reply,
         snd (chatTurn sid payload cur clock st) =
           Some (SendMessage chat promptText imageParts reply)) /\
      In (placeholder (clock 1%nat + 1))
         (loading (fst (chatTurn sid payload cur clock st)))
  | None =>
      snd (chatTurn sid payload cur clock st) = None /\
      incl (loading (fst (chatTurn sid payload cur clock st))) (loading st)
  end.
Proof.
  intros F. unfold chatTurn.
  set (first := Nat.eqb _ 0).
  set (st2 := if first then _ else _).
  assert (C : chatSessionRef st2 = chatSessionRef st)
    by (subst st2; destruct first; reflexivity).
  assert (L2 : loading st2 = loading st).
  { subst st2. destruct first; [|reflexivity].
    rewrite loading_map; [reflexivity|].
    intros x. destruct (str_eqb (ChatSession.id x) sid); reflexivity. }
  cbn [chatSessionRef update setSessions]. rewrite C.
  destruct (chatSessionRef st) as [chat|].
  - cbn [fst snd]. split; [do 3 eexists; reflexivity|].
    assert (F2 : exists cur', findSession sid (sessions st2) = Some cur').
    { subst st2. destruct first; [|eexists; exact F].
      eexists. cbn [sessions setSessions setUserMessageCount].
      apply (findSession_map sid
               (fun s => ChatSession.with_title s
                           (firstn 40 (Payload.text payload)))).
      - reflexivity.
      - exact F. }
    destruct F2 as (cur' & F2).
    eapply loading_present; [exact F2| |reflexivity].
    apply replaceWelcome_fresh. right. left. reflexivity.
  - cbn [fst snd]. split; [reflexivity|].
    unfold onStreamError. rewrite update_twice, <- L2.
    apply loading_update. intros prev m I Lm.
    unfold resolveMessage in I. apply in_map_iff in I.
    destruct I as (x & E & I).
    destruct (Z.eqb (ChatMessage.id x) (clock 1%nat + 1)) eqn:Ex.
    + subst m. discriminate Lm.
    + subst m. apply replaceWelcome_In in I.
      destruct I as [I | [<- | [<- | []]]]; [exact I | |].
      * discriminate Lm.
      * cbn [ChatMessage.id ChatMessage.with_isLoading ChatMessage.make]
          in Ex.
        rewrite Z.eqb_refl in Ex. discriminate Ex.
Qed.

Lemma accepted_none (payload : Payload.t) (st : AppState) :
  accepted payload st = None <->
  (truthy (trim (Payload.text payload)) = false /\ Payload.files payload = [])
  \/ (forall sid, activeSessionId st = Some sid -> truthy sid = true ->
        findSession sid (sessions st) = None).
Proof.
  unfold accepted.
  destruct (truthy (trim (Payload.text payload))) eqn:Tx;
    destruct (Payload.files payload) as [|file files] eqn:Fl;
    cbn [length Nat.eqb negb orb].
  2: { destruct (activeSessionId st) as [[|c sid]|] eqn:Act.
       - split; [|reflexivity]. intros _. right. intros sid E T.
         injection E as <-. discriminate T.
       - destruct (findSession (c :: sid) (sessions st)) eqn:F.
         + split; [discriminate|]. intros [[E _] | N]; [discriminate|].
           rewrite (N _ eq_refl eq_refl) in F. discriminate.
         + split; [|reflexivity]. intros _. right. intros sid' E _.
           injection E as <-. exact F.
       - split; [|reflexivity]. intros _. right. discriminate. }
  3: { destruct (activeSessionId st) as [[|c sid]|] eqn:Act.
       - split; [|reflexivity]. intros _. right. intros sid E T.
         injection E as <-. discriminate T.
       - destruct (findSession (c :: sid) (sessions st)) eqn:F.
         + split; [discriminate|]. intros [[_ E] | N]; [discriminate|].
           rewrite (N _ eq_refl eq_refl) in F. discriminate.
         + split; [|reflexivity]. intros _. right. intros sid' E _.
           injection E as <-. exact F.
       - split; [|reflexivity]. intros _. right. discriminate. }
  - destruct (activeSessionId st) as [[|c sid]|] eqn:Act.
    + split; [|reflexivity]. intros _. right. intros sid E T.
      injection E as <-. discriminate T.
    + destruct (findSession (c :: sid) (sessions st)) eqn:F.
      * split; [discriminate|]. intros [[E _] | N]; [discriminate|].
        rewrite (N _ eq_refl eq_refl) in F. discriminate.
      * split; [|reflexivity]. intros _. right. intros sid' E _.
        injection E as <-. exact F.
    + split; [|reflexivity]. intros _. right. discriminate.
  - split; [|reflexivity]. intros _. left. split; reflexivity.
Qed.

(** C1, as amended.  On a submission that it drops (blank text and no
    file, or no active session in the store) the handler does nothing.
    On every other submission it runs the action of one rule: the first,
    in the order language switch, style selection, image edit, image
    request, trip plan, chat, that matches; no rule before it matches.
    Language switch, image request and trip plan wait for no backend
    call and add no loading placeholder; style selection and image edit
    add a loading placeholder and wait for the image call; chat adds one
    and waits for the chat call when the chat handle exists, and does
    neither when it does not.  The trip-plan labels are read for every
    language of [LANGUAGES]: each is taken to have one. *)
Theorem handleSendMessage_one_rule (clock : nat -> Z) (payload : Payload.t)
    (st : AppState) :
  tripPlanVariants toLowerCase LANGUAGES <> None ->
  let st1 := setIsBotSpeaking false st in
  let dropped :=
    (truthy (trim (Payload.text payload)) = false
     /\ Payload.files payload = [])
    \/ (forall sid, activeSessionId st = Some sid -> truthy sid = true ->
          findSession sid (sessions st) = None) in
  (accepted payload st1 = None <-> dropped) /\
  match accepted payload st1 with
  | None => handleSendMessage clock payload st = (st1, None)
  | Some (sid, cur) =>
      exists rule,
        first_to_match rule payload cur st1 /\
        handleSendMessage clock payload st =
          action rule sid payload cur clock st1 /\
        footprint rule payload clock st (handleSendMessage clock payload st)
  end.
Proof.
  intros T st1 dropped. split; [apply (accepted_none payload st1)|].
  destruct (accepted payload st1) as [[sid cur]|] eqn:A.
  - destruct (firstMatch_total payload cur st1) as (rule & M).
    exists rule. split; [apply firstMatch_first; exact M|].
    assert (E : handleSendMessage clock payload st =
                action rule sid payload cur clock st1).
    { rewrite (handleSendMessage_router clock payload st T).
      unfold App.router. fold st1. rewrite A, M. reflexivity. }
    split; [exact E|]. rewrite E.
    change (footprint rule payload clock st1
              (action rule sid payload cur clock st1)).
    destruct (accepted_inv payload st1 sid cur A) as (G & Act & Tr & F).
    destruct (superseded_frame st1) as (S1 & S2 & S3).
    pose proof (firstMatch_first payload cur st1 _ M) as [Mt _].
    destruct rule; cbn [App.footprint App.action].
    + cbn [App.matches] in Mt.
      destruct (switchTarget (Payload.text payload) cur) as [target|];
        [|discriminate].
      apply switchLanguage_quiet.
    + cbn [App.matches] in Mt. apply andb_true_iff in Mt.
      destruct Mt as [Mp _].
      unfold selectArtStyle.
      destruct (handleImageGeneration_calls
                  (tpl (pendingImagePrompt st1)) (Payload.text payload) sid
                  cur clock st1 Act Tr F) as (settle & H & _ & P).
      rewrite H in *. cbn [fst snd] in *. split; [eauto|].
      erewrite loading_same_sessions; [exact P | reflexivity].
    + cbn [App.matches] in Mt.
      destruct (Payload.files payload) as [|file files]; [discriminate|].
      rewrite <- S2 in Act. rewrite <- S1 in F.
      destruct (handleImageEdit_calls (Payload.text payload) sid file cur
                  clock (superseded st1) Act Tr F) as (settle & H & P).
      split; [eauto | exact P].
    + destruct (askArtStyle_quiet sid (Payload.text payload) clock
                  (superseded st1)) as [Q1 Q2].
      split; [exact Q1|].
      eapply incl_tran; [exact Q2|].
      rewrite (loading_same_sessions _ _ S1). apply incl_refl.
    + destruct (tripPlanReply_quiet sid (Payload.text payload) cur clock
                  (superseded st1)) as [Q1 Q2].
      split; [exact Q1|].
      eapply incl_tran; [exact Q2|].
      rewrite (loading_same_sessions _ _ S1). apply incl_refl.
    + rewrite <- S1 in F.
      pose proof (chatTurn_calls sid payload cur clock (superseded st1) F)
        as C.
      rewrite S3, (loading_same_sessions _ _ S1) in C. exact C.
  - rewrite (handleSendMessage_router clock payload st T).
    unfold App.router. fold st1. rewrite A. reflexivity.
Qed.

(** The handler on a submission it accepts: the tests from the
    language change on. *)
Lemma handleSendMessage_accepted (clock : nat -> Z) (payload : Payload.t)
    (st : AppState) (sid : jsstring) (cur : ChatSession.t) :
  accepted payload (setIsBotSpeaking false st) = Some (sid, cur) ->
  handleSendMessage clock payload st =
  let st1 := setIsBotSpeaking false st in
  match switchTarget (Payload.text payload) cur with
  | Some target => switchLanguage sid (Payload.text payload) target clock st1
  | None =>
      match pendingImagePrompt st1 with
      | Some ((_ :: _) as pending) =>
          if arr_includes ART_STYLES (Payload.text payload)
          then selectArtStyle toLowerCase pending (Payload.text payload)
                 clock st1
          else afterStyleSelection sid payload cur clock
                 (setPendingImagePrompt None st1)
      | _ => afterStyleSelection sid payload cur clock st1
      end
  end.
Proof.
  intros A. unfold App.handleSendMessage.
  set (st1 := setIsBotSpeaking false st) in *. cbv zeta.
  destruct (accepted_inv payload st1 sid cur A) as (G & Act & Tr & F).
  rewrite Act, F. cbn [truthy_opt]. rewrite Tr. cbn [negb orb].
  rewrite orb_false_r.
  destruct G as [G | G].
  - rewrite G. reflexivity.
  - destruct (Payload.files payload); [congruence|].
    cbn [length Nat.eqb]. rewrite andb_false_r. reflexivity.
Qed.




Local Abbreviation styleQuestion := (styleQuestion ART_STYLES).

(** The chat turn leaves the pending prompt as it finds it. *)
Lemma chatTurn_pending (sid : jsstring) (payload : Payload.t)
    (cur : ChatSession.t) (clock : nat -> Z) (st : AppState) :
  pendingImagePrompt (fst (chatTurn sid payload cur clock st))
  = pendingImagePrompt st.
Proof.
  unfold chatTurn.
  repeat match goal with
  | |- context [if ?b then _ else _] => destruct b
  | |- context [match chatSessionRef ?x with _ => _ end] =>
      destruct (chatSessionRef x)
  end; reflexivity.
Qed.

(** The pending prompt after the tests that follow style selection: the
    text of an image request, and otherwise what it was. *)
Lemma afterStyleSelection_pending (sid : jsstring) (payload : Payload.t)
    (cur : ChatSession.t) (clock : nat -> Z) (st st1 : AppState) :
  pendingImagePrompt
    (fst (afterStyleSelection sid payload cur clock st)) =
  if matches ImageIntent payload cur st1 && negb (matches ImageEdit payload cur st1)
  then Some (Payload.text payload)
  else pendingImagePrompt st.
Proof.
  unfold App.afterStyleSelection, editTarget.
  cbn [App.matches].
  destruct (Payload.files payload) as [|file [|file' files]];
    cbn [length Nat.eqb]; rewrite ?andb_true_r, ?andb_false_r; cbn [negb andb].
  - rewrite ?andb_true_r.
    destruct (Regex.test canonicalize imageGenRegex
                (trim (Payload.text payload))
              && negb (Regex.test canonicalize imageGenBlockRegex
                         (trim (Payload.text payload)))); [reflexivity|].
    destruct (tripPlanVariants toLowerCase LANGUAGES) as [variants|];
      [|reflexivity].
    destruct (arr_includes variants
                (trim (toLowerCase (Payload.text payload))));
      [reflexivity|].
    apply chatTurn_pending.
  - destruct (isImage file && truthy (trim (Payload.text payload))).
    + unfold handleImageEdit.
      destruct (activeSessionId st) as [[|c a]|]; reflexivity.
    + destruct (tripPlanVariants toLowerCase LANGUAGES) as [variants|];
        [|reflexivity].
      rewrite ?andb_false_r. apply chatTurn_pending.
  - destruct (tripPlanVariants toLowerCase LANGUAGES) as [variants|];
      [|reflexivity].
    rewrite ?andb_false_r. apply chatTurn_pending.
Qed.

(** C5.  A submission without files whose text matches the image-request
    pattern and not the exclusion pattern, while no rule of higher
    priority matches (language switch, style selection and image edit
    come before the image request): the pending image prompt becomes the
    text; the user message and a bot message are appended to the session,
    the welcome message dropped; the bot message asks for the style and
    carries one suggestion for each entry of [ART_STYLES], in the order
    of the list, with the style as its text; and the handler waits for
    no backend call. *)
Theorem image_request (clock : nat -> Z) (payload : Payload.t)
    (st : AppState) (sid : jsstring) (cur : ChatSession.t) :
  accepted payload (setIsBotSpeaking false st) = Some (sid, cur) ->
  Payload.files payload = [] ->
  Regex.test canonicalize imageGenRegex (trim (Payload.text payload))
    = true ->
  Regex.test canonicalize imageGenBlockRegex (trim (Payload.text payload))
    = false ->
  (forall rule, In rule (rulesBefore ImageIntent priority) ->
     matches rule payload cur (setIsBotSpeaking false st) = false) ->
  let artStyleSuggestions :=
    map (fun style =>
           {| Suggestion.text := style; Suggestion.icon := PaletteIcon;
              Suggestion.prompt := None |})
        ART_STYLES in
  let userMessage :=
    {| ChatMessage.id := clock 0%nat;
       ChatMessage.text := Payload.text payload;
       ChatMessage.sender := user;
       ChatMessage.suggestions := None;
       ChatMessage.images := None;
       ChatMessage.sources := None;
       ChatMessage.isLoading := None;
       ChatMessage.files := None;
       ChatMessage.isWelcome := None;
       ChatMessage.isSystem := None;
       ChatMessage.videoState := None;
       ChatMessage.videoUrl := None |} in
  let botMessage :=
    {| ChatMessage.id := clock 1%nat + 1;
       ChatMessage.text :=
         lit "Sounds creative! Which art style would you like?";
       ChatMessage.sender := bot;
       ChatMessage.suggestions := Some artStyleSuggestions;
       ChatMessage.images := None;
       ChatMessage.sources := None;
       ChatMessage.isLoading := None;
       ChatMessage.files := None;
       ChatMessage.isWelcome := None;
       ChatMessage.isSystem := None;
       ChatMessage.videoState := None;
       ChatMessage.videoUrl := None |} in
  let r := handleSendMessage clock payload st in
  snd r = None /\
  pendingImagePrompt (fst r) = Some (Payload.text payload) /\
  findSession sid (sessions (fst r)) =
    Some (ChatSession.with_messages cur
            (filter (fun m =>
                       negb (ChatMessage.flag (ChatMessage.isWelcome m)))
                    (ChatSession.messages cur)
             ++ [userMessage; botMessage])) /\
  map Suggestion.text artStyleSuggestions = ART_STYLES.
Proof.
  intros A Fl G B Hi artStyleSuggestions userMessage botMessage r.
  assert (ML : matches LanguageSwitch payload cur (setIsBotSpeaking false st)
               = false) by (apply Hi; cbn; auto).
  assert (MS : matches ArtStyleSelection payload cur
                 (setIsBotSpeaking false st) = false)
    by (apply Hi; cbn; auto).
  assert (Names : map Suggestion.text artStyleSuggestions = ART_STYLES).
  { subst artStyleSuggestions. rewrite map_map. cbn [Suggestion.text].
    apply map_id. }
  assert (Goal1 :
            snd r = None /\
            pendingImagePrompt (fst r) = Some (Payload.text payload) /\
            findSession sid (sessions (fst r)) =
              Some (ChatSession.with_messages cur
                      (dropWelcome [userMessage; botMessage]
                         (ChatSession.messages cur)))).
  { subst r.
    rewrite (handleSendMessage_accepted clock payload st sid cur A).
    cbv zeta.
    set (st1 := setIsBotSpeaking false st) in *.
    destruct (accepted_inv payload st1 sid cur A) as (_ & _ & _ & F).
    cbn [App.matches] in ML, MS.
    destruct (switchTarget (Payload.text payload) cur); [discriminate|].
    assert (E : forall st2,
              sessions st2 = sessions st1 ->
              afterStyleSelection sid payload cur clock st2 =
              askArtStyle ART_STYLES sid (Payload.text payload) clock st2).
    { intros st2 _. unfold App.afterStyleSelection, editTarget.
      rewrite Fl, G, B. reflexivity. }
    assert (K : forall st2,
              sessions st2 = sessions st1 ->
              let r := askArtStyle ART_STYLES sid (Payload.text payload)
                         clock st2 in
              snd r = None /\
              pendingImagePrompt (fst r) = Some (Payload.text payload) /\
              findSession sid (sessions (fst r)) =
                Some (ChatSession.with_messages cur
                        (dropWelcome [userMessage; botMessage]
                           (ChatSession.messages cur)))).
    { intros st2 S2. unfold askArtStyle. cbn [fst snd].
      split; [reflexivity|]. split; [reflexivity|].
      match goal with
      | |- findSession sid (sessions (update sid ?f ?st3)) = _ =>
          assert (F3 : findSession sid (sessions st3) = Some cur)
            by (cbn [sessions setPendingImagePrompt]; rewrite S2; exact F);
          destruct (messagesOf_update sid f st3 cur F3) as [F4 _]
      end.
      exact F4. }
    destruct (pendingImagePrompt st1) as [[|c pending]|] eqn:P;
      cbn [truthy_opt truthy andb] in MS.
    - rewrite E by reflexivity. apply K. reflexivity.
    - rewrite MS. rewrite E by reflexivity. apply K. reflexivity.
    - rewrite E by reflexivity. apply K. reflexivity. }
  destruct Goal1 as (G1 & G2 & G3).
  split; [exact G1|]. split; [exact G2|]. split; [exact G3 | exact Names].
Qed.

(** C6, as amended.  While an image prompt is pending, on a submission
    the handler accepts: if the language switch does not fire and the
    text is one of the art styles, image generation is started with the
    pending prompt and the text as the style, and the pending prompt is
    cleared; what runs when the generation call settles, fulfilled or
    rejected, does not touch the pending prompt; if the language
    switch does not fire and the text is no art style, the pending
    prompt is dropped, the text taking its place when the submission is
    an image request; if the language switch fires, the pending prompt
    stays. *)
Theorem pending_prompt (clock : nat -> Z) (payload : Payload.t)
    (st : AppState) (sid : jsstring) (cur : ChatSession.t)
    (pending : jsstring) :
  accepted payload (setIsBotSpeaking false st) = Some (sid, cur) ->
  pendingImagePrompt st = Some pending ->
  truthy pending = true ->
  let st1 := setIsBotSpeaking false st in
  let r := handleSendMessage clock payload st in
  (switchTarget (Payload.text payload) cur = None ->
   In (Payload.text payload) ART_STYLES ->
   exists settle,
     r = (setPendingImagePrompt None
            (fst (handleImageGeneration toLowerCase pending
                    (Payload.text payload) clock st1)),
          Some (GenerateImage
                  (lit "A " ++ toLowerCase (Payload.text payload)
                   ++ lit " of: " ++ pending)
                  settle)) /\
     pendingImagePrompt (fst r) = None /\
     forall outcome st',
       pendingImagePrompt (settle outcome st') = pendingImagePrompt st') /\
  (switchTarget (Payload.text payload) cur = None ->
   ~ In (Payload.text payload) ART_STYLES ->
   pendingImagePrompt (fst r) =
     if matches ImageIntent payload cur st1
        && negb (matches ImageEdit payload cur st1)
     then Some (Payload.text payload) else None) /\
  (forall target,
     switchTarget (Payload.text payload) cur = Some target ->
     pendingImagePrompt (fst r) = Some pending).
Proof.
  intros A P T st1 r. subst r.
  rewrite (handleSendMessage_accepted clock payload st sid cur A). cbv zeta.
  fold st1.
  destruct (accepted_inv payload st1 sid cur A) as (_ & Act & Tr & F).
  change (pendingImagePrompt st1) with (pendingImagePrompt st).
  rewrite P. destruct pending as [|c pending]; [discriminate|].
  split; [|split].
  - intros S I. rewrite S.
    apply arr_includes_In in I. rewrite I.
    destruct (handleImageGeneration_calls (c :: pending)
                (Payload.text payload) sid cur clock st1 Act Tr F)
      as (settle & H & K & _).
    exists settle. unfold selectArtStyle. rewrite H. cbn [fst snd].
    split; [reflexivity|]. split; [reflexivity|]. exact K.
  - intros S I. rewrite S.
    destruct (arr_includes ART_STYLES (Payload.text payload)) eqn:E.
    { apply arr_includes_In in E. contradiction. }
    rewrite (afterStyleSelection_pending sid payload cur clock _ st1).
    reflexivity.
  - intros target S. rewrite S. unfold switchLanguage. cbn [fst].
    exact P.
Qed.

End Router.

(* ------------------------------------------------------------------ *)
(** *** The streamed reply *)
(* ------------------------------------------------------------------ *)

Lemma key_eqb_eq (a b : option jsstring) : key_eqb a b = true <-> a = b.
Proof.
  destruct a as [x|], b as [y|]; simpl;
    try (split; [discriminate | discriminate]);
    try (split; reflexivity).
  rewrite str_eqb_eq. split; [intros ->; reflexivity | congruence].
Qed.

Lemma key_eqb_refl (a : option jsstring) : key_eqb a a = true.
Proof. apply key_eqb_eq. reflexivity. Qed.

Lemma mapSet_In (k : option jsstring) (v : Source.t)
    (m : list (option jsstring * Source.t)) (k' : option jsstring)
    (v' : Source.t) :
  NoDup (map fst m) ->
  (In (k', v') (mapSet k v m) <->
   (k' = k /\ v' = v) \/ (k' <> k /\ In (k', v') m)).
Proof.
  induction m as [|[k0 v0] m IH]; intros ND; simpl.
  - split.
    + intros [E | []]. injection E as <- <-. auto.
    + intros [[-> ->] | [_ []]]. auto.
  - inversion ND as [|? ? NI ND']; subst.
    destruct (key_eqb k k0) eqn:E.
    + apply key_eqb_eq in E. subst k0. simpl. split.
      * intros [H | H]; [injection H as <- <-; auto|].
        right. split; [|auto]. intros ->. apply NI.
        apply in_map_iff. exists (k, v'). auto.
      * intros [[-> ->] | [Nk [H | H]]]; auto.
        injection H as <- <-. contradiction.
    + assert (Nk : k <> k0) by (intros ->; rewrite key_eqb_refl in E; discriminate).
      simpl. rewrite (IH ND'). split.
      * intros [H | [H | [H1 H2]]]; auto.
        injection H as <- <-. auto.
      * intros [H | [H1 [H2 | H2]]]; auto.
  Qed.

Lemma mapSet_keys (k : option jsstring) (v : Source.t)
    (m : list (option jsstring * Source.t)) :
  NoDup (map fst m) -> NoDup (map fst (mapSet k v m)).
Proof.
  induction m as [|[k0 v0] m IH]; intros ND; simpl.
  - constructor; [intros [] | constructor].
  - inversion ND as [|? ? NI ND']; subst.
    destruct (key_eqb k k0) eqn:E.
    + apply key_eqb_eq in E. subst k0. simpl. constructor; assumption.
    + simpl. constructor; [|apply IH; exact ND'].
      intros I. apply in_map_iff in I. destruct I as ([k1 v1] & E1 & I).
      simpl in E1. subst k1.
      apply (mapSet_In k v m k0 v1 ND') in I.
      destruct I as [[-> _] | [_ I]].
      * rewrite key_eqb_refl in E. discriminate.
      * apply NI. apply in_map_iff. exists (k0, v1). auto.
Qed.

(** The map built from the citations: its keys are distinct, and a key
    is bound to the last citation of the list that has it. *)
Lemma sources_map (l : list Source.t) :
  let m := fold_left (fun m s => mapSet (Source.uri s) s m) l [] in
  NoDup (map fst m) /\
  forall k v,
    In (k, v) m <->
    find (fun x => key_eqb (Source.uri x) k) (rev l) = Some v.
Proof.
  induction l as [|s l IH] using rev_ind; cbv zeta.
  - simpl. split; [constructor|]. intros k v. split; [intros [] | discriminate].
  - rewrite fold_left_app. cbn [fold_left].
    destruct IH as [ND IH]. split; [apply mapSet_keys; exact ND|].
    intros k v. rewrite (mapSet_In _ _ _ k v ND).
    rewrite rev_app_distr. cbn [rev app find].
    destruct (key_eqb (Source.uri s) k) eqn:E.
    + apply key_eqb_eq in E. split.
      * intros [[_ ->] | [N _]]; [reflexivity | congruence].
      * intros H. injection H as <-. left. auto.
    + assert (N : k <> Source.uri s).
      { intros ->. rewrite key_eqb_refl in E. discriminate. }
      rewrite <- IH. split.
      * intros [[H _] | [_ H]]; [contradiction | exact H].
      * intros H. right. auto.
Qed.

Lemma uniqueSources_spec (l : list Source.t) :
  NoDup (map Source.uri (uniqueSources l)) /\
  (forall s, In s (uniqueSources l) ->
     find (fun x => key_eqb (Source.uri x) (Source.uri s)) (rev l)
       = Some s) /\
  (forall s, In s l ->
     exists s', In s' (uniqueSources l) /\ Source.uri s' = Source.uri s).
Proof.
  unfold uniqueSources.
  destruct (sources_map l) as [ND M].
  set (m := fold_left (fun m s => mapSet (Source.uri s) s m) l []) in *.
  assert (K : forall k v, In (k, v) m -> Source.uri v = k).
  { intros k v I. apply M in I. apply find_some in I.
    destruct I as [_ E]. apply key_eqb_eq in E. exact E. }
  assert (E : map Source.uri (map snd m) = map fst m).
  { rewrite map_map. apply map_ext_in. intros [k v] I. simpl.
    apply K. exact I. }
  split; [rewrite E; exact ND|]. split.
  - intros s I. apply in_map_iff in I. destruct I as ([k v] & <- & I).
    simpl. rewrite (K _ _ I). apply M. exact I.
  - intros s I.
    destruct (find (fun x => key_eqb (Source.uri x) (Source.uri s)) (rev l))
      as [v|] eqn:Fd.
    + exists v. split.
      * apply in_map_iff. exists (Source.uri s, v). split; [reflexivity|].
        apply M. exact Fd.
      * apply find_some in Fd. destruct Fd as [_ Fd].
        apply key_eqb_eq in Fd. exact Fd.
    + exfalso.
      assert (I' : In s (rev l)) by (apply in_rev; rewrite rev_involutive; exact I).
      pose proof (find_none _ _ Fd s I') as Fn. cbv beta in Fn.
      rewrite key_eqb_refl in Fn. discriminate.
Qed.

Lemma messagesOf_update_map (sid : jsstring)
    (f : list ChatMessage.t -> list ChatMessage.t) (st : AppState) :
  f [] = [] ->
  messagesOf sid (update sid f st) = f (messagesOf sid st).
Proof.
  intros E. unfold messagesOf, update, setSessions, updateSessionMessages,
    findSession. cbn [sessions].
  induction (sessions st) as [|x l IH]; simpl; [symmetry; exact E|].
  destruct (str_eqb (ChatSession.id x) sid) eqn:Ex; simpl; rewrite Ex.
  - reflexivity.
  - exact IH.
Qed.

Lemma resolveMessage_In (bid : Z) (g : ChatMessage.t -> ChatMessage.t)
    (prev : list ChatMessage.t) (m : ChatMessage.t) :
  In m (resolveMessage bid g prev) -> ChatMessage.id m = bid ->
  exists x, In x prev /\ ChatMessage.id x = bid /\ m = g x.
Proof.
  intros I E. unfold resolveMessage in I. apply in_map_iff in I.
  destruct I as (x & H & I). exists x.
  destruct (Z.eqb (ChatMessage.id x) bid) eqn:Ex.
  - apply Z.eqb_eq in Ex. auto.
  - apply Z.eqb_neq in Ex. subst m. contradiction.
Qed.

Lemma resolveMessage_hit (bid : Z) (g : ChatMessage.t -> ChatMessage.t)
    (prev : list ChatMessage.t) (x : ChatMessage.t) :
  In x prev -> ChatMessage.id x = bid -> In (g x) (resolveMessage bid g prev).
Proof.
  intros I E. unfold resolveMessage. apply in_map_iff. exists x.
  apply Z.eqb_eq in E. rewrite E. auto.
Qed.

Lemma resolveMessage_frame (A : Type) (proj : ChatMessage.t -> A) (bid : Z)
    (g : ChatMessage.t -> ChatMessage.t) (prev : list ChatMessage.t) :
  (forall x, proj (g x) = proj x) ->
  map proj (resolveMessage bid g prev) = map proj prev.
Proof.
  intros G. unfold resolveMessage. rewrite map_map. apply map_ext.
  intros x. destruct (Z.eqb (ChatMessage.id x) bid); auto.
Qed.

Lemma resolveMessage_others (bid : Z) (g : ChatMessage.t -> ChatMessage.t)
    (prev : list ChatMessage.t) :
  (forall x, ChatMessage.id x = bid -> ChatMessage.id (g x) = bid) ->
  filter (fun m => negb (Z.eqb (ChatMessage.id m) bid))
         (resolveMessage bid g prev) =
  filter (fun m => negb (Z.eqb (ChatMessage.id m) bid)) prev.
Proof.
  intros G. unfold resolveMessage.
  induction prev as [|x l IH]; [reflexivity|]. cbn [map filter].
  destruct (Z.eqb (ChatMessage.id x) bid) eqn:Ex.
  - apply Z.eqb_eq in Ex. rewrite (G x Ex), Z.eqb_refl. cbn [negb].
    exact IH.
  - rewrite Ex. cbn [negb]. rewrite IH. reflexivity.
Qed.

(** What one turn of the loop does to the locals and to the session. *)
Lemma onChunk_spec (chunk : Backend.Chunk) (r : Reply) (st : AppState) :
  let r' := fst (onChunk chunk r st) in
  let st' := snd (onChunk chunk r st) in
  botMessageId r' = botMessageId r /\
  sessionId r' = sessionId r /\
  fullResponse r' = fullResponse r ++ tpl (Backend.chunkText chunk) /\
  sources r' = sources r ++ chunkSources chunk /\
  map ChatMessage.id (messagesOf (sessionId r) st')
    = map ChatMessage.id (messagesOf (sessionId r) st) /\
  map ChatMessage.sources (messagesOf (sessionId r) st')
    = map ChatMessage.sources (messagesOf (sessionId r) st) /\
  (forall m, In m (messagesOf (sessionId r) st') ->
     ChatMessage.id m = botMessageId r ->
     ChatMessage.isLoading m = Some true /\
     ChatMessage.text m = fullResponse r').
Proof.
  unfold onChunk. cbn [fst snd botMessageId sessionId fullResponse sources].
  rewrite messagesOf_update_map by reflexivity.
  repeat split; try reflexivity.
  - apply resolveMessage_frame. reflexivity.
  - apply resolveMessage_frame. reflexivity.
  - apply resolveMessage_In in H; [|exact H0].
    destruct H as (x & _ & _ & ->).
    reflexivity.
  - apply resolveMessage_In in H; [|exact H0].
    destruct H as (x & _ & _ & ->).
    reflexivity.
Qed.

(** The locals and the session at every point of the loop. *)
Lemma receive_spec (chunks : list Backend.Chunk) (r : Reply)
    (st : AppState) :
  (forall ri sti, In (ri, sti) (receive chunks r st) ->
     botMessageId ri = botMessageId r /\
     sessionId ri = sessionId r /\
     map ChatMessage.id (messagesOf (sessionId r) sti)
       = map ChatMessage.id (messagesOf (sessionId r) st) /\
     map ChatMessage.sources (messagesOf (sessionId r) sti)
       = map ChatMessage.sources (messagesOf (sessionId r) st)) /\
  (forall ri sti, In (ri, sti) (tl (receive chunks r st)) ->
     forall m, In m (messagesOf (sessionId r) sti) ->
       ChatMessage.id m = botMessageId r ->
       ChatMessage.isLoading m = Some true /\
       ChatMessage.text m = fullResponse ri) /\
  (forall d,
     fullResponse (fst (last (receive chunks r st) d)) =
       fullResponse r
       ++ concat (map (fun c => tpl (Backend.chunkText c)) chunks) /\
     sources (fst (last (receive chunks r st) d)) =
       sources r ++ flat_map chunkSources chunks).
Proof.
  revert r st. induction chunks as [|chunk chunks IH]; intros r st.
  - cbn [receive tl last map concat flat_map fst]. rewrite !app_nil_r.
    split; [|split].
    + intros ri sti [E | []]. injection E as <- <-. auto.
    + intros ri sti [].
    + auto.
  - cbn [receive].
    pose proof (onChunk_spec chunk r st) as O. cbv zeta in O.
    destruct (onChunk chunk r st) as [r' st'] eqn:E. cbn [fst snd] in O.
    destruct O as (O1 & O2 & O3 & O4 & O5 & O6 & O7).
    destruct (IH r' st') as (I1 & I2 & I3).
    split; [|split].
    + intros ri sti [H | H]; [injection H as <- <-; auto|].
      destruct (I1 ri sti H) as (J1 & J2 & J3 & J4).
      rewrite O2 in *. rewrite J1, J2, J3, J4. auto.
    + cbn [tl]. intros ri sti H m Im Em.
      destruct chunks as [|chunk' chunks'].
      * cbn [receive] in H. destruct H as [H | []].
        injection H as <- <-. apply O7; assumption.
      * cbn [receive] in H. destruct H as [H | H].
        -- injection H as <- <-. apply O7; assumption.
        -- rewrite <- O2 in Im. rewrite <- O1 in Em.
           apply (I2 ri sti); [|exact Im|exact Em].
           cbn [receive tl]. exact H.
    + intros d. cbn [map concat flat_map].
      assert (L : last ((r, st) :: receive chunks r' st') d
                  = last (receive chunks r' st') d).
      { destruct chunks; reflexivity. }
      rewrite L. destruct (I3 d) as [K1 K2].
      rewrite K1, K2, O3, O4, <- !app_assoc. auto.
Qed.

Lemma receive_last_In (chunks : list Backend.Chunk) (r : Reply)
    (st : AppState) (d : Reply * AppState) :
  In (last (receive chunks r st) d) (receive chunks r st).
Proof.
  assert (G : forall (l : list (Reply * AppState)) x, In (last (x :: l) d) (x :: l)).
  { induction l as [|y l IH]; intros x; [left; reflexivity|].
    right. apply (IH y). }
  destruct chunks as [|c cs]; cbn [receive]; apply G.
Qed.

Section Stream.

Variable SUSTAINABILITY_TIPS : jsstring -> option jsstring.

(** C3, as amended.  When a streamed reply completes, every message of
    the session with the id of the placeholder is the final message.  Its
    text is the accumulated text of the chunks without the images that
    one scan from left to right finds, trimmed: the scan cuts the first
    image it meets, which ends at the first [](] and the first [)] after
    it, and goes on behind it, so that what a cut brings together is not
    read again; the text so cleaned is the only one of that kind.  Its
    sources are the citations of the chunks with one entry per URI, the
    last citation seen for that URI; its loading flag is false.  The
    placeholder, if the session has it, is so replaced.  Until then the
    updates of the loop change the sources of no message, and leave the
    placeholder loading. *)
Theorem streamed_reply (chunks : list Backend.Chunk) (r : Reply)
    (st : AppState) :
  let sid := sessionId r in
  let full :=
    fullResponse r
    ++ concat (map (fun c => tpl (Backend.chunkText c)) chunks) in
  let collected := sources r ++ flat_map chunkSources chunks in
  exists cleaned,
    stripped full cleaned /\
    (forall out, stripped full out -> out = cleaned) /\
    let final :=
      {| ChatMessage.id := botMessageId r;
         ChatMessage.text := trim cleaned;
         ChatMessage.sender := bot;
         ChatMessage.suggestions := None;
         ChatMessage.images := None;
         ChatMessage.sources := Some (uniqueSources collected);
         ChatMessage.isLoading := Some false;
         ChatMessage.files := None;
         ChatMessage.isWelcome := None;
         ChatMessage.isSystem := None;
         ChatMessage.videoState := None;
         ChatMessage.videoUrl := None |} in
    let st' := fst (streamed SUSTAINABILITY_TIPS chunks Completes r st) in
    (forall m, In m (messagesOf sid st') ->
       ChatMessage.id m = botMessageId r -> m = final) /\
    ((exists m, In m (messagesOf sid st) /\
                ChatMessage.id m = botMessageId r) ->
     In final (messagesOf sid st')) /\
    NoDup (map Source.uri (uniqueSources collected)) /\
    (forall s, In s (uniqueSources collected) ->
       find (fun x => key_eqb (Source.uri x) (Source.uri s)) (rev collected)
         = Some s) /\
    (forall s, In s collected ->
       exists s', In s' (uniqueSources collected) /\
                  Source.uri s' = Source.uri s) /\
    (forall ri sti, In (ri, sti) (receive chunks r st) ->
       map ChatMessage.sources (messagesOf sid sti)
         = map ChatMessage.sources (messagesOf sid st)) /\
    (forall ri sti, In (ri, sti) (tl (receive chunks r st)) ->
       forall m, In m (messagesOf sid sti) ->
         ChatMessage.id m = botMessageId r ->
         ChatMessage.isLoading m = Some true).
Proof.
  intros sid full collected.
  exists (Regex.removeAll (fun c => c) imageMarkdownRegex full).
  destruct (ImageFacts.removeAll_stripped full) as [Sc Su].
  split; [exact Sc|]. split; [exact Su|].
  intros final st'.
  destruct (receive_spec chunks r st) as (R1 & R2 & R3).
  destruct (uniqueSources_spec collected) as (U1 & U2 & U3).
  pose proof (receive_last_In chunks r st (r, st)) as LI.
  destruct (R3 (r, st)) as [Rf Rs].
  destruct (last (receive chunks r st) (r, st)) as [r' stl] eqn:L.
  cbn [fst] in Rf, Rs.
  destruct (R1 r' stl LI) as (B & S & Ids & _).
  assert (Fm : finalBotMessage r' = final).
  { unfold finalBotMessage, final, ChatMessage.with_isLoading,
      ChatMessage.with_sources, ChatMessage.make. cbn.
    rewrite B, Rf, Rs. reflexivity. }
  assert (M : messagesOf sid st' =
              resolveMessage (botMessageId r) (fun _ => final)
                (messagesOf sid stl)).
  { subst st'. unfold streamed. rewrite L. unfold onStreamEnd.
    rewrite S, B, Fm. fold sid.
    match goal with
    | |- context [if ?b then _ else _] => destruct b
    end; cbn [fst];
      [change (messagesOf sid (setUserMessageCount 0 ?x))
         with (messagesOf sid x)|];
      apply messagesOf_update_map; reflexivity. }
  repeat split.
  - intros m I E. rewrite M in I.
    apply resolveMessage_In in I; [|exact E].
    destruct I as (x & _ & _ & ->). reflexivity.
  - intros (m & I & E). rewrite M.
    assert (Ib : In (botMessageId r)
                    (map ChatMessage.id (messagesOf sid stl))).
    { fold sid in Ids. rewrite Ids. apply in_map_iff. exists m. auto. }
    apply in_map_iff in Ib. destruct Ib as (x & Ex & Ix).
    apply (@resolveMessage_hit (botMessageId r) (fun _ => final) _ x Ix Ex).
  - exact U1.
  - exact U2.
  - exact U3.
  - intros ri sti I. apply (R1 ri sti I).
  - intros ri sti I m Im Em. apply (R2 ri sti I m Im Em).
Qed.

End Stream.

(* ------------------------------------------------------------------ *)
(** *** Video generation *)
(* ------------------------------------------------------------------ *)

Section Video.

Variable API_KEY : jsstring.

Local Abbreviation generateVideo := (Backend.generateVideo API_KEY).
Local Abbreviation pollUntilDone := (Backend.pollUntilDone API_KEY).
Local Abbreviation download := (Backend.download API_KEY).





End Video.

End AppFacts.

(* ================================================================== *)
(** ** The scenarios of the specification, run *)
(* ================================================================== *)

Module ScenarioFacts.

Import Store StoreFacts App AppFacts Scenario.

Example awaitingStyle_session :
  findSession (lit "1000") (sessions awaitingStyle) = Some asked.
Proof. reflexivity. Qed.

Example suggestions_cover_languages :
  tripPlanVariants toLowerCase LANGUAGES <> None.
Proof. vm_compute. discriminate. Qed.

(** The theorem of the router at two submissions of the scenarios: a
    blank text is dropped, and the image request runs the action of one
    rule. *)
Lemma handleSendMessage_one_rule_witness :
  tripPlanVariants toLowerCase LANGUAGES <> None /\
  handle (say "   ") fresh = (setIsBotSpeaking false fresh, None) /\
  accepted (say "generate a sunset over the beach")
           (setIsBotSpeaking false fresh) = Some (lit "1000", session) /\
  exists rule,
    first_to_match LANGUAGES ART_STYLES toLowerCase canonicalize rule
      (say "generate a sunset over the beach") session
      (setIsBotSpeaking false fresh) /\
    handle (say "generate a sunset over the beach") fresh =
      action LANGUAGES ART_STYLES TRIP_PLAN_PROMPT toLowerCase canonicalize
        rule (lit "1000") (say "generate a sunset over the beach") session
        clock (setIsBotSpeaking false fresh) /\
    footprint rule (say "generate a sunset over the beach") clock fresh
      (handle (say "generate a sunset over the beach") fresh).
Proof.
  assert (T : tripPlanVariants toLowerCase LANGUAGES <> None)
    by (vm_compute; discriminate).
  split; [exact T|]. split.
  - exact (proj2 (handleSendMessage_one_rule LANGUAGES ART_STYLES
                    TRIP_PLAN_PROMPT toLowerCase canonicalize clock
                    (say "   ") fresh T)).
  - split; [vm_compute; reflexivity|].
    exact (proj2 (handleSendMessage_one_rule LANGUAGES ART_STYLES
                    TRIP_PLAN_PROMPT toLowerCase canonicalize clock
                    (say "generate a sunset over the beach") fresh T)).
Defined.

(** C1, the counterexample.  The style selection of the scenarios is not
    the chat rule, and yet it waits for a backend call and adds a loading
    placeholder that was not there.  A blank submission runs no action
    at all: the handler leaves the store as it is and waits for nothing.
    And when a language of the list has no row in the table of
    suggestions, the handler stops at the trip-plan test: a greeting,
    which the chat rule alone matches, runs no action either, with the
    chat handle at hand. *)
Lemma style_selection_calls_backend :
  (firstMatch LANGUAGES ART_STYLES toLowerCase canonicalize
     (say "Watercolor") asked (setIsBotSpeaking false awaitingStyle)
     = Some ArtStyleSelection /\
   ArtStyleSelection <> DefaultChat /\
   (exists settle,
      snd (handle (say "Watercolor") awaitingStyle) =
        Some (GenerateImage
                (lit "A watercolor of: generate a sunset over the beach")
                settle)) /\
   In (placeholder 2001)
      (loading (fst (handle (say "Watercolor") awaitingStyle))) /\
   ~ In (placeholder 2001) (loading awaitingStyle)) /\
  handle (say "   ") fresh = (setIsBotSpeaking false fresh, None) /\
  (tripPlanVariants toLowerCase (LANGUAGES ++ [french]) = None /\
   firstMatch (LANGUAGES ++ [french]) ART_STYLES toLowerCase canonicalize
     (say "hello") session (setIsBotSpeaking false fresh)
     = Some DefaultChat /\
   chatSessionRef fresh = Some (Backend.chat 0) /\
   handleSendMessage (LANGUAGES ++ [french]) ART_STYLES TRIP_PLAN_PROMPT
     toLowerCase canonicalize clock (say "hello") fresh
     = (setIsBotSpeaking false fresh, None)).
Proof.
  split; [|split; [vm_compute; reflexivity|]].
  - split; [vm_compute; reflexivity|].
    split; [discriminate|].
    split; [eexists; vm_compute; reflexivity|].
    split.
    + vm_compute. left. reflexivity.
    + vm_compute. intros [].
  - split; [vm_compute; reflexivity|].
    split; [vm_compute; reflexivity|].
    split; [reflexivity|]. vm_compute. reflexivity.
Qed.



(** The theorem of the image request at the scenario of the
    specification: the bot message that is appended offers the one art
    style of the scenarios. *)
Lemma image_request_witness :
  accepted (say "generate a sunset over the beach")
           (setIsBotSpeaking false fresh) = Some (lit "1000", session) /\
  snd (handle (say "generate a sunset over the beach") fresh) = None /\
  pendingImagePrompt
    (fst (handle (say "generate a sunset over the beach") fresh))
  = Some (lit "generate a sunset over the beach") /\
  option_map ChatSession.messages
    (findSession (lit "1000")
       (sessions (fst (handle (say "generate a sunset over the beach")
                         fresh))))
  = Some
      [ChatMessage.make 2000 (lit "generate a sunset over the beach") user;
       {| ChatMessage.id := 2001;
          ChatMessage.text :=
            lit "Sounds creative! Which art style would you like?";
          ChatMessage.sender := bot;
          ChatMessage.suggestions :=
            Some [{| Suggestion.text := lit "Watercolor";
                     Suggestion.icon := PaletteIcon;
                     Suggestion.prompt := None |}];
          ChatMessage.images := None;
          ChatMessage.sources := None;
          ChatMessage.isLoading := None;
          ChatMessage.files := None;
          ChatMessage.isWelcome := None;
          ChatMessage.isSystem := None;
          ChatMessage.videoState := None;
          ChatMessage.videoUrl := None |}].
Proof.
  assert (A : accepted (say "generate a sunset over the beach")
                (setIsBotSpeaking false fresh)
              = Some (lit "1000", session)) by (vm_compute; reflexivity).
  split; [exact A|].
  destruct (image_request LANGUAGES ART_STYLES TRIP_PLAN_PROMPT toLowerCase
              canonicalize clock (say "generate a sunset over the beach")
              fresh (lit "1000") session A) as (H1 & H2 & H3 & _);
    try (vm_compute; reflexivity).
  - intros rule [<- | [<- | [<- | []]]]; vm_compute; reflexivity.
  - split; [exact H1|]. split; [exact H2|].
    fold handle in H3. rewrite H3. reflexivity.
Defined.

(** The condition on the rules of higher priority is not idle: a request
    for an image that names another language is taken as a language
    switch, and no prompt is kept. *)
Example image_request_in_hindi :
  firstMatch LANGUAGES ART_STYLES toLowerCase canonicalize
    (say "generate a poster in Hindi") session
    (setIsBotSpeaking false fresh)
  = Some LanguageSwitch /\
  pendingImagePrompt (fst (handle (say "generate a poster in Hindi") fresh))
  = None.
Proof. split; vm_compute; reflexivity. Qed.

(** The theorem of the pending prompt at the style selection of the
    scenarios. *)
Lemma pending_prompt_witness :
  accepted (say "Watercolor") (setIsBotSpeaking false awaitingStyle)
    = Some (lit "1000", asked) /\
  pendingImagePrompt awaitingStyle
    = Some (lit "generate a sunset over the beach") /\
  exists settle,
    snd (handle (say "Watercolor") awaitingStyle) =
      Some (GenerateImage
              (lit "A watercolor of: generate a sunset over the beach")
              settle) /\
    pendingImagePrompt (fst (handle (say "Watercolor") awaitingStyle))
      = None.
Proof.
  assert (A : accepted (say "Watercolor")
                (setIsBotSpeaking false awaitingStyle)
              = Some (lit "1000", asked)) by (vm_compute; reflexivity).
  assert (P : pendingImagePrompt awaitingStyle
              = Some (lit "generate a sunset over the beach"))
    by (vm_compute; reflexivity).
  split; [exact A|]. split; [exact P|].
  destruct (pending_prompt LANGUAGES ART_STYLES TRIP_PLAN_PROMPT toLowerCase
              canonicalize clock (say "Watercolor") awaitingStyle
              (lit "1000") asked (lit "generate a sunset over the beach")
              A P eq_refl) as (H & _ & _).
  destruct H as (settle & E & N & _).
  - vm_compute. reflexivity.
  - vm_compute. left. reflexivity.
  - exists settle. fold handle in E, N. rewrite E. cbn [snd].
    split; [reflexivity|]. rewrite E in N. exact N.
Defined.

(** C6, the counterexample.  "switch to Hindi" is no art style; sent
    while the image prompt of the scenarios is pending, it leaves the
    prompt pending. *)
Lemma language_switch_keeps_pending :
  pendingImagePrompt awaitingStyle
    = Some (lit "generate a sunset over the beach") /\
  arr_includes ART_STYLES (lit "switch to Hindi") = false /\
  pendingImagePrompt (fst (handle (say "switch to Hindi") awaitingStyle))
    = Some (lit "generate a sunset over the beach").
Proof. repeat split; vm_compute; reflexivity. Qed.

(** The theorem of the streamed reply at the two chunks of the
    scenarios: the placeholder becomes the final message, whose text has
    lost both images, the one that the chunks cut in two as well, and
    whose two sources have distinct URIs, the page cited twice with its
    last title. *)
Lemma streamed_reply_witness :
  (exists m, In m (messagesOf (lit "1000") asking) /\
             ChatMessage.id m = 2001%Z) /\
  stripped
    (lit "Om beach ![map](http://m/1.png) is near. ![pin](http://m/2.png)")
    (lit "Om beach  is near. ") /\
  In {| ChatMessage.id := 2001;
        ChatMessage.text := lit "Om beach  is near.";
        ChatMessage.sender := bot;
        ChatMessage.suggestions := None;
        ChatMessage.images := None;
        ChatMessage.sources :=
          Some [cite "http://a" "second"; cite "http://b" "other"];
        ChatMessage.isLoading := Some false;
        ChatMessage.files := None;
        ChatMessage.isWelcome := None;
        ChatMessage.isSystem := None;
        ChatMessage.videoState := None;
        ChatMessage.videoUrl := None |}
     (messagesOf (lit "1000")
        (fst (streamed SUSTAINABILITY_TIPS chunks Completes opening
                asking))).
Proof.
  assert (P : exists m, In m (messagesOf (lit "1000") asking) /\
                        ChatMessage.id m = 2001%Z).
  { exists (placeholder 2001). split; [|reflexivity].
    vm_compute. right. left. reflexivity. }
  split; [exact P|].
  destruct (streamed_reply SUSTAINABILITY_TIPS chunks opening asking)
    as (cleaned & S & U & _ & H & _).
  assert (E : cleaned = lit "Om beach  is near. ").
  { rewrite (proj2 (ImageFacts.removeAll_stripped _) cleaned S).
    vm_compute. reflexivity. }
  subst cleaned. split; [exact S|]. exact (H P).
Defined.

(** C3, the counterexample.  The reply is the text [!![a](b)[c](d)].
    The scan cuts the image [![a](b)]; the exclamation mark before it
    and the text behind it come together as [![c](d)], which is not read
    again: the text of the final message is an inline image. *)
Lemma image_markdown_survives :
  let st' :=
    fst (streamed SUSTAINABILITY_TIPS nested Completes opening asking) in
  map ChatMessage.text
    (filter (fun m => Z.eqb (ChatMessage.id m) 2001)
            (messagesOf (lit "1000") st'))
  = [lit "![c](d)"] /\
  image (lit "![c](d)") /\
  Regex.test (fun c => c) imageMarkdownRegex (lit "![c](d)") = true.
Proof.
  cbv zeta. split; [vm_compute; reflexivity|].
  split; [|vm_compute; reflexivity].
  exists (lit "c"), (lit "d"). split; [reflexivity|].
  split; intros c [<-|[]]; reflexivity.
Qed.


(** The theorem of the playback order with integer times: two clips of
    three frames, the second arriving while the first plays. *)
Lemma playback_in_order_witness :
  LiveAudio.in_order Z.add Z.leb
    (LiveAudio.started
       (LiveAudio.run 0%Z Z.add Z.leb Z.of_N
          [LiveAudio.Message 10%Z clipMessage;
           LiveAudio.Message 11%Z clipMessage]
          (LiveAudio.initial 0%Z))) /\
  LiveAudio.started
    (fst (LiveAudio.onmessage 0%Z Z.add Z.leb Z.of_N 11%Z clipMessage
            (fst (LiveAudio.onmessage 0%Z Z.add Z.leb Z.of_N 10%Z
                    clipMessage (LiveAudio.initial 0%Z)))))
  = [ {| LiveAudio.node := 1; LiveAudio.when := 13%Z;
         LiveAudio.lasting := 3%Z |};
      {| LiveAudio.node := 0; LiveAudio.when := 10%Z;
         LiveAudio.lasting := 3%Z |} ].
Proof.
  destruct (LiveAudioFacts.playback_in_order Z 0%Z Z.add Z.leb Z.of_N)
    as [H1 H2].
  - intros a. apply Z.leb_refl.
  - intros a b c Hab Hbc. apply Z.leb_le. apply Z.leb_le in Hab, Hbc. lia.
  - intros a b Hab Hba. apply Z.leb_le in Hab, Hba. lia.
  - split.
    + apply H1. reflexivity.
    + exact (proj1 (H2 (LiveAudio.initial 0%Z) 10%Z clipMessage 3%N 11%Z
                       clipMessage 3%N eq_refl eq_refl eq_refl eq_refl
                       eq_refl)).
Defined.

(** The theorem of the interruption with integer times: two clips are
    scheduled, the interruption empties the set and stops both, and a
    clip that arrives at time 12 starts at 12, not at 16. *)
Lemma interruption_resets_witness :
  let playing :=
    LiveAudio.run 0%Z Z.add Z.leb Z.of_N
      [LiveAudio.Message 10%Z clipMessage;
       LiveAudio.Message 11%Z clipMessage]
      (LiveAudio.initial 0%Z) in
  let after :=
    fst (LiveAudio.onmessage 0%Z Z.add Z.leb Z.of_N 12%Z interruption
           playing) in
  LiveAudio.sources playing = [0%nat; 1%nat] /\
  LiveAudio.nextStartTime playing = 16%Z /\
  LiveAudio.sources after = [] /\
  LiveAudio.nextStartTime after = 0%Z /\
  In 0%nat (LiveAudio.stopped after) /\
  In 1%nat (LiveAudio.stopped after) /\
  LiveAudio.started
    (fst (LiveAudio.onmessage 0%Z Z.add Z.leb Z.of_N 12%Z clipMessage
            after))
  = {| LiveAudio.node := 2; LiveAudio.when := 12%Z;
       LiveAudio.lasting := 3%Z |} :: LiveAudio.started after.
Proof.
  intros playing after.
  assert (P : LiveAudio.modelTurn interruption <> Some None)
    by discriminate.
  destruct (LiveAudioFacts.interruption_resets Z 0%Z Z.add Z.leb Z.of_N
              playing 12%Z interruption eq_refl P (or_introl eq_refl))
    as (_ & S & N & St & _ & Nx).
  split; [reflexivity|]. split; [reflexivity|].
  split; [exact S|]. split; [exact N|].
  split; [apply St; left; reflexivity|].
  split; [apply St; right; left; reflexivity|].
  exact (Nx [] 12%Z clipMessage 3%N eq_refl eq_refl eq_refl).
Defined.

(** C8, the counterexample.  Two clips are scheduled.  An interruption
    signal whose audio text does not decode, or whose model turn has no
    parts array, ends the handler with an exception before the
    interruption is looked at: both sources stay in the tracked set,
    none is stopped, the next start time stays at 16, and a clip that
    arrives at time 12 starts at 16. *)
Lemma interruption_lost :
  let playing :=
    LiveAudio.run 0%Z Z.add Z.leb Z.of_N
      [LiveAudio.Message 10%Z clipMessage;
       LiveAudio.Message 11%Z clipMessage]
      (LiveAudio.initial 0%Z) in
  LiveAudio.sources playing = [0%nat; 1%nat] /\
  LiveAudio.nextStartTime playing = 16%Z /\
  let lost signal :=
    let result :=
      LiveAudio.onmessage 0%Z Z.add Z.leb Z.of_N 12%Z signal playing in
    LiveAudio.interrupted signal = true /\
    snd result = LiveAudio.Threw /\
    LiveAudio.sources (fst result) = [0%nat; 1%nat] /\
    LiveAudio.stopped (fst result) = [] /\
    LiveAudio.nextStartTime (fst result) = 16%Z /\
    LiveAudio.started
      (fst (LiveAudio.onmessage 0%Z Z.add Z.leb Z.of_N 12%Z clipMessage
              (fst result)))
    = {| LiveAudio.node := 2; LiveAudio.when := 16%Z;
         LiveAudio.lasting := 3%Z |} :: LiveAudio.started playing in
  lost interruptionWithNoise /\ lost interruptionWithoutParts.
Proof.
  cbv zeta. split; [reflexivity|]. split; [reflexivity|].
  split; vm_compute; repeat split; reflexivity.
Qed.

(** The theorem of the store at two sessions: the update of session
    1000 leaves session 999 as it is, and an update of a session that is
    not in the store leaves the store as it is. *)
Lemma updateSessionMessages_frame_witness :
  nth_error (updateSessionMessages (lit "1000") greet [other; session]) 0
    = Some other /\
  updateSessionMessages (lit "7") greet [other; session]
    = [other; session].
Proof.
  destruct (updateSessionMessages_frame (lit "1000") greet [other; session])
    as (_ & H & _).
  destruct (updateSessionMessages_frame (lit "7") greet [other; session])
    as (_ & _ & K).
  split.
  - destruct (H 0%nat other eq_refl) as (s' & E & _ & _ & _ & Same & _).
    rewrite E. f_equal. apply Same. vm_compute. discriminate.
  - apply K. intros s [<- | [<- | []]]; vm_compute; discriminate.
Defined.

End ScenarioFacts.
(* ================================================================== *)
(** * Further properties of the code *)
(* ================================================================== *)

(** ** Strings *)

Module TrimFacts.

Lemma trimStart_head (s : jsstring) (c : N) (r : jsstring) :
  trimStart s = c :: r -> isWhiteSpace c = false.
Proof.
  induction s as [|x s IH]; simpl; [discriminate|].
  destruct (isWhiteSpace x) eqn:E; [exact IH|].
  intros H. injection H as <- _. exact E.
Qed.

Lemma trimStart_suffix (s : jsstring) :
  exists w, s = w ++ trimStart s.
Proof.
  induction s as [|x s [w IH]]; simpl.
  - exists []. reflexivity.
  - destruct (isWhiteSpace x).
    + exists (x :: w). simpl. rewrite <- IH. reflexivity.
    + exists []. reflexivity.
Qed.

Lemma trimStart_keeps (s : jsstring) (c : N) (r : jsstring) :
  s = c :: r -> isWhiteSpace c = false -> trimStart s = s.
Proof. intros -> H. simpl. rewrite H. reflexivity. Qed.

(** A trimmed text has no white space at either end. *)
Lemma trim_ends (s : jsstring) (c : N) (r : jsstring) :
  trim s = c :: r ->
  isWhiteSpace c = false /\ isWhiteSpace (last (c :: r) c) = false.
Proof.
  unfold trim, trimEnd. intros H.
  destruct (trimStart (rev (trimStart s))) as [|d v] eqn:V;
    [discriminate|].
  pose proof (trimStart_head _ _ _ V) as D.
  split.
  - destruct (trimStart_suffix (rev (trimStart s))) as [w W].
    rewrite V in W. apply (f_equal (@rev N)) in W.
    rewrite rev_involutive, rev_app_distr, H in W.
    apply (trimStart_head s c (r ++ rev w)). exact W.
  - rewrite <- H. simpl rev. rewrite last_last. exact D.
Qed.

(** Trimming a trimmed text changes nothing. *)
Lemma trim_trim (s : jsstring) : trim (trim s) = trim s.
Proof.
  destruct (trim s) as [|c r] eqn:E; [reflexivity|].
  destruct (trim_ends s c r E) as [A B].
  unfold trim, trimEnd. rewrite (trimStart_keeps (c :: r) c r eq_refl A).
  destruct (rev (c :: r)) as [|d v] eqn:R.
  - apply (f_equal (@rev N)) in R. rewrite rev_involutive in R.
    discriminate.
  - assert (L : last (c :: r) c = d).
    { rewrite <- (rev_involutive (c :: r)), R. simpl rev.
      apply last_last. }
    rewrite L in B. rewrite (trimStart_keeps (d :: v) d v eq_refl B).
    rewrite <- R. apply rev_involutive.
Qed.

End TrimFacts.

(* ================================================================== *)
(** ** Session management *)
(* ================================================================== *)

Module SessionFacts.

Import Store StoreFacts App AppFacts Sessions TrimFacts.

Lemma activeInStore_intro (st : AppState) (s : ChatSession.t) :
  In s (sessions st) -> activeSessionId st = Some (ChatSession.id s) ->
  activeInStore st.
Proof. intros I A. exists s. auto. Qed.

Section Welcome.

Variable LANGUAGES : list Language.t.
Variable TODAYS_BRIEFING_PROMPT : jsstring -> option jsstring.

Local Abbreviation newSession := (newSession TODAYS_BRIEFING_PROMPT).
Local Abbreviation loadSessions := (loadSessions TODAYS_BRIEFING_PROMPT).
Local Abbreviation activeLanguage := (activeLanguage LANGUAGES).
Local Abbreviation handleNewChat :=
  (handleNewChat LANGUAGES TODAYS_BRIEFING_PROMPT).
Local Abbreviation handleDeleteSession :=
  (handleDeleteSession TODAYS_BRIEFING_PROMPT).
Local Abbreviation handleClearAllSessions :=
  (handleClearAllSessions TODAYS_BRIEFING_PROMPT).
Local Abbreviation perform := (perform LANGUAGES TODAYS_BRIEFING_PROMPT).
Local Abbreviation offeredAll :=
  (offeredAll LANGUAGES TODAYS_BRIEFING_PROMPT).

Lemma loadSessions_active (saved : option (list ChatSession.t))
    (lastActiveId : option jsstring) (clock : nat -> Z) (st : AppState) :
  activeInStore (loadSessions saved lastActiveId clock st).
Proof.
  unfold Sessions.loadSessions.
  destruct saved as [[|first rest]|].
  - eapply activeInStore_intro; [left; reflexivity | reflexivity].
  - destruct lastActiveId as [id|].
    + destruct (findSession id (first :: rest)) as [s|] eqn:F.
      * apply findSession_id in F. destruct F as [_ F].
        eapply activeInStore_intro; [exact F | reflexivity].
      * eapply activeInStore_intro; [left; reflexivity | reflexivity].
    + eapply activeInStore_intro; [left; reflexivity | reflexivity].
  - eapply activeInStore_intro; [left; reflexivity | reflexivity].
Qed.

Lemma perform_active (st : AppState) (c : Command) :
  activeInStore st -> offered st c -> activeInStore (perform st c).
Proof.
  intros (s & I & A) O. destruct c as [clock|sid|sid clock|sid title|clock];
    cbn [Sessions.perform].
  - unfold Sessions.handleNewChat.
    destruct (activeLanguage st) as [l|].
    + eapply activeInStore_intro; [|reflexivity].
      cbn. apply in_or_app. right. left. reflexivity.
    + exists s. auto.
  - destruct O as (s' & I' & <-). exists s'. auto.
  - unfold Sessions.handleDeleteSession. rewrite A.
    destruct (str_eqb (ChatSession.id s) sid) eqn:E.
    + destruct (filter _ (sessions st)) as [|first rest] eqn:F.
      * eapply activeInStore_intro; [left; reflexivity | reflexivity].
      * eapply activeInStore_intro; [|reflexivity].
        cbn. left. reflexivity.
    + exists s. split; [|exact A]. cbn. apply filter_In.
      rewrite E. auto.
  - unfold handleRenameSession.
    destruct (negb (truthy (trim title))); [exists s; auto|].
    eexists. split; [cbn; apply in_map; exact I|].
    cbn. rewrite A. destruct (str_eqb (ChatSession.id s) sid); reflexivity.
  - eapply activeInStore_intro; [left; reflexivity | reflexivity].
Qed.

(** X1.  From the mount of the component on, whatever the storage held
    and whatever the history panel asks for (new chat, select, delete,
    rename, clear all), the active id names a session of the store; in
    particular the store is never left empty. *)
Theorem store_keeps_active_session (saved : option (list ChatSession.t))
    (lastActiveId : option jsstring) (clock : nat -> Z)
    (commands : list Command) :
  offeredAll (loadSessions saved lastActiveId clock mounted) commands ->
  activeInStore
    (fold_left perform commands
       (loadSessions saved lastActiveId clock mounted)) /\
  sessions
    (fold_left perform commands
       (loadSessions saved lastActiveId clock mounted)) <> [].
Proof.
  intros O.
  assert (A : activeInStore
                (fold_left perform commands
                   (loadSessions saved lastActiveId clock mounted))).
  { pose proof (loadSessions_active saved lastActiveId clock mounted) as H.
    revert O H. generalize (loadSessions saved lastActiveId clock mounted).
    induction commands as [|c l IH]; intros st O H; [exact H|].
    destruct O as [O1 O2]. simpl. apply IH; [exact O2|].
    apply perform_active; assumption. }
  split; [exact A|].
  destruct A as (s & I & _). intros E. rewrite E in I. exact I.
Qed.

(** X2.  Deleting a session removes the sessions of that id and nothing
    else: the other sessions stay, whole and in order.  When the deleted
    session was the active one, the first session left becomes active;
    when none is left, the store holds one fresh session in English,
    which is active.  Deleting another session leaves the active id. *)
Theorem delete_session (sessionId : jsstring) (clock : nat -> Z)
    (st : AppState) :
  let st' := handleDeleteSession sessionId clock st in
  let remaining :=
    filter (fun s => negb (str_eqb (ChatSession.id s) sessionId))
           (sessions st) in
  (forall s, In s remaining <->
             In s (sessions st) /\ ChatSession.id s <> sessionId) /\
  match activeSessionId st, remaining with
  | Some active, first :: _ =>
      sessions st' = remaining /\
      activeSessionId st' =
        if str_eqb active sessionId then Some (ChatSession.id first)
        else Some active
  | Some active, [] =>
      if str_eqb active sessionId
      then sessions st' = [newSession (lit "en-US") clock] /\
           activeSessionId st' = Some (numberToString (clock 0%nat))
      else sessions st' = [] /\ activeSessionId st' = Some active
  | None, _ => sessions st' = remaining /\ activeSessionId st' = None
  end.
Proof.
  cbv zeta. split.
  - intros s. rewrite filter_In, negb_true_iff, str_eqb_neq. reflexivity.
  - unfold Sessions.handleDeleteSession.
    destruct (activeSessionId st) as [active|] eqn:A.
    + destruct (filter _ (sessions st)) as [|first rest] eqn:F;
        destruct (str_eqb active sessionId); cbn; rewrite ?A; auto.
    + cbn. rewrite A. auto.
Qed.

(** X3.  A rename with a blank title changes nothing.  Any other rename
    gives the sessions of that id the trimmed title, which is not empty
    and has no white space at either end, and changes nothing else:
    ids, messages, languages, the other titles, the order and the active
    id are as before. *)
Theorem rename_session (sessionId newTitle : jsstring) (st : AppState) :
  let st' := handleRenameSession sessionId newTitle st in
  match trim newTitle with
  | [] => st' = st
  | c :: r =>
      isWhiteSpace c = false /\ isWhiteSpace (last (c :: r) c) = false /\
      activeSessionId st' = activeSessionId st /\
      map ChatSession.id (sessions st') = map ChatSession.id (sessions st) /\
      map ChatSession.messages (sessions st')
        = map ChatSession.messages (sessions st) /\
      map ChatSession.languageCode (sessions st')
        = map ChatSession.languageCode (sessions st) /\
      map ChatSession.title (sessions st')
        = map (fun s => if str_eqb (ChatSession.id s) sessionId
                        then c :: r else ChatSession.title s)
              (sessions st)
  end.
Proof.
  cbv zeta. unfold handleRenameSession.
  destruct (trim newTitle) as [|c r] eqn:T; [reflexivity|].
  destruct (trim_ends newTitle c r T) as [A B].
  split; [exact A|]. split; [exact B|]. split; [reflexivity|].
  cbn. rewrite !map_map.
  repeat split; apply map_ext; intros s;
    destruct (str_eqb (ChatSession.id s) sessionId); reflexivity.
Qed.

Lemma findSession_app_fresh (sid : jsstring) (l : list ChatSession.t)
    (s : ChatSession.t) :
  (forall x, In x l -> ChatSession.id x <> sid) ->
  ChatSession.id s = sid ->
  findSession sid (l ++ [s]) = Some s.
Proof.
  intros N E. unfold findSession. induction l as [|x l IH]; simpl.
  - rewrite E, str_eqb_refl. reflexivity.
  - destruct (str_eqb (ChatSession.id x) sid) eqn:X.
    + apply str_eqb_eq in X. exfalso. apply (N x); [left; reflexivity|exact X].
    + apply IH. intros y Y. apply N. right. exact Y.
Qed.

(** X4.  A new chat whose id (the clock reading, printed) is not the id
    of a session already in the store is appended to the store and
    becomes the active session; it holds the welcome message alone and
    has the language of the session that was active, when that language
    is a supported one.  The sessions already there are unchanged. *)
Theorem new_chat_inherits_language (clock : nat -> Z) (st : AppState)
    (current : ChatSession.t) (language : Language.t) :
  activeSession st = Some current ->
  In language LANGUAGES ->
  Language.code language = ChatSession.languageCode current ->
  (forall s, In s (sessions st) ->
             ChatSession.id s <> numberToString (clock 0%nat)) ->
  let st' := handleNewChat clock st in
  let added := newSession (ChatSession.languageCode current) clock in
  sessions st' = sessions st ++ [added] /\
  activeSession st' = Some added /\
  ChatSession.languageCode added = ChatSession.languageCode current /\
  ChatSession.messages added =
    [getWelcomeMessage TODAYS_BRIEFING_PROMPT
       (ChatSession.languageCode current) (clock 1%nat)].
Proof.
  intros C I E F. cbv zeta. unfold Sessions.handleNewChat.
  assert (L : exists l, activeLanguage st = Some l /\
                        Language.code l = ChatSession.languageCode current).
  { unfold Sessions.activeLanguage. rewrite C.
    destruct (find _ LANGUAGES) as [l|] eqn:G.
    - apply find_some in G. destruct G as [_ G]. apply str_eqb_eq in G.
      exists l. auto.
    - exfalso. apply (find_none _ _ G) in I. rewrite E, str_eqb_refl in I.
      discriminate. }
  destruct L as (l & -> & Lc). rewrite Lc.
  split; [reflexivity|]. split; [|split; reflexivity].
  unfold activeSession. cbn.
  apply findSession_app_fresh; [exact F | reflexivity].
Qed.

End Welcome.

(** X5.  Every content of the history handed to the chat has at least
    one part.  System messages and welcome messages contribute nothing
    to the history, and neither does the loading placeholder of a reply
    to come. *)
Theorem history_has_no_empty_content (messages : list ChatMessage.t) :
  (forall c, In c (geminiHistory messages) -> parts c <> []) /\
  geminiHistory
    (filter (fun m => negb (ChatMessage.flag (ChatMessage.isSystem m)
                            || ChatMessage.flag (ChatMessage.isWelcome m)))
            messages)
  = geminiHistory messages /\
  (forall botMessageId,
     geminiHistory (messages ++ [placeholder botMessageId])
     = geminiHistory messages).
Proof.
  split; [|split].
  - intros c I. unfold geminiHistory in I. apply in_flat_map in I.
    destruct I as (m & _ & I). unfold messageToGeminiContent in I.
    destruct (_ || _ || _) eqn:G; [destruct I|].
    destruct I as [<-|[]]. cbn [parts].
    apply orb_false_iff in G. destruct G as [_ G].
    apply andb_false_iff in G. destruct G as [G|G].
    + apply negb_false_iff in G.
      destruct (ChatMessage.text m) as [|x t] eqn:T.
      * unfold trim, trimEnd in G. discriminate.
      * cbn. discriminate.
    + destruct (ChatMessage.files m) as [[|f fs]|]; try discriminate.
      intros E. apply app_eq_nil in E. destruct E as [_ E]. discriminate.
  - unfold geminiHistory.
    induction messages as [|m l IH]; [reflexivity|]. simpl.
    destruct (ChatMessage.flag (ChatMessage.isSystem m)
              || ChatMessage.flag (ChatMessage.isWelcome m)) eqn:G; simpl.
    + rewrite IH. unfold messageToGeminiContent. rewrite G. reflexivity.
    + rewrite IH. reflexivity.
  - intros botMessageId. unfold geminiHistory.
    rewrite flat_map_app. simpl. apply app_nil_r.
Qed.

Section Tips.

Variable SUSTAINABILITY_TIPS : jsstring -> option jsstring.

Local Abbreviation onStreamEnd := (onStreamEnd SUSTAINABILITY_TIPS).

(** X6.  The end of a stream leaves the counter of user turns below
    five.  It sets a timer exactly when the counter had reached five;
    the counter then restarts at zero, and the timer, 500 ms later,
    appends one system message to the session of the reply: the tip of
    the language of that session, or the English tip when that language
    has none. *)
Theorem tip_on_fifth_turn (r : Reply) (st : AppState) :
  let st' := fst (onStreamEnd r st) in
  userMessageCount st' < 5 /\
  match snd (onStreamEnd r st) with
  | None => userMessageCount st < 5 /\
            userMessageCount st' = userMessageCount st
  | Some timer =>
      5 <= userMessageCount st /\ userMessageCount st' = 0 /\
      delay timer = 500%Z /\
      forall now st2 s c sid',
        sessionId r = c :: sid' ->
        findSession (sessionId r) (sessions st2) = Some s ->
        messagesOf (sessionId r) (callback timer now st2) =
          ChatSession.messages s ++
          [ChatMessage.with_isSystem
             (ChatMessage.make now
                (orElse (SUSTAINABILITY_TIPS (languageCode r))
                        (SUSTAINABILITY_TIPS (lit "en-US")))
                bot)
             true]
  end.
Proof.
  cbv zeta. unfold App.onStreamEnd.
  set (st1 := update _ _ st).
  assert (C : userMessageCount st1 = userMessageCount st) by reflexivity.
  destruct (5 <=? userMessageCount st1) eqn:L.
  - apply Nat.leb_le in L. cbn [fst snd setUserMessageCount userMessageCount].
    split; [lia|]. split; [lia|]. split; [reflexivity|].
    split; [reflexivity|].
    intros now st2 s c sid' E F. cbn [callback]. unfold addSystemMessage.
    rewrite E. rewrite E in F.
    destruct (messagesOf_update (c :: sid')
                (fun prev => prev ++ [ChatMessage.with_isSystem
                   (ChatMessage.make now
                      (orElse (SUSTAINABILITY_TIPS (languageCode r))
                              (SUSTAINABILITY_TIPS (lit "en-US"))) bot)
                   true]) st2 s F) as [_ M].
    rewrite M. unfold messagesOf. rewrite F. reflexivity.
  - apply Nat.leb_gt in L. cbn [fst snd]. lia.
Qed.

(** X7.  The effect that follows the active session leaves the counter
    of user turns at the number of user messages of that session modulo
    five, hence below five: a stream that ends in the state the effect
    left sets no tip timer and leaves the counter alone. *)
Theorem no_tip_after_chat_effect
    (startChat : jsstring -> list Content -> Backend.Chat) (r : Reply)
    (st : AppState) (current : ChatSession.t) :
  activeSession st = Some current ->
  let st1 := chatEffect startChat st in
  userMessageCount st1 =
    Nat.modulo
      (length (filter (fun m => match ChatMessage.sender m with
                                | user => true | bot => false end)
                      (ChatSession.messages current)))
      5 /\
  chatSessionRef st1 =
    Some (startChat (ChatSession.languageCode current)
            (geminiHistory (ChatSession.messages current))) /\
  snd (onStreamEnd r st1) = None /\
  userMessageCount (fst (onStreamEnd r st1)) = userMessageCount st1.
Proof.
  intros A. cbv zeta. unfold chatEffect. rewrite A.
  split; [reflexivity|]. split; [reflexivity|].
  unfold App.onStreamEnd.
  match goal with
  | |- context [5 <=? ?n] =>
      assert (L : (5 <=? n) = false); [|rewrite L; split; reflexivity]
  end.
  apply Nat.leb_gt. cbn [userMessageCount update setSessions].
  apply Nat.mod_upper_bound. discriminate.
Qed.

End Tips.

Lemma in_images (src : jsstring) (l : option (list jsstring)) :
  In src (match l with Some images => images | None => [] end) <->
  exists images, l = Some images /\ In src images.
Proof.
  destruct l as [images|]; simpl.
  - split; [intros H; exists images; auto|].
    intros (x & E & H). injection E as <-. exact H.
  - split; [intros []|intros (x & E & _); discriminate].
Qed.

(** X8.  The image library lists exactly the images of the bot messages
    of the store, each with the id of its session and of its message;
    images attached to user messages are never listed.  Sessions added
    later come first. *)
Theorem library_lists_bot_images (sessions later : list ChatSession.t)
    (g : GeneratedImage.t) :
  (In g (allGeneratedImages sessions) <->
   exists s m images,
     In s sessions /\ In m (ChatSession.messages s) /\
     ChatMessage.sender m = bot /\
     ChatMessage.images m = Some images /\
     In (GeneratedImage.src g) images /\
     GeneratedImage.sessionId g = ChatSession.id s /\
     GeneratedImage.messageId g = ChatMessage.id m) /\
  allGeneratedImages (sessions ++ later)
  = allGeneratedImages later ++ allGeneratedImages sessions.
Proof.
  split.
  - unfold allGeneratedImages. rewrite <- in_rev, in_flat_map. split.
    + intros (s & S & I). apply in_flat_map in I.
      destruct I as (m & M & I). apply filter_In in M.
      destruct M as [M B]. apply in_map_iff in I.
      destruct I as (src & <- & I). apply in_images in I.
      destruct I as (images & E & I).
      exists s, m, images. cbn. rewrite E in B.
      destruct (ChatMessage.sender m); [discriminate|]. auto 10.
    + intros (s & m & images & S & M & B & E & I & Es & Em).
      exists s. split; [exact S|]. apply in_flat_map.
      exists m. split.
      * apply filter_In. split; [exact M|]. rewrite B, E.
        destruct images; [destruct I | reflexivity].
      * apply in_map_iff. exists (GeneratedImage.src g). split.
        -- destruct g. cbn in *. subst. reflexivity.
        -- rewrite E. exact I.
  - unfold allGeneratedImages. rewrite flat_map_app, rev_app_distr.
    reflexivity.
Qed.

Lemma isSummarizing_filter (l : list ChatMessage.t) (m : ChatMessage.t) :
  In m (filter (fun m => negb (isSummarizing m)) l) <->
  In m l /\ isSummarizing m = false.
Proof. rewrite filter_In, negb_true_iff. reflexivity. Qed.

(** X9.  When the call of [summarizeText] settles, the notices
    "Summarizing..." are taken out of the active session, every other
    message stays, in order, and one message is appended: the summary
    under its heading when the call succeeded, a system message that
    asks to try again when it failed.  No notice is left behind. *)
Theorem summarize_clears_notice (text : jsstring) (clock : nat -> Z)
    (st st' : AppState) (sid : jsstring) (s : ChatSession.t)
    (task : Summarize) (outcome : Backend.Outcome (option jsstring)) :
  snd (handleSummarize text clock st) = Some task ->
  activeSessionId st = Some sid ->
  findSession sid (sessions st') = Some s ->
  let appended :=
    match outcome with
    | Backend.Fulfilled summary =>
        ChatMessage.make (clock 2%nat)
          ([55357; 56541; 32]%N ++ lit "**Summary**" ++ [10; 10]%N
           ++ tpl summary) bot
    | Backend.Rejected _ =>
        ChatMessage.with_isSystem
          (ChatMessage.make (clock 2%nat)
             (lit "Sorry, I couldn't summarize that. Please try again.")
             bot) true
    end in
  textToSummarize task = text /\
  messagesOf sid (settle task outcome st') =
    filter (fun m => negb (isSummarizing m)) (ChatSession.messages s)
    ++ [appended] /\
  forall m, In m (messagesOf sid (settle task outcome st')) ->
            isSummarizing m = false.
Proof.
  intros T A F. unfold handleSummarize in T. rewrite A in T.
  destruct sid as [|c sid']; [discriminate|]. cbn [snd] in T.
  injection T as <-. cbv zeta. cbn [textToSummarize settle].
  split; [reflexivity|].
  assert (M : messagesOf (c :: sid') st' = ChatSession.messages s).
  { unfold messagesOf. rewrite F. reflexivity. }
  destruct outcome as [summary|e].
  - match goal with
    | |- context [update (c :: sid') ?f st'] =>
        destruct (messagesOf_update (c :: sid') f st' s F) as [_ U]
    end.
    rewrite U, M. split; [reflexivity|].
    intros m I. apply in_app_or in I. destruct I as [I|[<-|[]]].
    + apply isSummarizing_filter in I. tauto.
    + reflexivity.
  - destruct (messagesOf_update (c :: sid')
      (filter (fun m => negb (isSummarizing m))) st' s F) as [F' U].
    unfold addSystemMessage.
    match goal with
    | |- context [update (c :: sid') ?f (update _ _ _)] =>
        destruct (messagesOf_update (c :: sid') f _ _ F') as [_ U']
    end.
    rewrite U', U, M. split; [reflexivity|].
    intros m I. apply in_app_or in I. destruct I as [I|[<-|[]]].
    + apply isSummarizing_filter in I. tauto.
    + reflexivity.
Qed.

Lemma history_has_no_welcome (messages : list ChatMessage.t) :
  geminiHistory
    (filter (fun m => negb (ChatMessage.flag (ChatMessage.isWelcome m)))
            messages)
  = geminiHistory messages.
Proof.
  unfold geminiHistory.
  induction messages as [|m l IH]; [reflexivity|]. cbn [filter].
  destruct (ChatMessage.flag (ChatMessage.isWelcome m)) eqn:G;
    cbn [negb flat_map].
  - rewrite IH. unfold messageToGeminiContent. rewrite G, orb_true_r.
    reflexivity.
  - rewrite IH. reflexivity.
Qed.

Lemma trim_framed (c d : N) (s : jsstring) :
  isWhiteSpace c = false -> isWhiteSpace d = false ->
  trim (c :: s ++ [d]) = c :: s ++ [d].
Proof.
  intros C D. unfold trim, trimEnd.
  rewrite (trimStart_keeps (c :: s ++ [d]) c (s ++ [d]) eq_refl C).
  assert (R : rev (c :: s ++ [d]) = d :: rev s ++ [c]).
  { cbn [rev]. rewrite rev_app_distr. reflexivity. }
  rewrite R, (trimStart_keeps (d :: rev s ++ [c]) d (rev s ++ [c]) eq_refl D).
  rewrite <- R. apply rev_involutive.
Qed.

Lemma geminiHistory_app (l1 l2 : list ChatMessage.t) :
  geminiHistory (l1 ++ l2) = geminiHistory l1 ++ geminiHistory l2.
Proof. unfold geminiHistory. apply flat_map_app. Qed.

(** X28.  After a change of language the effect that follows the active
    session starts a chat in the new language.  Its history is that of
    the conversation so far, followed by the request of the user, when
    it has text that is not blank, and by the confirmation as a turn of
    the model. *)
Theorem language_switch_restarts_chat
    (startChat : jsstring -> list Content -> Backend.Chat)
    (sid text : jsstring) (target : Language.t) (clock : nat -> Z)
    (st : AppState) (session : ChatSession.t) :
  activeSessionId st = Some sid ->
  findSession sid (sessions st) = Some session ->
  trim text <> [] ->
  let st' := fst (switchLanguage sid text target clock st) in
  chatSessionRef (chatEffect startChat st') =
    Some (startChat (Language.code target)
            (geminiHistory (ChatSession.messages session)
             ++ [{| role := UserRole; parts := [TextPart text] |};
                 {| role := ModelRole;
                    parts := [TextPart (confirmation target)] |}])).
Proof.
  intros A F T. cbv zeta. unfold switchLanguage. cbn [fst].
  set (f1 := dropWelcome _).
  set (g := fun s : ChatSession.t =>
              ChatSession.with_languageCode s (Language.code target)).
  set (f2 := fun prev : list ChatMessage.t => prev ++ _).
  destruct (messagesOf_update sid f1 st session F) as [F1 _].
  pose proof (findSession_map sid g _ _ (fun x => eq_refl) F1) as F2.
  change (map (fun x => if str_eqb (ChatSession.id x) sid then g x else x)
              (sessions (update sid f1 st)))
    with (sessions
            (setSessions
               (map (fun session =>
                       if str_eqb (ChatSession.id session) sid
                       then ChatSession.with_languageCode session
                              (Language.code target)
                       else session))
               (update sid f1 st))) in F2.
  destruct (messagesOf_update sid f2 _ _ F2) as [F3 _].
  unfold chatEffect, activeSession.
  match goal with
  | |- context [activeSessionId (update sid f2 ?s)] =>
      change (activeSessionId (update sid f2 s)) with (activeSessionId st)
  end.
  rewrite A, F3. cbn [chatSessionRef ChatSession.languageCode
    ChatSession.with_messages ChatSession.messages g
    ChatSession.with_languageCode].
  f_equal. f_equal. subst f1 f2. cbv beta. unfold dropWelcome.
  rewrite !geminiHistory_app. rewrite <- app_assoc. f_equal.
  - destruct (history_has_no_welcome (ChatSession.messages session)).
    reflexivity.
  - unfold geminiHistory. cbn [flat_map]. rewrite app_nil_r.
    unfold messageToGeminiContent.
    cbn [ChatMessage.isSystem ChatMessage.isWelcome ChatMessage.make
         ChatMessage.flag ChatMessage.text ChatMessage.files
         ChatMessage.sender orb].
    destruct (trim text) as [|t0 tr] eqn:Tt; [contradiction|].
    destruct text as [|x text']; [discriminate|].
    unfold confirmation.
    assert (Tc : trim (lit "Certainly! I will now respond in "
                       ++ Language.name target ++ lit ".")
                 = lit "Certainly! I will now respond in "
                   ++ Language.name target ++ lit ".").
    { change (lit "Certainly! I will now respond in "
              ++ Language.name target ++ lit ".")
        with (67%N :: (lit "ertainly! I will now respond in "
                       ++ Language.name target) ++ [46%N]).
      apply trim_framed; reflexivity. }
    rewrite Tc. reflexivity.
Qed.

End SessionFacts.

(* ================================================================== *)
(** ** The handlers and the store *)
(* ================================================================== *)

Module HandlerFacts.

Import Store StoreFacts App AppFacts Sessions.

Lemma ids_setSessions_map (g : ChatSession.t -> ChatSession.t)
    (st : AppState) :
  (forall s, ChatSession.id (g s) = ChatSession.id s) ->
  sessionIds (setSessions (map g) st) = sessionIds st.
Proof.
  intros G. unfold sessionIds. cbn. rewrite map_map.
  f_equal. apply map_ext. exact G.
Qed.

Lemma ids_update (sid : jsstring)
    (f : list ChatMessage.t -> list ChatMessage.t) (st : AppState) :
  sessionIds (update sid f st) = sessionIds st.
Proof.
  unfold update, updateSessionMessages. apply ids_setSessions_map.
  intros s. destruct (str_eqb (ChatSession.id s) sid); reflexivity.
Qed.

Lemma ids_setIsBotSpeaking (b : bool) (st : AppState) :
  sessionIds (setIsBotSpeaking b st) = sessionIds st.
Proof. reflexivity. Qed.

Lemma ids_setPendingImagePrompt (p : option jsstring) (st : AppState) :
  sessionIds (setPendingImagePrompt p st) = sessionIds st.
Proof. reflexivity. Qed.

Lemma ids_setUserMessageCount (n : nat) (st : AppState) :
  sessionIds (setUserMessageCount n st) = sessionIds st.
Proof. reflexivity. Qed.

Lemma ids_addSystemMessage (activeId : option jsstring) (text : jsstring)
    (now : Z) (st : AppState) :
  sessionIds (addSystemMessage activeId text now st) = sessionIds st.
Proof.
  unfold addSystemMessage. destruct activeId as [[|c sid]|];
    try reflexivity. apply ids_update.
Qed.

Lemma ids_relabel (sid : jsstring) (g : ChatSession.t -> ChatSession.t)
    (st : AppState) :
  (forall s, ChatSession.id (g s) = ChatSession.id s) ->
  sessionIds
    (setSessions
       (map (fun s => if str_eqb (ChatSession.id s) sid then g s else s))
       st)
  = sessionIds st.
Proof.
  intros G. apply ids_setSessions_map. intros s.
  destruct (str_eqb (ChatSession.id s) sid); [apply G | reflexivity].
Qed.

Create Rewrite HintDb ids.

#[local] Hint Rewrite ids_update ids_setIsBotSpeaking
  ids_setPendingImagePrompt ids_setUserMessageCount ids_addSystemMessage
  : ids.

Ltac ids :=
  unfold sameSessions;
  repeat first
    [ progress autorewrite with ids
    | rewrite ids_relabel by reflexivity ];
  try reflexivity.

Section Handlers.

Variable LANGUAGES : list Language.t.
Variable ART_STYLES : list jsstring.
Variable TRIP_PLAN_PROMPT : jsstring -> option jsstring.
Variable SUSTAINABILITY_TIPS : jsstring -> option jsstring.
Variable toLowerCase : jsstring -> jsstring.
Variable canonicalize : N -> N.

Local Abbreviation keepsSessions := (keepsSessions SUSTAINABILITY_TIPS).
Local Abbreviation settlesWithinSessions :=
  (settlesWithinSessions SUSTAINABILITY_TIPS).
Local Abbreviation streamed := (streamed SUSTAINABILITY_TIPS).

Lemma keepsSessions_from (st st1 : AppState) (r : AppState * option Task) :
  sessionIds st1 = sessionIds st -> keepsSessions st1 r ->
  keepsSessions st r.
Proof.
  intros E [A B]. split; [|exact B]. unfold sameSessions in *.
  rewrite A. exact E.
Qed.

Lemma settleImage_same (sid : jsstring) (botMessageId : Z)
    (caption generic safety noImage blocked : jsstring)
    (outcome : Backend.Outcome Backend.GenerateContentResponse)
    (st : AppState) :
  sameSessions st
    (settleImage toLowerCase sid botMessageId caption generic safety
       noImage blocked outcome st).
Proof. unfold settleImage. destruct (imageReply _ _ _ _); ids. Qed.

Lemma receive_same (chunks : list Backend.Chunk) (r : Reply)
    (st : AppState) (d : Reply * AppState) :
  sessionIds (snd (last (receive chunks r st) d)) = sessionIds st /\
  sessionId (fst (last (receive chunks r st) d)) = sessionId r.
Proof.
  revert r st. induction chunks as [|chunk chunks IH]; intros r st.
  - split; reflexivity.
  - cbn [receive].
    assert (L : last ((r, st) :: receive chunks
                        (fst (onChunk chunk r st)) (snd (onChunk chunk r st))) d
                = last (receive chunks (fst (onChunk chunk r st))
                          (snd (onChunk chunk r st))) d).
    { destruct chunks; reflexivity. }
    destruct (onChunk chunk r st) as [r' st'] eqn:E. cbn [fst snd] in L.
    rewrite L. destruct (IH r' st') as [I1 I2]. rewrite I1, I2.
    unfold onChunk in E. injection E as <- <-. split; [ids | reflexivity].
Qed.

Lemma streamed_same (chunks : list Backend.Chunk) (ending : Ending)
    (r : Reply) (st : AppState) :
  sameSessions st (fst (streamed chunks ending r st)) /\
  match snd (streamed chunks ending r st) with
  | Some timer => forall now st', sameSessions st' (callback timer now st')
  | None => True
  end.
Proof.
  unfold App.streamed.
  destruct (receive_same chunks r st (r, st)) as [A _].
  destruct (last (receive chunks r st) (r, st)) as [r' st'].
  cbn [snd] in A. destruct ending as [|e].
  - unfold onStreamEnd. destruct (5 <=? _); cbn [fst snd].
    + split; [ids; exact A|]. intros now st2. cbn [callback]. ids.
    + split; [ids; exact A | exact I].
  - cbn [fst snd]. split; [|exact I]. unfold onStreamError. ids. exact A.
Qed.

Lemma handleImageGeneration_keeps (prompt style : jsstring)
    (clock : nat -> Z) (st : AppState) :
  keepsSessions st (handleImageGeneration toLowerCase prompt style clock st).
Proof.
  unfold handleImageGeneration.
  destruct (activeSessionId st) as [[|c sid]|]; try (split; [ids | exact I]).
  split; [cbn [fst]; ids|]. cbn [snd Sessions.settlesWithinSessions].
  intros outcome st'. apply settleImage_same.
Qed.

Lemma handleImageEdit_keeps (text : jsstring) (file : UploadedFile.t)
    (clock : nat -> Z) (st : AppState) :
  keepsSessions st (handleImageEdit toLowerCase text file clock st).
Proof.
  unfold handleImageEdit.
  destruct (activeSessionId st) as [[|c sid]|]; try (split; [ids | exact I]).
  split; [cbn [fst]; ids|]. cbn [snd Sessions.settlesWithinSessions].
  intros outcome st'. apply settleImage_same.
Qed.

Lemma handleVideoGeneration_keeps (file : UploadedFile.t)
    (prompt : jsstring) (aspectRatio : AspectRatio) (clock : nat -> Z)
    (st : AppState) :
  keepsSessions st (handleVideoGeneration file prompt aspectRatio clock st).
Proof.
  unfold handleVideoGeneration.
  destruct (activeSessionId st) as [[|c sid]|]; try (split; [ids | exact I]).
  split; [cbn [fst]; ids|]. cbn [snd Sessions.settlesWithinSessions].
  intros [videoUri|error] st'; ids.
Qed.

Lemma chatTurn_keeps (sid : jsstring) (payload : Payload.t)
    (currentSession : ChatSession.t) (clock : nat -> Z) (st : AppState) :
  keepsSessions st (chatTurn sid payload currentSession clock st).
Proof.
  unfold chatTurn.
  set (st3 := update sid _ _).
  assert (E : sessionIds st3 = sessionIds st).
  { subst st3. destruct (Nat.eqb _ 0); ids. }
  assert (C : chatSessionRef st3 = chatSessionRef st).
  { subst st3. destruct (Nat.eqb _ 0); reflexivity. }
  destruct (chatSessionRef st3) as [chat|].
  - split; [exact E|]. cbn [snd Sessions.settlesWithinSessions].
    intros chunks ending st'. apply streamed_same.
  - split; [|exact I]. cbn [fst]. unfold onStreamError. ids. exact E.
Qed.

Lemma afterStyleSelection_keeps (sid : jsstring) (payload : Payload.t)
    (currentSession : ChatSession.t) (clock : nat -> Z) (st : AppState) :
  keepsSessions st
    (afterStyleSelection LANGUAGES ART_STYLES TRIP_PLAN_PROMPT toLowerCase
       canonicalize sid payload currentSession clock st).
Proof.
  unfold afterStyleSelection.
  destruct (editTarget payload) as [file|];
    [apply handleImageEdit_keeps|].
  destruct (_ && _ && _).
  { unfold askArtStyle. split; [cbn [fst]; ids | exact I]. }
  destruct (tripPlanVariants toLowerCase LANGUAGES) as [variants|];
    [|split; [ids | exact I]].
  destruct (_ && _).
  - unfold tripPlanReply. split; [cbn [fst]; ids | exact I].
  - apply chatTurn_keeps.
Qed.

(** X10.  No submission and no video request adds, removes, reorders or
    renumbers a session, or changes which session is active: this holds
    for the part of the handler that runs at once, for what runs when
    the backend call settles, whatever the answer and whenever it
    arrives, for every chunk of a streamed reply, and for the tip
    timer. *)
Theorem handlers_keep_sessions (clock : nat -> Z) (payload : Payload.t)
    (file : UploadedFile.t) (prompt : jsstring) (aspectRatio : AspectRatio)
    (st : AppState) :
  keepsSessions st
    (handleSendMessage LANGUAGES ART_STYLES TRIP_PLAN_PROMPT toLowerCase
       canonicalize clock payload st) /\
  keepsSessions st
    (handleVideoGeneration file prompt aspectRatio clock st).
Proof.
  split; [|apply handleVideoGeneration_keeps].
  unfold handleSendMessage.
  apply (keepsSessions_from st (setIsBotSpeaking false st));
    [reflexivity|].
  set (st1 := setIsBotSpeaking false st).
  destruct (_ || _); [split; [ids | exact I]|].
  destruct (activeSessionId st1) as [sid|]; [|split; [ids | exact I]].
  destruct (findSession sid (sessions st1)) as [currentSession|];
    [|split; [ids | exact I]].
  destruct (switchTarget _ _ _ _ _) as [target|].
  { unfold switchLanguage. split; [cbn [fst]; ids | exact I]. }
  destruct (pendingImagePrompt st1) as [[|c pending]|].
  - apply afterStyleSelection_keeps.
  - destruct (arr_includes ART_STYLES (Payload.text payload)).
    + unfold selectArtStyle.
      pose proof (handleImageGeneration_keeps (c :: pending)
                    (Payload.text payload) clock st1) as [A B].
      destruct (handleImageGeneration _ _ _ _ _) as [st2 task].
      split; [cbn [fst] in *; ids; exact A | exact B].
    + eapply keepsSessions_from; [|apply afterStyleSelection_keeps].
      reflexivity.
  - apply afterStyleSelection_keeps.
Qed.

(* ------------------------------------------------------------------ *)
(** *** How an image call settles *)
(* ------------------------------------------------------------------ *)

Lemma resolveMessage_ids (bid : Z) (g : ChatMessage.t -> ChatMessage.t)
    (prev : list ChatMessage.t) :
  (forall x, ChatMessage.id x = bid -> ChatMessage.id (g x) = bid) ->
  map ChatMessage.id (resolveMessage bid g prev) = map ChatMessage.id prev.
Proof.
  intros G. unfold resolveMessage. rewrite map_map. apply map_ext.
  intros x. destruct (Z.eqb (ChatMessage.id x) bid) eqn:E; [|reflexivity].
  apply Z.eqb_eq in E. rewrite (G x E). symmetry. exact E.
Qed.

Lemma imageReply_inl (bid : Z) (caption : jsstring)
    (outcome : Backend.Outcome Backend.GenerateContentResponse)
    (m : ChatMessage.t) :
  imageReply toLowerCase bid caption outcome = inl m ->
  ChatMessage.id m = bid /\ ChatMessage.isLoading m = Some false /\
  ChatMessage.sender m = bot.
Proof.
  unfold imageReply. destruct outcome as [response|e]; [|discriminate].
  destruct (Backend.blockReason response) as [[|c reason]|];
    try discriminate;
    (destruct (Backend.content response) as [[parts|]|]; try discriminate;
     (destruct (find _ _) as [[[image|]]|];
      [intros H; injection H as <-; auto | |];
      (destruct (Backend.text response) as [explanation|]; [|discriminate];
       destruct (_ && _); [|discriminate];
       intros H; injection H as <-; auto))).
Qed.

(** X11.  When the call of an image handler settles, whatever the
    outcome, every message of the session that has the id of the
    placeholder stops loading; the messages with another id are what
    they were, and the session has the same messages, by id and in
    order, as before.  The handler never retries and never leaves the
    placeholder loading. *)
Theorem image_settle_resolves (sid : jsstring) (botMessageId : Z)
    (caption generic safety noImage blocked : jsstring)
    (outcome : Backend.Outcome Backend.GenerateContentResponse)
    (st : AppState) :
  let st' :=
    settleImage toLowerCase sid botMessageId caption generic safety
      noImage blocked outcome st in
  map ChatMessage.id (messagesOf sid st')
    = map ChatMessage.id (messagesOf sid st) /\
  filter (fun m => negb (Z.eqb (ChatMessage.id m) botMessageId))
         (messagesOf sid st')
    = filter (fun m => negb (Z.eqb (ChatMessage.id m) botMessageId))
             (messagesOf sid st) /\
  (forall m, In m (messagesOf sid st') ->
     ChatMessage.id m = botMessageId ->
     ChatMessage.isLoading m = Some false /\
     ChatMessage.text m =
       match imageReply toLowerCase botMessageId caption outcome with
       | inl finalBotMessage => ChatMessage.text finalBotMessage
       | inr error => imageFailureText generic safety noImage blocked error
       end) /\
  (forall s, In s (sessions st') ->
     ChatSession.id s <> sid -> In s (sessions st)).
Proof.
  cbv zeta. unfold settleImage.
  destruct (imageReply toLowerCase botMessageId caption outcome)
    as [final|error] eqn:R.
  - apply imageReply_inl in R. destruct R as (R1 & R2 & R3).
    rewrite messagesOf_update_map by reflexivity.
    split; [apply resolveMessage_ids; intros; exact R1|].
    split; [apply resolveMessage_others; intros; exact R1|].
    split.
    + intros m Im Em. apply resolveMessage_In in Im; [|exact Em].
      destruct Im as (x & _ & _ & ->). auto.
    + intros s Is Ns. cbn in Is. unfold updateSessionMessages in Is.
      apply in_map_iff in Is. destruct Is as (x & E & Ix).
      destruct (str_eqb (ChatSession.id x) sid) eqn:Ex.
      * apply str_eqb_eq in Ex. subst s. contradiction.
      * subst s. exact Ix.
  - rewrite messagesOf_update_map by reflexivity.
    split; [apply resolveMessage_ids; intros; assumption|].
    split; [apply resolveMessage_others; intros; assumption|].
    split.
    + intros m Im Em. apply resolveMessage_In in Im; [|exact Em].
      destruct Im as (x & _ & _ & ->). auto.
    + intros s Is Ns. cbn in Is. unfold updateSessionMessages in Is.
      apply in_map_iff in Is. destruct Is as (x & E & Ix).
      destruct (str_eqb (ChatSession.id x) sid) eqn:Ex.
      * apply str_eqb_eq in Ex. subst s. contradiction.
      * subst s. exact Ix.
Qed.

Lemma startsWith_app (p s : jsstring) : startsWith p (p ++ s) = true.
Proof.
  induction p as [|x p IH]; [reflexivity|]. simpl.
  rewrite N.eqb_refl. exact IH.
Qed.

Lemma str_includes_infix (p a b : jsstring) :
  str_includes p (a ++ p ++ b) = true.
Proof.
  induction a as [|x a IH].
  - simpl app. destruct (p ++ b) eqn:E; simpl.
    + destruct p; [reflexivity | discriminate].
    + rewrite <- E, startsWith_app. reflexivity.
  - simpl. rewrite IH. apply orb_true_r.
Qed.

(** X12.  What the user reads when an image call settles.  A prompt
    the backend blocked never yields the generic text: the text is the
    one for safety, for a missing image or for a blocked request,
    whatever the reason reads.  A reply with an image shows the caption.
    A reply with neither an image nor a text yields the text for a
    missing image; a reply with a text alone shows that text; a reply
    whose content has no parts, and a rejection with something that is
    no [Error], yield the generic text. *)
Theorem image_outcome_texts (botMessageId : Z)
    (caption generic safety noImage blocked : jsstring)
    (response : Backend.GenerateContentResponse) :
  let shown outcome :=
    match imageReply toLowerCase botMessageId caption outcome with
    | inl finalBotMessage => ChatMessage.text finalBotMessage
    | inr error => imageFailureText generic safety noImage blocked error
    end in
  let noInlineData parts :=
    forallb (fun p => match Backend.inlineData p with
                      | Some _ => false | None => true end) parts in
  let withoutImage :=
    match Backend.text response with
    | Some explanation =>
        if truthy (trim explanation) then explanation else noImage
    | None => noImage
    end in
  shown (Backend.Rejected Backend.OtherValue) = generic /\
  match Backend.blockReason response with
  | Some (_ :: _) =>
      In (shown (Backend.Fulfilled response)) [safety; noImage; blocked]
  | _ =>
      shown (Backend.Fulfilled response) =
        match Backend.content response with
        | Some None => generic
        | Some (Some parts) =>
            if noInlineData parts then withoutImage else caption
        | None => withoutImage
        end
  end.
Proof.
  cbv zeta. split; [reflexivity|].
  assert (T : forall explanation,
            truthy explanation && truthy (trim explanation)
            = truthy (trim explanation)).
  { intros [|x t]; reflexivity. }
  assert (Fd : forall parts,
            (find (fun p => match Backend.inlineData p with
                            | Some _ => true | None => false end) parts
             = None /\
             forallb (fun p => match Backend.inlineData p with
                               | Some _ => false | None => true end) parts
             = true) \/
            (exists image,
               find (fun p => match Backend.inlineData p with
                              | Some _ => true | None => false end) parts
               = Some {| Backend.inlineData := Some image |} /\
               forallb (fun p => match Backend.inlineData p with
                                 | Some _ => false | None => true end) parts
               = false)).
  { intros parts. induction parts as [|[[image|]] parts IH]; simpl.
    - left. auto.
    - right. exists image. auto.
    - exact IH. }
  unfold imageReply.
  destruct (Backend.blockReason response) as [[|c reason]|].
  - destruct (Backend.content response) as [[parts|]|].
    + destruct (Fd parts) as [[F1 F2]|(image & F1 & F2)]; rewrite F1, F2.
      * destruct (Backend.text response) as [explanation|]; [|reflexivity].
        rewrite T. destruct (truthy (trim explanation)); reflexivity.
      * reflexivity.
    + reflexivity.
    + cbn [find].
      destruct (Backend.text response) as [explanation|]; [|reflexivity].
      rewrite T. destruct (truthy (trim explanation)); reflexivity.
  - unfold imageFailureText.
    destruct (str_includes (lit "safety") _); [left; reflexivity|].
    destruct (str_includes (lit "No image was returned") _);
      [right; left; reflexivity|].
    match goal with
    | |- context [str_includes (lit "blocked due to") ?m] =>
        assert (B : str_includes (lit "blocked due to") m = true)
    end.
    { apply (str_includes_infix (lit "blocked due to")
               (lit "Request was ")
               (lit ": " ++ underscoresToSpaces (toLowerCase (c :: reason))
                ++ lit ".")). }
    rewrite B. right. right. left. reflexivity.
  - destruct (Backend.content response) as [[parts|]|].
    + destruct (Fd parts) as [[F1 F2]|(image & F1 & F2)]; rewrite F1, F2.
      * destruct (Backend.text response) as [explanation|]; [|reflexivity].
        rewrite T. destruct (truthy (trim explanation)); reflexivity.
      * reflexivity.
    + reflexivity.
    + cbn [find].
      destruct (Backend.text response) as [explanation|]; [|reflexivity].
      rewrite T. destruct (truthy (trim explanation)); reflexivity.
Qed.

(* ------------------------------------------------------------------ *)
(** *** The chat turn *)
(* ------------------------------------------------------------------ *)

Lemma onChunk_frame (chunk : Backend.Chunk) (r : Reply) (st : AppState) :
  let st' := snd (onChunk chunk r st) in
  userMessageCount st' = userMessageCount st /\
  filter (fun m => negb (Z.eqb (ChatMessage.id m) (botMessageId r)))
         (messagesOf (sessionId r) st')
  = filter (fun m => negb (Z.eqb (ChatMessage.id m) (botMessageId r)))
           (messagesOf (sessionId r) st).
Proof.
  cbv zeta. unfold onChunk. cbn [snd]. split; [reflexivity|].
  rewrite messagesOf_update_map by reflexivity.
  apply resolveMessage_others. intros x E. exact E.
Qed.

Lemma receive_frame (chunks : list Backend.Chunk) (r : Reply)
    (st : AppState) (d : Reply * AppState) :
  let st' := snd (last (receive chunks r st) d) in
  userMessageCount st' = userMessageCount st /\
  filter (fun m => negb (Z.eqb (ChatMessage.id m) (botMessageId r)))
         (messagesOf (sessionId r) st')
  = filter (fun m => negb (Z.eqb (ChatMessage.id m) (botMessageId r)))
           (messagesOf (sessionId r) st).
Proof.
  cbv zeta. revert r st.
  induction chunks as [|chunk chunks IH]; intros r st.
  - split; reflexivity.
  - cbn [receive].
    pose proof (onChunk_frame chunk r st) as [F1 F2].
    pose proof (onChunk_spec chunk r st) as O. cbv zeta in O.
    destruct O as (O1 & O2 & _).
    destruct (onChunk chunk r st) as [r' st'] eqn:E. cbn [fst snd] in *.
    assert (L : last ((r, st) :: receive chunks r' st') d
                = last (receive chunks r' st') d).
    { destruct chunks; reflexivity. }
    rewrite L. destruct (IH r' st') as [I1 I2].
    rewrite O1, O2 in I2. rewrite I1, I2. auto.
Qed.

(** X13.  When the stream of a reply throws, after any number of
    chunks, every message of the session that has the id of the
    placeholder shows the apology and stops loading; what had arrived
    of the reply is not kept.  The other messages, the citations of
    every message and the counter of user turns are as they were when
    the stream opened, and no tip timer is set. *)
Theorem stream_failure_shows_apology (chunks : list Backend.Chunk)
    (e : Backend.Thrown) (r : Reply) (st : AppState) :
  let result := streamed chunks (Throws e) r st in
  let after := messagesOf (sessionId r) (fst result) in
  let before := messagesOf (sessionId r) st in
  snd result = None /\
  userMessageCount (fst result) = userMessageCount st /\
  map ChatMessage.id after = map ChatMessage.id before /\
  map ChatMessage.sources after = map ChatMessage.sources before /\
  filter (fun m => negb (Z.eqb (ChatMessage.id m) (botMessageId r))) after
  = filter (fun m => negb (Z.eqb (ChatMessage.id m) (botMessageId r)))
           before /\
  forall m, In m after -> ChatMessage.id m = botMessageId r ->
    ChatMessage.text m
      = lit "Sorry, I encountered an error. Please try again." /\
    ChatMessage.isLoading m = Some false.
Proof.
  cbv zeta. unfold App.streamed.
  destruct (receive_spec chunks r st) as (S1 & _ & _).
  pose proof (receive_last_In chunks r st (r, st)) as L.
  pose proof (receive_frame chunks r st (r, st)) as F. cbv zeta in F.
  destruct (last (receive chunks r st) (r, st)) as [r' st'].
  cbn [fst snd] in *. destruct (S1 r' st' L) as (_ & _ & J3 & J4).
  destruct F as [F1 F2]. unfold onStreamError.
  rewrite messagesOf_update_map by reflexivity.
  split; [reflexivity|]. split; [exact F1|].
  split; [rewrite resolveMessage_ids; [exact J3 | intros; assumption]|].
  split; [rewrite resolveMessage_frame; [exact J4 | reflexivity]|].
  split; [rewrite resolveMessage_others; [exact F2 | intros; assumption]|].
  intros m Im Em. apply resolveMessage_In in Im; [|exact Em].
  destruct Im as (x & _ & _ & ->). auto.
Qed.

Lemma findSession_relabel (sid : jsstring)
    (g : ChatSession.t -> ChatSession.t) (st : AppState)
    (s : ChatSession.t) :
  (forall x, ChatSession.id (g x) = ChatSession.id x) ->
  findSession sid (sessions st) = Some s ->
  findSession sid
    (sessions
       (setSessions
          (map (fun x => if str_eqb (ChatSession.id x) sid
                         then g x else x)) st))
  = Some (g s).
Proof. intros G F. cbn. apply findSession_map; assumption. Qed.

(** X14.  The standard branch counts one more user turn.  It titles the
    session with the first 40 code units of the text exactly when the
    session, as the handler found it, holds no user message; a session
    that holds one keeps its title.  The language is kept.  Without a
    chat handle no call is made: the placeholder shows the apology at
    once. *)
Theorem chat_turn_titles_session (sid : jsstring) (payload : Payload.t)
    (currentSession : ChatSession.t) (clock : nat -> Z) (st : AppState) :
  findSession sid (sessions st) = Some currentSession ->
  let result := chatTurn sid payload currentSession clock st in
  let firstUserMessage :=
    forallb (fun m => match ChatMessage.sender m with
                      | user => false | bot => true end)
            (ChatSession.messages currentSession) in
  userMessageCount (fst result) = S (userMessageCount st) /\
  (exists session,
     findSession sid (sessions (fst result)) = Some session /\
     ChatSession.title session =
       (if firstUserMessage then firstn 40 (Payload.text payload)
        else ChatSession.title currentSession) /\
     ChatSession.languageCode session
       = ChatSession.languageCode currentSession) /\
  length (firstn 40 (Payload.text payload)) <= 40 /\
  match chatSessionRef st with
  | Some chat =>
      exists promptText imageParts reply,
        snd result = Some (SendMessage chat promptText imageParts reply)
  | None =>
      snd result = None /\
      forall m, In m (messagesOf sid (fst result)) ->
        ChatMessage.id m = (clock 1%nat + 1)%Z ->
        ChatMessage.text m
          = lit "Sorry, I encountered an error. Please try again." /\
        ChatMessage.isLoading m = Some false
  end.
Proof.
  intros F. cbv zeta. unfold chatTurn.
  assert (U : forall l : list ChatMessage.t,
            Nat.eqb (length (filter (fun m => match ChatMessage.sender m with
                                               | user => true | bot => false
                                               end) l)) 0
            = forallb (fun m => match ChatMessage.sender m with
                                | user => false | bot => true end) l).
  { induction l as [|m l IH]; [reflexivity|]. simpl.
    destruct (ChatMessage.sender m); simpl; [reflexivity | exact IH]. }
  rewrite U.
  set (first := forallb _ (ChatSession.messages currentSession)).
  set (st1 := setUserMessageCount (S (userMessageCount st)) st).
  set (st2 := if first then setSessions _ st1 else st1).
  assert (F2 : exists session,
            findSession sid (sessions st2) = Some session /\
            ChatSession.title session =
              (if first then firstn 40 (Payload.text payload)
               else ChatSession.title currentSession) /\
            ChatSession.languageCode session
              = ChatSession.languageCode currentSession /\
            ChatSession.messages session
              = ChatSession.messages currentSession).
  { subst st2. destruct first.
    - eexists. split.
      + apply (findSession_relabel sid
                 (fun s => ChatSession.with_title s
                             (firstn 40 (Payload.text payload))) st1
                 currentSession); [reflexivity | exact F].
      + auto.
    - exists currentSession. auto. }
  destruct F2 as (session & G1 & G2 & G3 & G4).
  assert (C2 : userMessageCount st2 = S (userMessageCount st)
               /\ chatSessionRef st2 = chatSessionRef st).
  { subst st2. destruct first; split; reflexivity. }
  destruct C2 as [C2 C3].
  set (f := replaceWelcome _).
  destruct (messagesOf_update sid f st2 session G1) as [H1 H2].
  change (chatSessionRef (update sid f st2)) with (chatSessionRef st2).
  rewrite C3. destruct (chatSessionRef st) as [chat|]; cbn [fst snd].
  - split; [exact C2|]. split; [|split; [apply firstn_le_length|eauto]].
    eexists. split; [exact H1|]. auto.
  - unfold onStreamError. split; [exact C2|]. split; [|split].
    + destruct (messagesOf_update sid
        (resolveMessage (clock 1%nat + 1)%Z
           (fun msg => ChatMessage.with_isLoading
              (ChatMessage.with_text msg
                 (lit "Sorry, I encountered an error. Please try again."))
              false))
        (update sid f st2) _ H1) as [K _].
      eexists. split; [exact K|]. auto.
    + apply firstn_le_length.
    + split; [reflexivity|]. intros m Im Em.
      rewrite messagesOf_update_map in Im by reflexivity.
      apply resolveMessage_In in Im; [|exact Em].
      destruct Im as (x & _ & _ & ->). auto.
Qed.

(** X15.  The two ids that [handleImageGeneration] takes from the
    clock.  The placeholder gets the first reading plus one, the style
    message of the user the second reading.  When the clock has moved on
    by one millisecond between the two readings, the two messages have
    the same id, and the message that the settled call gives (the image,
    or the explanation of the model) replaces both: the style message
    is lost and the reply is shown twice.  With any other second
    reading, the reply replaces the placeholder alone. *)
Theorem image_generation_ids (prompt style : jsstring) (clock : nat -> Z)
    (st : AppState) (c : N) (sid : jsstring) (session : ChatSession.t)
    (outcome : Backend.Outcome Backend.GenerateContentResponse)
    (finalBotMessage : ChatMessage.t) :
  activeSessionId st = Some (c :: sid) ->
  findSession (c :: sid) (sessions st) = Some session ->
  (forall m, In m (ChatSession.messages session) ->
             ChatMessage.id m <> (clock 0%nat + 1)%Z) ->
  imageReply toLowerCase (clock 0%nat + 1)%Z
    (lit "Here is the image I generated for you:") outcome
  = inl finalBotMessage ->
  let result := handleImageGeneration toLowerCase prompt style clock st in
  exists finalPrompt settle,
    snd result = Some (GenerateImage finalPrompt settle) /\
    messagesOf (c :: sid) (settle outcome (fst result))
    = ChatSession.messages session
      ++ (if Z.eqb (clock 1%nat) (clock 0%nat + 1)
          then [finalBotMessage; finalBotMessage]
          else [ChatMessage.make (clock 1%nat) style user;
                finalBotMessage]).
Proof.
  intros A F Fresh R. cbv zeta. unfold handleImageGeneration.
  rewrite A. cbn [fst snd]. eexists. eexists. split; [reflexivity|].
  set (f := fun prev : list ChatMessage.t => prev ++ _).
  destruct (messagesOf_update (c :: sid) f st session F) as [_ M].
  unfold settleImage. rewrite R.
  rewrite messagesOf_update_map by reflexivity. rewrite M.
  unfold messagesOf. rewrite F. subst f. cbv beta.
  unfold resolveMessage. rewrite map_app.
  assert (K : map (fun msg : ChatMessage.t =>
                     if Z.eqb (ChatMessage.id msg) (clock 0%nat + 1)
                     then finalBotMessage else msg)
                  (ChatSession.messages session)
              = ChatSession.messages session).
  { rewrite <- (map_id (ChatSession.messages session)) at 2.
    apply map_ext_in. intros m Im.
    destruct (Z.eqb (ChatMessage.id m) (clock 0%nat + 1)) eqn:E;
      [|reflexivity].
    apply Z.eqb_eq in E. exfalso. exact (Fresh m Im E). }
  rewrite K. f_equal. cbn [map ChatMessage.id ChatMessage.make
    ChatMessage.with_isLoading].
  rewrite Z.eqb_refl. destruct (Z.eqb (clock 1%nat) (clock 0%nat + 1));
    reflexivity.
Qed.

(* ------------------------------------------------------------------ *)
(** *** The text sent to the chat *)
(* ------------------------------------------------------------------ *)

Lemma fold_left_wrap (A : Type) (header : A -> jsstring) (l : list A)
    (base : jsstring) :
  fold_left (fun promptText f => header f ++ promptText) l base
  = concat (map header (rev l)) ++ base.
Proof.
  revert base. induction l as [|f l IH]; intros base; [reflexivity|].
  cbn [fold_left rev]. rewrite IH, map_app, concat_app. cbn [map concat].
  rewrite app_nil_r, <- app_assoc. reflexivity.
Qed.

Lemma fold_left_ext (A B : Type) (f g : A -> B -> A) :
  (forall a b, f a b = g a b) ->
  forall l a, fold_left f l a = fold_left g l a.
Proof.
  intros E l. induction l as [|b l IH]; intros a; [reflexivity|].
  cbn [fold_left]. rewrite E. apply IH.
Qed.

(** X27.  The text sent to the chat ends with the request itself, the
    prompt of the chip when it has one and the typed text otherwise,
    word for word; with a known position the request stands between
    quotation marks, one right before it and one right after it, at the
    end of the sentence that gives the position.  The content of every
    text file of the submission stands before it, unchanged.  Without a
    position and without text files the text sent is the request
    alone. *)
Theorem prompt_text_keeps_request (payload : Payload.t) (st : AppState) :
  let request :=
    match Payload.prompt payload with
    | Some ((_ :: _) as prompt) => prompt
    | _ => Payload.text payload
    end in
  let textFiles :=
    filter (fun f => str_eqb (UploadedFile.mimeType f) (lit "text/plain"))
           (Payload.files payload) in
  let quote :=
    match userLocation st with Some _ => [34]%N | None => [] end in
  let position :=
    match userLocation st with
    | Some loc =>
        lit "My current location is latitude: " ++ latitude loc
        ++ lit ", longitude: " ++ longitude loc
        ++ lit ". Please use this for any location-based queries."
        ++ [10; 10]%N ++ lit "My request: "
    | None => []
    end in
  (exists context,
     promptText payload st =
       context ++ position ++ quote ++ request ++ quote /\
     forall f, In f textFiles ->
       exists head tail, context = head ++ UploadedFile.data f ++ tail) /\
  match userLocation st, textFiles with
  | None, [] => promptText payload st = request
  | _, _ => True
  end.
Proof.
  cbv zeta. unfold promptText.
  set (request := match Payload.prompt payload with
                  | Some ((_ :: _) as prompt) => prompt
                  | _ => Payload.text payload
                  end).
  set (textFiles := filter _ (Payload.files payload)).
  set (header := fun f : UploadedFile.t =>
         lit "Context from file " ++ [34]%N ++ UploadedFile.name f
         ++ [34; 58; 10]%N ++ UploadedFile.data f
         ++ [10; 10]%N ++ lit "My question: ").
  rewrite (fold_left_ext _ _ _
             (fun promptText f => header f ++ promptText))
    by (intros p f; unfold header; repeat rewrite <- app_assoc;
        reflexivity).
  rewrite fold_left_wrap.
  assert (H : forall f, In f textFiles ->
            exists head tail,
              concat (map header (rev textFiles))
              = head ++ UploadedFile.data f ++ tail).
  { intros f If. apply in_rev in If. apply in_split in If.
    destruct If as (before & after & E). rewrite E, map_app, concat_app.
    cbn [map concat]. unfold header at 2.
    exists (concat (map header before)
            ++ lit "Context from file " ++ [34]%N ++ UploadedFile.name f
            ++ [34; 58; 10]%N),
           (([10; 10]%N ++ lit "My question: ")
            ++ concat (map header after)).
    repeat rewrite <- app_assoc. reflexivity. }
  split.
  - exists (concat (map header (rev textFiles))). split; [|exact H].
    destruct (userLocation st) as [loc|].
    + repeat rewrite <- app_assoc. reflexivity.
    + rewrite app_nil_r. reflexivity.
  - destruct (userLocation st); [exact I|].
    destruct textFiles; [reflexivity | exact I].
Qed.

End Handlers.

End HandlerFacts.

(* ================================================================== *)
(** ** The transcript of a live conversation *)
(* ================================================================== *)

Module TranscriptFacts.

Import Transcript.

(** A later transcript extends an earlier one: no turn is dropped, the
    turns before the last are untouched, and a turn that is final stays
    final with the words of the user it had. *)
Local Abbreviation extends l l' :=
  (length l <= length l' /\
   forall i turn, nth_error l i = Some turn ->
     (S i < length l -> nth_error l' i = Some turn) /\
     (Turn.isFinal turn = true ->
      exists turn', nth_error l' i = Some turn' /\
                    Turn.user turn' = Turn.user turn /\
                    Turn.isFinal turn' = true)).

Lemma extends_refl (l : list Turn.t) : extends l l.
Proof.
  split; [lia|]. intros i turn H. split; [auto|].
  intros F. exists turn. auto.
Qed.

Lemma extends_trans (l1 l2 l3 : list Turn.t) :
  extends l1 l2 -> extends l2 l3 -> extends l1 l3.
Proof.
  intros [L1 H1] [L2 H2]. split; [lia|].
  intros i turn H. destruct (H1 i turn H) as [A B]. split.
  - intros Lt. destruct (H2 i turn (A Lt)) as [A' _]. apply A'. lia.
  - intros F. destruct (B F) as (t' & N' & U' & F').
    destruct (H2 i t' N') as [_ B']. destruct (B' F') as (t'' & N'' & U'' & F'').
    exists t''. rewrite U'', U'. auto.
Qed.

Lemma extends_app (l : list Turn.t) (turn : Turn.t) : extends l (l ++ [turn]).
Proof.
  split; [rewrite length_app; simpl; lia|].
  intros i t H.
  assert (N : nth_error (l ++ [turn]) i = Some t).
  { rewrite nth_error_app1; [exact H|]. apply nth_error_Some. congruence. }
  split; [auto|]. intros F. exists t. auto.
Qed.

Lemma onLast_length (f : Turn.t -> Turn.t) (l : list Turn.t) :
  length (onLast f l) = length l.
Proof.
  induction l as [|t [|t' l] IH]; try reflexivity.
  change (S (length (onLast f (t' :: l))) = S (length (t' :: l))).
  rewrite IH. reflexivity.
Qed.

Lemma onLast_snoc (f : Turn.t -> Turn.t) (l : list Turn.t) (t : Turn.t) :
  onLast f (l ++ [t]) = l ++ [f t].
Proof.
  induction l as [|x l IH]; [reflexivity|].
  change (onLast f (x :: (l ++ [t])) = x :: (l ++ [f t])).
  rewrite <- IH. destruct (l ++ [t]) eqn:E; [|reflexivity].
  destruct l; discriminate.
Qed.

Lemma lastTurn_snoc (l : list Turn.t) (t : Turn.t) :
  lastTurn (l ++ [t]) = Some t.
Proof. unfold lastTurn. rewrite rev_app_distr. reflexivity. Qed.

Lemma lastTurn_cases (l : list Turn.t) :
  l = [] \/ exists front t, l = front ++ [t].
Proof.
  destruct l as [|x l] using rev_ind; [left; reflexivity|].
  right. exists l, x. reflexivity.
Qed.

Lemma onLast_extends (f : Turn.t -> Turn.t) (l : list Turn.t) :
  (forall t, lastTurn l = Some t -> Turn.isFinal t = true ->
             Turn.user (f t) = Turn.user t /\ Turn.isFinal (f t) = true) ->
  extends l (onLast f l).
Proof.
  intros F. destruct (lastTurn_cases l) as [->|(front & t & ->)];
    [apply extends_refl|].
  rewrite onLast_snoc. rewrite lastTurn_snoc in F.
  split; [rewrite !length_app; simpl; lia|].
  intros i turn H. rewrite length_app. cbn [length].
  destruct (Nat.lt_ge_cases i (length front)) as [Lt|Ge].
  - rewrite nth_error_app1 in H by exact Lt.
    rewrite nth_error_app1 by exact Lt.
    split; [auto|]. intros Fi. exists turn. auto.
  - rewrite nth_error_app2 in H by exact Ge.
    rewrite nth_error_app2 by exact Ge.
    destruct (i - length front) as [|k] eqn:K.
    + cbn in H. injection H as <-. split; [lia|].
      intros Fi. exists (f t). destruct (F t eq_refl Fi). cbn. auto.
    + destruct k; discriminate.
Qed.

Lemma onmessage_extends (v : View) (content : ServerContent) :
  extends (transcription v) (transcription (onmessage v content)).
Proof.
  unfold onmessage.
  set (v1 := match inputTranscription content with
             | Some text => heard text v | None => v end).
  set (v2 := match outputTranscription content with
             | Some text => spoken text v1 | None => v1 end).
  assert (E1 : extends (transcription v) (transcription v1)).
  { subst v1. destruct (inputTranscription content) as [text|];
      [|apply extends_refl].
    unfold heard. cbn [transcription].
    destruct (lastTurn (transcription v)) as [[u b [|]]|] eqn:L;
      try apply extends_app.
    apply onLast_extends. intros t Lt Ft. rewrite L in Lt.
    injection Lt as <-. discriminate. }
  assert (E2 : extends (transcription v1) (transcription v2)).
  { subst v2. destruct (outputTranscription content) as [text|];
      [|apply extends_refl].
    unfold spoken. cbn [transcription]. apply onLast_extends.
    intros t _ Ft. cbn. auto. }
  assert (E3 : extends (transcription v2)
                 (transcription (if turnComplete content
                                 then completed v2 else v2))).
  { destruct (turnComplete content); [|apply extends_refl].
    unfold completed. cbn [transcription]. apply onLast_extends.
    intros t _ Ft. cbn. auto. }
  exact (extends_trans _ _ _ (extends_trans _ _ _ E1 E2) E3).
Qed.

(** All the turns before the last are final. *)
Local Abbreviation settled l :=
  (forall i turn, nth_error l i = Some turn -> S i < length l ->
                  Turn.isFinal turn = true).

Lemma onLast_settled (f : Turn.t -> Turn.t) (l : list Turn.t) :
  settled l -> settled (onLast f l).
Proof.
  intros S. destruct (lastTurn_cases l) as [->|(front & t & ->)];
    [exact S|].
  rewrite onLast_snoc. intros i turn H Lt.
  rewrite length_app in Lt. cbn [length] in Lt.
  rewrite nth_error_app1 in H by lia.
  apply (S i turn).
  - rewrite nth_error_app1 by lia. exact H.
  - rewrite length_app. cbn [length]. lia.
Qed.

Lemma onmessage_settled (v : View) (content : ServerContent) :
  settled (transcription v) ->
  settled (transcription (onmessage v content)).
Proof.
  intros S. unfold onmessage.
  set (v1 := match inputTranscription content with
             | Some text => heard text v | None => v end).
  assert (S1 : settled (transcription v1)).
  { subst v1. destruct (inputTranscription content) as [text|];
      [|exact S].
    unfold heard. cbn [transcription].
    destruct (lastTurn (transcription v)) as [[u b [|]]|] eqn:L.
    - intros i turn H Lt. rewrite length_app in Lt. cbn [length] in Lt.
      rewrite nth_error_app1 in H by lia.
      destruct (lastTurn_cases (transcription v))
        as [E|(front & t & E)]; rewrite E in *.
      + destruct i; discriminate.
      + rewrite lastTurn_snoc in L. injection L as ->.
        rewrite length_app in Lt. cbn [length] in Lt.
        destruct (Nat.lt_ge_cases i (length front)) as [Lf|Ge].
        * apply (S i turn); [exact H | rewrite length_app; simpl; lia].
        * rewrite nth_error_app2 in H by exact Ge.
          replace (i - length front) with 0 in H by lia.
          cbn in H. injection H as <-. reflexivity.
    - apply onLast_settled. exact S.
    - unfold lastTurn in L.
      destruct (rev (transcription v)) as [|x r] eqn:R; [|discriminate].
      apply (f_equal (@rev Turn.t)) in R. rewrite rev_involutive in R.
      rewrite R. intros i turn H Lt. cbn in Lt. lia. }
  assert (S2 : settled (transcription
                          (match outputTranscription content with
                           | Some text => spoken text v1 | None => v1 end))).
  { destruct (outputTranscription content) as [text|]; [|exact S1].
    apply onLast_settled. exact S1. }
  destruct (turnComplete content); [|exact S2].
  apply onLast_settled. exact S2.
Qed.

(** X16.  The transcript only grows.  Whatever messages arrive, no turn
    is dropped, the turns before the last one are never written again,
    and a turn that was marked final stays final and keeps the words of
    the user.  From the opening of the view on, every turn before the
    last is final. *)
Theorem transcript_keeps_finished_turns (contents : list ServerContent)
    (v : View) :
  let before := transcription v in
  let after := transcription (fold_left onmessage contents v) in
  length before <= length after /\
  (forall i turn, nth_error before i = Some turn ->
     (S i < length before -> nth_error after i = Some turn) /\
     (Turn.isFinal turn = true ->
      exists turn', nth_error after i = Some turn' /\
                    Turn.user turn' = Turn.user turn /\
                    Turn.isFinal turn' = true)) /\
  (forall i turn,
     nth_error (transcription (fold_left onmessage contents opened)) i
       = Some turn ->
     S i < length (transcription (fold_left onmessage contents opened)) ->
     Turn.isFinal turn = true).
Proof.
  cbv zeta.
  assert (E : extends (transcription v)
                (transcription (fold_left onmessage contents v))).
  { revert v. induction contents as [|c l IH]; intros v;
      [apply extends_refl|].
    simpl. eapply extends_trans; [apply onmessage_extends | apply IH]. }
  destruct E as [E1 E2]. split; [exact E1|]. split; [exact E2|].
  clear E1 E2.
  assert (S : forall w, settled (transcription w) ->
                settled (transcription (fold_left onmessage contents w))).
  { induction contents as [|c l IH]; intros w Sw; [exact Sw|].
    simpl. apply IH. apply onmessage_settled. exact Sw. }
  apply S. intros i turn H. destruct i; discriminate.
Qed.

Lemma last_cons_default (A : Type) (x d : A) (k : list A) :
  last (x :: k) d = last k x.
Proof.
  revert x d. induction k as [|z k IH]; intros x d; [reflexivity|].
  change (last (z :: k) d = last (z :: k) x).
  rewrite (IH z d), (IH z x). reflexivity.
Qed.

Lemma onmessage_open_turn (w : View) (content : ServerContent)
    (front : list Turn.t) (t : Turn.t) :
  transcription w = front ++ [t] -> Turn.isFinal t = false ->
  Turn.bot t = currentOutputTranscription w ->
  turnComplete content = false ->
  let w' := onmessage w content in
  let t' :=
    {| Turn.user := match inputTranscription content with
                    | Some text => text
                    | None => Turn.user t
                    end;
       Turn.bot := Turn.bot t ++ concat (outputs [content]);
       Turn.isFinal := false |} in
  transcription w' = front ++ [t'] /\
  Turn.bot t' = currentOutputTranscription w'.
Proof.
  intros T F B C. cbv zeta. unfold onmessage, outputs. rewrite C.
  cbn [flat_map]. rewrite app_nil_r.
  destruct t as [u b fin]. cbn in F, B. subst fin.
  destruct (inputTranscription content) as [text|];
    destruct (outputTranscription content) as [out|];
    unfold heard, spoken; cbn [transcription currentOutputTranscription];
    rewrite T, ?lastTurn_snoc, ?onLast_snoc; cbn;
    rewrite ?onLast_snoc, ?app_nil_r; cbn; subst b; auto.
Qed.

(** X17.  One turn of the conversation.  Start where a turn has just
    been completed, or where the view has just opened.  Let messages
    arrive of which none completes the turn and the first carries a
    transcription of the user.  Then the transcript is what it was, with
    one more turn, not final: its user text is the input transcription
    that came last, its bot text the output transcriptions that came,
    joined in their order. *)
Theorem transcript_of_a_turn (v : View) (first : ServerContent)
    (more : list ServerContent) (text : option jsstring) :
  currentOutputTranscription v = [] ->
  match lastTurn (transcription v) with
  | Some last => Turn.isFinal last = true
  | None => True
  end ->
  inputTranscription first = Some text ->
  forallb (fun c => negb (turnComplete c)) (first :: more) = true ->
  transcription (fold_left onmessage (first :: more) v) =
    transcription v ++
    [{| Turn.user := last (inputs more) text;
        Turn.bot := concat (outputs (first :: more));
        Turn.isFinal := false |}].
Proof.
  intros O L I C. cbn [forallb] in C. apply andb_true_iff in C.
  destruct C as [C1 C2]. apply negb_true_iff in C1.
  assert (G : forall (l : list ServerContent) (w : View) (t : Turn.t),
            forallb (fun c => negb (turnComplete c)) l = true ->
            transcription w = transcription v ++ [t] ->
            Turn.isFinal t = false ->
            Turn.bot t = currentOutputTranscription w ->
            transcription (fold_left onmessage l w) =
              transcription v ++
              [{| Turn.user := last (inputs l) (Turn.user t);
                  Turn.bot := Turn.bot t ++ concat (outputs l);
                  Turn.isFinal := false |}]).
  { induction l as [|c l IH]; intros w t Cl T F B.
    - cbn. rewrite app_nil_r, T. destruct t as [u b fin]. cbn in F.
      subst fin. reflexivity.
    - cbn [forallb] in Cl. apply andb_true_iff in Cl.
      destruct Cl as [Cc Cl]. apply negb_true_iff in Cc.
      destruct (onmessage_open_turn w c _ t T F B Cc) as [T' B'].
      cbn [fold_left]. rewrite (IH _ _ Cl T' eq_refl B').
      cbn [Turn.user Turn.bot].
      assert (U : last (inputs (c :: l)) (Turn.user t)
                  = last (inputs l)
                      (match inputTranscription c with
                       | Some text => text
                       | None => Turn.user t
                       end)).
      { unfold inputs. cbn [flat_map].
        destruct (inputTranscription c) as [x|]; [|reflexivity].
        cbn [app]. apply last_cons_default. }
      assert (Bq : Turn.bot t ++ concat (outputs (c :: l))
                   = (Turn.bot t ++ concat (outputs [c]))
                     ++ concat (outputs l)).
      { unfold outputs. cbn [flat_map].
        rewrite app_nil_r, concat_app, app_assoc. reflexivity. }
      rewrite U, Bq. reflexivity. }
  cbn [fold_left].
  assert (H : transcription (onmessage v first) =
              transcription v ++
              [{| Turn.user := text;
                  Turn.bot := concat (outputs [first]);
                  Turn.isFinal := false |}] /\
              concat (outputs [first])
              = currentOutputTranscription (onmessage v first)).
  { unfold onmessage, outputs. rewrite I, C1. cbn [flat_map].
    rewrite app_nil_r.
    assert (Hd : transcription (heard text v) =
                 transcription v ++
                 [{| Turn.user := text; Turn.bot := [];
                     Turn.isFinal := false |}]).
    { unfold heard. cbn [transcription].
      destruct (lastTurn (transcription v)) as [[u b [|]]|];
        [reflexivity | discriminate | reflexivity]. }
    destruct (outputTranscription first) as [out|].
    - unfold spoken. cbn [transcription currentOutputTranscription].
      rewrite Hd, onLast_snoc. cbn. rewrite O, app_nil_r. auto.
    - rewrite Hd. cbn. rewrite O. auto. }
  destruct H as [H1 H2].
  rewrite (G more _ _ C2 H1 eq_refl H2). cbn [Turn.user Turn.bot].
  unfold outputs. cbn [flat_map]. rewrite app_nil_r, concat_app.
  reflexivity.
Qed.

End TranscriptFacts.

(* ================================================================== *)
(** ** The audio nodes of the playback *)
(* ================================================================== *)

Module PlaybackFacts.

Import LiveAudio LiveAudioFacts Playback.

Section Clock.

Variable time : Type.
Variable tzero : time.
Variable tadd : time -> time -> time.
Variable tleb : time -> time -> bool.
Variable duration : N -> time.

Local Abbreviation Player := (Player time).
Local Abbreviation onmessage := (onmessage tzero tadd tleb duration).
Local Abbreviation step := (step tzero tadd tleb duration).
Local Abbreviation run := (run tzero tadd tleb duration).
Local Abbreviation interrupt := (interrupt tzero).
Local Abbreviation wellTracked := (@wellTracked time).
Local Abbreviation nodes p := (map (@node time) (started p)).

Lemma stopAll_stopped_eq (l : list nat) (p : Player) :
  stopped (fold_left (@stopAndDelete time) l p) = rev l ++ stopped p.
Proof.
  revert p. induction l as [|y l IH]; intros p; [reflexivity|].
  simpl. rewrite IH. simpl. rewrite <- app_assoc. reflexivity.
Qed.

Lemma interrupt_tracked (p : Player) :
  wellTracked p -> wellTracked (interrupt p).
Proof.
  intros (S1 & S2 & S3 & S4 & S5 & S6).
  destruct (stopAll_frame time (sources p) p) as [F1 F2].
  pose proof (stopAll_stopped_eq (sources p) p) as F3.
  pose proof (stopAll_sources time (sources p) p (fun x H => H)) as F4.
  unfold Playback.wellTracked, LiveAudio.interrupt.
  cbn [sources started stopped created]. rewrite F1, F2, F3, F4.
  split; [constructor|]. split; [exact S2|]. split; [|split; [exact S4|split]].
  - apply NoDup_app.
    + apply NoDup_rev. exact S1.
    + exact S3.
    + intros x I. apply in_rev in I. apply (S5 x I).
  - intros x [].
  - intros x I. apply in_app_or in I. destruct I as [I|I].
    + apply in_rev in I. apply (S5 x I).
    + apply (S6 x I).
Qed.

Lemma afterAudio_tracked (m : LiveServerMessage) (p : Player) :
  wellTracked p -> wellTracked (afterAudio tzero m p).
Proof.
  intros W. unfold afterAudio. destruct (interrupted m);
    [apply interrupt_tracked|]; exact W.
Qed.

Lemma step_tracked (p : Player) (e : Event time) :
  wellTracked p -> wellTracked (step p e).
Proof.
  intros W. destruct e as [now m|source]; cbn [LiveAudio.step].
  - unfold LiveAudio.onmessage.
    destruct (base64EncodedAudioString m) as [[[|c b]|]|]; cbn [fst];
      try (apply afterAudio_tracked; exact W); [|exact W].
    destruct (Base64.decode (c :: b)) as [bytes|]; cbn [fst]; [|exact W].
    destruct (decodeAudioData bytes) as [frames|]; cbn [fst]; [|exact W].
    apply afterAudio_tracked.
    destruct W as (S1 & S2 & S3 & S4 & S5 & S6).
    assert (Fresh : ~ In (created p) (nodes p)).
    { intros I. apply S4 in I. lia. }
    assert (A : setAdd (created p) (sources p) = sources p ++ [created p]).
    { unfold setAdd. destruct (existsb _ (sources p)) eqn:E; [|reflexivity].
      apply existsb_exists in E. destruct E as (y & I & E).
      apply Nat.eqb_eq in E. subst y. exfalso. apply Fresh.
      apply (S5 _ I). }
    unfold Playback.wellTracked.
    cbn [sources started stopped created map node]. rewrite A.
    split; [|split; [|split; [exact S3|split; [|split]]]].
    + apply NoDup_app; [exact S1 | constructor; [intros []|constructor] |].
      intros x I [<-|[]]. apply Fresh. apply (S5 _ I).
    + constructor; assumption.
    + intros x [<-|I]; [lia|]. apply S4 in I. lia.
    + intros x I. apply in_app_or in I. destruct I as [I|[<-|[]]].
      * destruct (S5 x I) as [I1 I2]. split; [right; exact I1 | exact I2].
      * split; [left; reflexivity|]. intros I. apply Fresh. apply (S6 _ I).
    + intros x I. right. apply (S6 x I).
  - destruct W as (S1 & S2 & S3 & S4 & S5 & S6).
    unfold Playback.wellTracked, onended.
    cbn [sources started stopped created].
    split; [apply NoDup_filter; exact S1|].
    split; [exact S2|]. split; [exact S3|]. split; [exact S4|].
    split; [|exact S6].
    intros x I. unfold setDelete in I. apply filter_In in I.
    apply (S5 x (proj1 I)).
Qed.

(** X18.  However messages and ended events follow one another from the
    opening of the view, the bookkeeping of the audio nodes stays sound:
    no node is started twice, none is stopped twice, a node is stopped
    only after it was started, and the tracked set holds each of its
    nodes once, all of them started and none of them stopped. *)
Theorem playback_nodes_tracked (events : list (Event time)) :
  wellTracked (run events (initial tzero)).
Proof.
  assert (G : forall p, wellTracked p -> wellTracked (run events p)).
  { induction events as [|e l IH]; intros p W; [exact W|].
    apply IH. apply step_tracked. exact W. }
  apply G. unfold Playback.wellTracked, initial. cbn.
  split; [constructor|]. split; [constructor|]. split; [constructor|].
  split; [intros x []|]. split; intros x [].
Qed.

Lemma strip_padding_keeps (d : list N) (ch : N) :
  In ch d -> ch <> Base64.pad -> In ch (Base64.strip_padding d).
Proof.
  intros I P. unfold Base64.strip_padding.
  destruct (rev d) as [|p1 [|p2 r]] eqn:R; [exact I | |].
  - destruct (N.eqb_spec p1 Base64.pad) as [E|E]; [|exact I].
    apply in_rev in I. rewrite R in I. destruct I as [<-|[]].
    contradiction.
  - destruct (N.eqb_spec p1 Base64.pad) as [E1|E1]; [|exact I].
    apply in_rev in I. rewrite R in I.
    destruct I as [<-|I]; [contradiction|].
    destruct (N.eqb_spec p2 Base64.pad) as [E2|E2].
    + destruct I as [<-|I]; [contradiction|]. apply in_rev in I. exact I.
    + rewrite <- in_rev. exact I.
Qed.

Lemma sextets_foreign (d : list N) (ch : N) :
  In ch d -> Base64.in_alphabet ch = false -> Base64.sextets d = None.
Proof.
  intros I A. induction d as [|x d IH]; [destruct I|].
  cbn [Base64.sextets]. destruct I as [->|I].
  - unfold Base64.in_alphabet in A.
    destruct (Base64.dec6 ch); [discriminate | reflexivity].
  - rewrite (IH I). destruct (Base64.dec6 x); reflexivity.
Qed.

(** A text with a character that is neither of the base64 alphabet,
    nor white space, nor the padding sign does not decode. *)
Lemma decode_foreign (base64 : jsstring) (ch : N) :
  In ch base64 -> Base64.in_alphabet ch = false ->
  Base64.isAsciiWhitespace ch = false -> ch <> Base64.pad ->
  Base64.decode base64 = None.
Proof.
  intros I A W P. unfold Base64.decode, Base64.atob.
  set (d0 := filter _ base64).
  assert (I0 : In ch d0).
  { subst d0. apply filter_In. rewrite W. auto. }
  set (d := if (N.of_nat (length d0) mod 4 =? 0)%N
            then Base64.strip_padding d0 else d0).
  assert (Id : In ch d).
  { subst d. destruct (N.of_nat (length d0) mod 4 =? 0)%N;
      [apply strip_padding_keeps; assumption | exact I0]. }
  destruct (N.of_nat (length d) mod 4 =? 1)%N; [reflexivity|].
  rewrite (sextets_foreign d ch Id A). reflexivity.
Qed.

(** X19.  A clip with a character outside the base64 alphabet (the
    signs [-] and [_] of the URL-safe alphabet, say) cannot be decoded:
    the handler has raised the next start time to the clock, and
    throws.  No node is created, started or stopped, the tracked set is
    as it was, and an interruption signalled by the same message is not
    carried out. *)
Theorem undecodable_clip_stops_handler (now : time)
    (m : LiveServerMessage) (p : Player) (base64 : jsstring) (ch : N) :
  audio m = Some base64 ->
  In ch base64 ->
  Base64.in_alphabet ch = false ->
  Base64.isAsciiWhitespace ch = false ->
  ch <> Base64.pad ->
  onmessage now m p =
    ({| nextStartTime := tmax tleb (nextStartTime p) now;
        sources := sources p; created := created p;
        started := started p; stopped := stopped p |}, Threw).
Proof.
  intros A I B W P. unfold LiveAudio.onmessage.
  rewrite (audio_read m _ A).
  destruct base64 as [|c b]; [destruct I|].
  rewrite (decode_foreign (c :: b) ch I B W P). reflexivity.
Qed.

End Clock.

End PlaybackFacts.

(* ================================================================== *)
(** ** The samples of the live audio *)
(* ================================================================== *)

Module PcmFacts.

Import Pcm.
Import QArith_base.

Lemma list_ind3_pairs (A : Type) (P : list A -> Prop) :
  P [] -> (forall a, P [a]) ->
  (forall a b l, P l -> P (a :: b :: l)) ->
  forall l, P l.
Proof.
  intros H0 H1 H2.
  assert (G : forall l, P l /\ forall a, P (a :: l)).
  { induction l as [|x l [IH1 IH2]]; split; auto. }
  intros l. apply G.
Qed.

Lemma to_N_to_uint8 (c : N) : Byte.to_N (Base64.to_uint8 c) = (c mod 256)%N.
Proof.
  unfold Base64.to_uint8.
  destruct (Byte.of_N (c mod 256)) as [b|] eqn:E.
  - apply Byte.to_of_N. exact E.
  - apply Byte.of_N_None_iff in E.
    pose proof (N.mod_upper_bound c 256). lia.
Qed.

Lemma toInt16_range (n : Z) : (-32768 <= toInt16 n < 32768)%Z.
Proof.
  unfold toInt16. destruct (Z.ltb_spec (n mod 65536) 32768); lia.
Qed.

Lemma toInt16_small (n : Z) :
  (-32768 <= n < 32768)%Z -> toInt16 n = n.
Proof.
  intros H. unfold toInt16.
  destruct (Z.ltb_spec (n mod 65536) 32768); lia.
Qed.

Lemma int16_bytesOf (s : Z) :
  dataInt16 (bytesOf s) = [toInt16 s].
Proof.
  unfold bytesOf. cbn [dataInt16]. f_equal. unfold int16, toInt16.
  rewrite !to_N_to_uint8.
  set (u := (s mod 65536)%Z).
  assert (U : (0 <= u < 65536)%Z) by (subst u; lia).
  assert (A : (Z.of_N (Z.to_N (u mod 256) mod 256)
               + 256 * Z.of_N (Z.to_N (u / 256) mod 256) = u)%Z).
  { rewrite !N2Z.inj_mod, !Z2N.id by lia.
    change (Z.of_N 256) with 256%Z. lia. }
  rewrite A. reflexivity.
Qed.

Lemma dataInt16_pcmBytes (inputData : list Sample) :
  dataInt16 (pcmBytes inputData) = map quantize inputData /\
  length (pcmBytes inputData) = (2 * length inputData)%nat.
Proof.
  induction inputData as [|x l [IH1 IH2]]; [split; reflexivity|].
  unfold pcmBytes in *. cbn [flat_map map length].
  split.
  - change (bytesOf (quantize x)) with
      [Base64.to_uint8 (Z.to_N ((quantize x mod 65536) mod 256));
       Base64.to_uint8 (Z.to_N ((quantize x mod 65536) / 256))].
    cbn [app dataInt16]. rewrite IH1. f_equal.
    pose proof (int16_bytesOf (quantize x)) as B. unfold bytesOf in B.
    cbn [dataInt16] in B. injection B as B. rewrite B.
    apply toInt16_small. apply toInt16_range.
  - rewrite length_app, IH2. cbn [bytesOf length]. lia.
Qed.

Lemma quantize_bounds (x : Sample) :
  (-(1) <= x)%Q -> (x < 1)%Q ->
  quantize x = truncate (x * (32768 # 1)) /\
  (x - (1 # 32768) < quantize x # 32768)%Q /\
  (quantize x # 32768 < x + (1 # 32768))%Q.
Proof.
  destruct x as [n d]. unfold Qminus. unfold Qle, Qlt, quantize, truncate,
    Qmult, Qplus, Qopp. cbn [Qnum Qden]. intros L U.
  rewrite Pos.mul_1_r.
  set (t := Z.quot (n * 32768) (Zpos d)).
  assert (T : (-32768 <= t < 32768)%Z /\
              (n * 32768 - Zpos d < t * Zpos d < n * 32768 + Zpos d)%Z).
  { subst t.
    pose proof (Z.quot_rem' (n * 32768) (Zpos d)) as E.
    pose proof (Pos2Z.is_pos d) as D.
    destruct (Z.le_gt_cases 0 (n * 32768)) as [P|P].
    - pose proof (Z.rem_bound_pos (n * 32768) (Zpos d) P D) as R. nia.
    - pose proof (Z.rem_bound_pos_neg (n * 32768) (Zpos d) D
                    (Z.lt_le_incl _ _ P)) as R.
      nia. }
  rewrite (toInt16_small t (proj1 T)). split; [reflexivity|].
  clearbody t. destruct T as [_ T]. rewrite !Pos2Z.inj_mul. nia.
Qed.

Lemma int16_range (lo hi : byte) : (-32768 <= int16 lo hi < 32768)%Z.
Proof.
  unfold int16. pose proof (Byte.to_N_bounded lo).
  pose proof (Byte.to_N_bounded hi).
  destruct (Z.ltb_spec (Z.of_N (Byte.to_N lo)
                        + 256 * Z.of_N (Byte.to_N hi)) 32768); lia.
Qed.

Lemma dataInt16_spec (data : list byte) :
  (2 * length (dataInt16 data) + Nat.b2n (Nat.odd (length data))
   = length data)%nat /\
  Forall (fun s => (-32768 <= s < 32768)%Z) (dataInt16 data).
Proof.
  induction data as [|lo|lo hi rest IH] using (list_ind3_pairs byte);
    cbn [dataInt16 length].
  - split; [reflexivity | constructor].
  - split; [reflexivity | constructor].
  - destruct IH as [I1 I2]. split.
    + change (Nat.odd (S (S (length rest)))) with (Nat.odd (length rest)).
      lia.
    + constructor; [apply int16_range | exact I2].
Qed.

(** X20.  The samples that [decodeAudioData] hands to the audio buffer.
    A clip of an even, positive number of bytes gives half as many
    samples, each a sixteen-bit little-endian integer over 32768, hence
    no less than -1 and less than 1.  An empty clip and a clip of an odd
    number of bytes give no buffer: the function throws. *)
Theorem decoded_samples_in_range (data : list byte) :
  match channelData data with
  | Some samples =>
      data <> [] /\ (2 * length samples = length data)%nat /\
      LiveAudio.decodeAudioData data = Some (N.of_nat (length samples)) /\
      Forall (fun x => (-(1) <= x)%Q /\ (x < 1)%Q) samples
  | None => data = [] \/ Nat.odd (length data) = true
  end.
Proof.
  unfold channelData, LiveAudio.decodeAudioData.
  destruct (dataInt16_spec data) as [L R].
  destruct (Nat.odd (length data)) eqn:O.
  - assert (M : (N.of_nat (length data) mod 2 =? 0)%N = false).
    { apply N.eqb_neq. cbn [Nat.b2n] in L. lia. }
    rewrite M. cbn [negb]. right. reflexivity.
  - cbn [Nat.b2n] in L.
    assert (M : (N.of_nat (length data) mod 2 =? 0)%N = true).
    { apply N.eqb_eq. lia. }
    rewrite M. cbn [negb].
    destruct (N.eqb_spec (N.of_nat (length data) / 2) 0) as [Z|Z].
    + left. destruct data; [reflexivity|]. cbn [length] in *. lia.
    + rewrite length_map. split; [intros ->; cbn in Z; lia|].
      split; [lia|]. split; [f_equal; lia|].
      apply Forall_forall. intros x I. apply in_map_iff in I.
      destruct I as (s & <- & I). rewrite Forall_forall in R.
      apply R in I. unfold Qle, Qlt, Qopp. cbn [Qnum Qden]. lia.
Qed.

(** X21.  The microphone path.  Each sample is multiplied by 32768,
    cut to its integer part and stored in sixteen bits; the bytes are
    sent in base64.  The text sent always decodes, by [decode] and
    [decodeAudioData], to as many samples as were captured, the i-th
    being the stored integer over 32768.  For a sample of at least -1
    and below 1 this is less than 1/32768 away from the sample.  A
    sample of exactly 1 does not fit in sixteen bits: it wraps to
    -32768, that is to -1. *)
Theorem captured_frame_is_decodable (inputData : list Sample) :
  inputData <> [] ->
  (exists data,
     pcmBlobData inputData = Some data /\
     match Base64.decode data with
     | Some bytes => channelData bytes
     | None => None
     end = Some (map (fun x => quantize x # 32768) inputData)) /\
  (forall x, In x inputData -> (-(1) <= x)%Q -> (x < 1)%Q ->
     (x - (1 # 32768) < quantize x # 32768)%Q /\
     (quantize x # 32768 < x + (1 # 32768))%Q) /\
  quantize (1 # 1) = (-32768)%Z.
Proof.
  intros NE. split; [|split; [|reflexivity]].
  - unfold pcmBlobData, Base64.encode.
    destruct (Base64Facts.atob_btoa _
                (Base64Facts.bytes_bounded (pcmBytes inputData)))
      as [E D].
    eexists. split; [exact E|].
    unfold Base64.decode. rewrite D, map_map.
    assert (I : map (fun x => Base64.to_uint8 (Byte.to_N x))
                    (pcmBytes inputData) = pcmBytes inputData).
    { rewrite <- (map_id (pcmBytes inputData)) at 2.
      apply map_ext. exact Base64Facts.to_uint8_to_N. }
    rewrite I. destruct (dataInt16_pcmBytes inputData) as [P1 P2].
    unfold channelData, LiveAudio.decodeAudioData. rewrite P1, P2.
    assert (M : (N.of_nat (2 * length inputData) mod 2 =? 0)%N = true).
    { apply N.eqb_eq. lia. }
    rewrite M. cbn [negb].
    destruct (N.eqb_spec (N.of_nat (2 * length inputData) / 2) 0) as [Z|Z].
    + destruct inputData; [contradiction|]. cbn [length] in Z. lia.
    + rewrite map_map. reflexivity.
  - intros x _ L U. apply (quantize_bounds x L U).
Qed.

End PcmFacts.

(* ================================================================== *)
(** ** Video generation: what a result tells *)
(* ================================================================== *)

Module VideoFacts.

Import Backend.

Section Video.

Variable API_KEY : jsstring.

Local Abbreviation generateVideo := (Backend.generateVideo API_KEY).
Local Abbreviation pollUntilDone := (Backend.pollUntilDone API_KEY).
Local Abbreviation download := (Backend.download API_KEY).

Lemma pollUntilDone_sound (backend : VideoBackend) (fuel n : nat)
    (operation : Operation) (outcome : Outcome jsstring) :
  seen backend n = Fulfilled operation ->
  pollUntilDone backend fuel n operation = Some outcome ->
  exists k,
    n <= k <= n + fuel /\
    (forall j, n <= j < k ->
       exists op, seen backend j = Fulfilled op /\ opDone op = false) /\
    match seen backend k with
    | Rejected e => outcome = Rejected e
    | Fulfilled op => opDone op = true /\ outcome = download op
    end.
Proof.
  revert n operation. induction fuel as [|fuel IH]; intros n operation Sn P.
  - cbn in P. destruct (opDone operation) eqn:D; [|discriminate].
    injection P as <-. exists n. split; [lia|]. split; [intros j J; lia|].
    rewrite Sn. auto.
  - cbn in P. destruct (opDone operation) eqn:D.
    + injection P as <-. exists n. split; [lia|].
      split; [intros j J; lia|]. rewrite Sn. auto.
    + destruct (polled backend n) as [operation'|e] eqn:Q.
      * destruct (IH (S n) operation' Q P) as (k & K1 & K2 & K3).
        exists k. split; [lia|]. split; [|exact K3].
        intros j J. destruct (Nat.eq_dec j n) as [->|Nj].
        -- exists operation. auto.
        -- apply K2. lia.
      * injection P as <-. exists (S n). split; [lia|]. split.
        -- intros j J. assert (j = n) as -> by lia. exists operation. auto.
        -- cbn [seen]. rewrite Q. reflexivity.
Qed.

(** X22.  What a settled [generateVideo] tells about the backend.  The
    operation was looked at some number of times, not done each time
    but the last.  A rejection of the last look is handed on as it is.
    A last look at a done operation gives its link followed by [&key=]
    and the API key; when the operation has no link, or an empty one,
    the call rejects with the error of the missing link.  The call
    never fulfils without a link and never polls a done operation. *)
Theorem generateVideo_result (backend : VideoBackend) (fuel : nat)
    (outcome : Outcome jsstring) :
  generateVideo backend fuel = Some outcome ->
  exists looks,
    looks <= fuel /\
    (forall j, j < looks ->
       exists op, seen backend j = Fulfilled op /\ opDone op = false) /\
    match seen backend looks with
    | Rejected e => outcome = Rejected e
    | Fulfilled op =>
        opDone op = true /\
        match resultUri op with
        | Some (c :: link) =>
            outcome = Fulfilled ((c :: link) ++ lit "&key=" ++ API_KEY)
        | _ =>
            outcome = Rejected (ErrorObject (lit
              "Video generation completed but no download link was found."))
        end
    end.
Proof.
  unfold Backend.generateVideo. intros G.
  destruct (submitted backend) as [operation|e] eqn:S.
  - destruct (pollUntilDone_sound backend fuel 0 operation outcome S G)
      as (k & K1 & K2 & K3).
    exists k. split; [lia|]. split; [intros j J; apply K2; lia|].
    destruct (seen backend k) as [op|e]; [|exact K3].
    destruct K3 as [K3 ->]. split; [exact K3|].
    unfold Backend.download. destruct (resultUri op) as [[|c link]|];
      reflexivity.
  - injection G as <-. exists 0. split; [lia|].
    split; [intros j J; lia|]. cbn [seen]. rewrite S. reflexivity.
Qed.

End Video.

End VideoFacts.

(* ================================================================== *)
(** ** The chat window, its input, and the copy of a message *)
(* ================================================================== *)

Module WindowFacts.

Import Store StoreFacts App AppFacts.

Lemma switchTarget_language (LANGUAGES : list Language.t)
    (toLowerCase : jsstring -> jsstring) (canonicalize : N -> N)
    (text : jsstring) (s s' : ChatSession.t) :
  ChatSession.languageCode s' = ChatSession.languageCode s ->
  switchTarget LANGUAGES toLowerCase canonicalize text s'
  = switchTarget LANGUAGES toLowerCase canonicalize text s.
Proof. intros E. unfold switchTarget. rewrite E. reflexivity. Qed.

Section Handlers.

Variable LANGUAGES : list Language.t.
Variable ART_STYLES : list jsstring.
Variable TRIP_PLAN_PROMPT : jsstring -> option jsstring.
Variable toLowerCase : jsstring -> jsstring.
Variable canonicalize : N -> N.

Local Abbreviation handleSendMessage :=
  (handleSendMessage LANGUAGES ART_STYLES TRIP_PLAN_PROMPT toLowerCase
     canonicalize).
Local Abbreviation switchTarget :=
  (switchTarget LANGUAGES toLowerCase canonicalize).

(** X23.  After a request for an image the window is out of its initial
    state and offers one chip for each art style, in the order of the
    list; a click on a chip submits the name of its style, and this
    submission, when it is no request to change the language, starts
    the generation of the pending prompt in that style and clears the
    pending prompt. *)
Theorem style_chips_start_generation (text style : jsstring)
    (clock clock' : nat -> Z) (st : AppState) (c : N) (sid : jsstring)
    (session : ChatSession.t) :
  activeSessionId st = Some (c :: sid) ->
  findSession (c :: sid) (sessions st) = Some session ->
  text <> [] ->
  In style ART_STYLES ->
  trim style <> [] ->
  switchTarget style session = None ->
  let st1 := fst (askArtStyle ART_STYLES (c :: sid) text clock st) in
  let messages := messagesOf (c :: sid) st1 in
  ChatWindow.isInitialState messages = false /\
  ChatWindow.chips messages =
    map (fun style => {| Suggestion.text := style;
                         Suggestion.icon := PaletteIcon;
                         Suggestion.prompt := None |})
        ART_STYLES /\
  exists chip settle,
    In chip (ChatWindow.chips messages) /\
    Suggestion.text chip = style /\
    snd (handleSendMessage clock' (ChatWindow.chipPayload chip) st1) =
      Some (GenerateImage
              (lit "A " ++ toLowerCase style ++ lit " of: " ++ text)
              settle) /\
    pendingImagePrompt
      (fst (handleSendMessage clock' (ChatWindow.chipPayload chip) st1))
    = None.
Proof.
  intros A F T I B W. cbv zeta. unfold askArtStyle. cbn [fst].
  set (st0 := setPendingImagePrompt (Some text) st).
  set (f := dropWelcome _).
  assert (F0 : findSession (c :: sid) (sessions st0) = Some session)
    by exact F.
  destruct (messagesOf_update (c :: sid) f st0 session F0) as [F1 M].
  rewrite M. unfold messagesOf. rewrite F0.
  set (chipsOf := map (fun style => {| Suggestion.text := style;
                                        Suggestion.icon := PaletteIcon;
                                        Suggestion.prompt := None |})
                      ART_STYLES).
  set (kept := filter (fun m => negb (ChatMessage.flag
                                         (ChatMessage.isWelcome m)))
                      (ChatSession.messages session)).
  assert (Fm : f (ChatSession.messages session)
               = kept ++ [ChatMessage.make (clock 0%nat) text user;
                          styleQuestion ART_STYLES (clock 1%nat + 1)%Z])
    by reflexivity.
  rewrite Fm.
  assert (Init : ChatWindow.isInitialState
                   (kept ++ [ChatMessage.make (clock 0%nat) text user;
                             styleQuestion ART_STYLES (clock 1%nat + 1)%Z])
                 = false).
  { unfold ChatWindow.isInitialState. rewrite filter_app, length_app.
    cbn. apply Nat.leb_gt. lia. }
  assert (Chips : ChatWindow.chips
                    (kept ++ [ChatMessage.make (clock 0%nat) text user;
                              styleQuestion ART_STYLES (clock 1%nat + 1)%Z])
                  = chipsOf).
  { unfold ChatWindow.chips. rewrite Init.
    unfold ChatWindow.lastBotMessageWithSuggestions.
    rewrite rev_app_distr. subst chipsOf. clear - I.
    destruct ART_STYLES as [|a r]; [destruct I | reflexivity]. }
  split; [exact Init|]. split; [exact Chips|].
  rewrite Chips.
  exists {| Suggestion.text := style; Suggestion.icon := PaletteIcon;
            Suggestion.prompt := None |}.
  assert (Inc : In {| Suggestion.text := style;
                      Suggestion.icon := PaletteIcon;
                      Suggestion.prompt := None |} chipsOf).
  { subst chipsOf. apply in_map_iff. exists style. auto. }
  unfold App.handleSendMessage, ChatWindow.chipPayload.
  cbn [Payload.text Payload.files Payload.prompt Suggestion.text
       Suggestion.prompt length Nat.eqb andb].
  destruct (trim style) as [|t0 tr] eqn:Tr; [contradiction|].
  cbn [truthy negb andb orb].
  change (activeSessionId (setIsBotSpeaking false (update (c :: sid) f st0)))
    with (activeSessionId st).
  rewrite A. cbn [truthy_opt truthy negb].
  change (sessions (setIsBotSpeaking false (update (c :: sid) f st0)))
    with (sessions (update (c :: sid) f st0)).
  rewrite F1.
  rewrite (switchTarget_language LANGUAGES toLowerCase canonicalize style
             session
             (ChatSession.with_messages session
                (f (ChatSession.messages session)))
             eq_refl), W.
  change (pendingImagePrompt
            (setIsBotSpeaking false (update (c :: sid) f st0)))
    with (Some text).
  destruct text as [|t1 text']; [contradiction|].
  apply arr_includes_In in I. rewrite I.
  unfold selectArtStyle, handleImageGeneration.
  change (activeSessionId (setIsBotSpeaking false (update (c :: sid) f st0)))
    with (activeSessionId st).
  rewrite A. cbn [fst snd pendingImagePrompt setPendingImagePrompt].
  eexists. split; [exact Inc|]. split; [reflexivity|].
  split; reflexivity.
Qed.

End Handlers.

(** X24.  What the input of the chat hands on.  A manual send happens
    only when nothing is loading and the input has text that is not
    blank or a staged file; it hands on the text as typed and the staged
    files, and clears both; the handler then accepts the submission
    whenever the active session is in the store.  The video button
    asks for a video only when exactly one file is staged, that file is
    an image and the prompt entered is not empty; with other files it
    posts a notice, with no prompt it does nothing, and both leave the
    input as it was.  Removing a staged file by name removes every
    staged file of that name and no other. *)
Theorem chat_input_guards (isLoading : bool) (answer : option jsstring)
    (landscape : bool) (s : ChatInput.State) (st : AppState) (c : N)
    (sid : jsstring) (session : ChatSession.t) :
  activeSessionId st = Some (c :: sid) ->
  findSession (c :: sid) (sessions st) = Some session ->
  match ChatInput.handleManualSendMessage isLoading s with
  | (s', Some payload) =>
      isLoading = false /\ s' = ChatInput.cleared /\
      Payload.text payload = ChatInput.inputValue s /\
      Payload.files payload = ChatInput.stagedFiles s /\
      Payload.prompt payload = None /\
      accepted payload st = Some (c :: sid, session)
  | (s', None) =>
      s' = s /\
      (isLoading = true \/
       (trim (ChatInput.inputValue s) = [] /\ ChatInput.stagedFiles s = []))
  end /\
  match ChatInput.handleGenerateVideoClick answer landscape s with
  | (s', ChatInput.Video file prompt aspectRatio) =>
      ChatInput.stagedFiles s = [file] /\ isImage file = true /\
      answer = Some prompt /\ prompt <> [] /\ s' = ChatInput.cleared /\
      aspectRatio = (if landscape then Landscape else Portrait)
  | (s', ChatInput.Notice text) =>
      s' = s /\
      text = lit "Please upload exactly one image to generate a video." /\
      (forall file, ChatInput.stagedFiles s = [file] ->
                    isImage file = false)
  | (s', ChatInput.Nothing) =>
      s' = s /\ (answer = None \/ answer = Some [])
  end /\
  forall fileName file,
    In file (ChatInput.stagedFiles (ChatInput.removeStagedFile fileName s))
    <-> In file (ChatInput.stagedFiles s)
        /\ UploadedFile.name file <> fileName.
Proof.
  intros A F. split; [|split].
  - unfold ChatInput.handleManualSendMessage.
    destruct (trim (ChatInput.inputValue s)) as [|x t] eqn:T;
      destruct (ChatInput.stagedFiles s) as [|f fs] eqn:G;
      destruct isLoading; cbn; auto 6;
      unfold accepted; cbn [Payload.text Payload.files];
      rewrite ?T, A, F; cbn; auto 10.
  - unfold ChatInput.handleGenerateVideoClick.
    destruct (ChatInput.stagedFiles s) as [|f [|f' fs]] eqn:G.
    + split; [reflexivity|]. split; [reflexivity|]. discriminate.
    + destruct (isImage f) eqn:Im.
      * destruct answer as [[|x prompt]|]; cbn; auto.
        repeat split; auto. discriminate.
      * split; [reflexivity|]. split; [reflexivity|].
        intros file E. injection E as <-. exact Im.
    + split; [reflexivity|]. split; [reflexivity|]. discriminate.
  - intros fileName file. unfold ChatInput.removeStagedFile.
    cbn [ChatInput.stagedFiles].
    rewrite filter_In, negb_true_iff, str_eqb_neq. reflexivity.
Qed.

Import Regex MessageBubble.

Lemma cut_boldMarker (prev : option N) (s : jsstring) :
  cut (fun c => c) boldMarker 0 prev s =
  match s with
  | [] => []
  | c :: s' =>
      match s' with
      | d :: s'' =>
          if N.eqb c 42 && N.eqb d 42
          then cut (fun c => c) boldMarker 0 (Some d) s''
          else c :: cut (fun c => c) boldMarker 0 (Some c) s'
      | [] => [c]
      end
  end.
Proof.
  destruct s as [|c [|d s'']]; [reflexivity | |].
  - cbn. destruct (N.eqb c 42); reflexivity.
  - cbn [cut boldMarker str fold_right matcher rest before captures].
    destruct (N.eqb c 42); [|reflexivity].
    cbn [andb]. destruct (N.eqb d 42); [|reflexivity].
    cbn [rest length]. rewrite Nat.sub_succ_l by lia.
    rewrite Nat.sub_succ_l by lia. rewrite Nat.sub_diag.
    destruct s''; reflexivity.
Qed.

(** X25.  The text that copy and share hand on has no bold marker left
    in it: no two asterisks in a row.  It keeps every other code unit
    of the message, in order, and a message without a marker is handed
    on as it is. *)
Theorem copied_text_has_no_bold_marker (text : jsstring) :
  str_includes [42; 42]%N (cleanText text) = false /\
  filter (fun c => negb (N.eqb c 42)) (cleanText text)
    = filter (fun c => negb (N.eqb c 42)) text /\
  (str_includes [42; 42]%N text = false -> cleanText text = text).
Proof.
  assert (G : forall n s prev,
            length s <= n ->
            str_includes [42; 42]%N (cut (fun c => c) boldMarker 0 prev s)
              = false /\
            filter (fun c => negb (N.eqb c 42))
                   (cut (fun c => c) boldMarker 0 prev s)
              = filter (fun c => negb (N.eqb c 42)) s /\
            (str_includes [42; 42]%N s = false ->
             cut (fun c => c) boldMarker 0 prev s = s) /\
            (forall c s', s = c :: s' -> N.eqb c 42 = false ->
               exists out', cut (fun c => c) boldMarker 0 prev s
                            = c :: out')).
  {
    induction n as [|n IH]; intros s prev L.
    - destruct s; [|cbn in L; lia].
      split; [reflexivity|]. split; [reflexivity|].
      split; [reflexivity|]. intros c s' E. discriminate.
    - rewrite cut_boldMarker. destruct s as [|c [|d s'']].
      + split; [reflexivity|]. split; [reflexivity|].
        split; [reflexivity|]. intros c s' E. discriminate.
      + split; [|split; [reflexivity|split; [reflexivity|]]].
        * cbn [str_includes startsWith]. rewrite andb_false_r. reflexivity.
        * intros c' s' E _. injection E as <- <-. eauto.
      + cbn [length] in L.
        destruct (N.eqb c 42 && N.eqb d 42) eqn:B.
        * apply andb_true_iff in B. destruct B as [Bc Bd].
          destruct (IH s'' (Some d) ltac:(lia)) as (I1 & I2 & I3 & I4).
          split; [exact I1|]. split.
          -- cbn [filter]. rewrite Bc, Bd. cbn [negb]. exact I2.
          -- apply N.eqb_eq in Bc, Bd. subst c d. split.
             ++ intros H. cbn in H. discriminate.
             ++ intros c' s' E Cn. injection E as <- <-. discriminate.
        * destruct (IH (d :: s'') (Some c) ltac:(cbn [length]; lia))
            as (I1 & I2 & I3 & I4).
          set (out := cut (fun c => c) boldMarker 0 (Some c) (d :: s'')) in *.
          split; [|split; [|split]].
          -- cbn [str_includes]. rewrite I1, orb_false_r.
             cbn [startsWith].
             destruct (N.eqb_spec 42 c) as [<-|Nc]; [|reflexivity].
             cbn [andb N.eqb Pos.eqb] in B.
             destruct (I4 d s'' eq_refl B) as (out' & E). rewrite E.
             cbn [startsWith andb]. rewrite N.eqb_sym, B. reflexivity.
          -- assert (Hc : forall l,
                       filter (fun c => negb (N.eqb c 42)) (c :: l)
                       = if negb (N.eqb c 42)
                         then c :: filter (fun c => negb (N.eqb c 42)) l
                         else filter (fun c => negb (N.eqb c 42)) l)
               by reflexivity.
             rewrite (Hc out), (Hc (d :: s'')), I2. reflexivity.
          -- intros H. cbn [str_includes] in H.
             apply orb_false_iff in H. destruct H as [_ H].
             rewrite (I3 H). reflexivity.
          -- intros c' s' E Cn. injection E as <- <-. eauto.
  }
  unfold cleanText, removeAll.
  destruct (G (length text) text None (Nat.le_refl _)) as (A & B & C & _).
  auto.
Qed.

End WindowFacts.

(* ================================================================== *)
(** ** The rendering of a line *)
(* ================================================================== *)

Module RenderFacts.

Import Regex MarkdownRenderer.

Local Abbreviation matcher := (matcher (fun c => c)).
Local Abbreviation search := (search (fun c => c)).

(** A quantified class takes a piece of the input and goes on with the
    rest. *)
Lemma rep_sound (accept : N -> bool) (greedy : bool) (s : jsstring) :
  forall (min : nat) (max : option nat) (prev : option N)
         (k : option N -> jsstring -> option State) (r : State),
    rep accept greedy min max prev s k = Some r ->
    exists a s' p, s = a ++ s' /\ k p s' = Some r.
Proof.
  induction s as [|c s IH]; intros min max prev k r H.
  - destruct min as [|min]; cbn in H.
    + exists [], [], prev. split; [reflexivity|].
      destruct max as [[|n]|]; destruct greedy;
        destruct (k prev []); congruence.
    + destruct max as [[|n]|]; discriminate.
  - assert (M : forall r',
              match max with
              | Some O => None
              | _ => if accept c
                     then rep accept greedy (pred min) (option_map pred max)
                            (Some c) s k
                     else None
              end = Some r' ->
              exists a s' p, c :: s = a ++ s' /\ k p s' = Some r').
    { intros r' E.
      assert (E' : (if accept c
                    then rep accept greedy (pred min) (option_map pred max)
                           (Some c) s k
                    else None) = Some r').
      { destruct max as [[|n]|]; [discriminate | exact E | exact E]. }
      destruct (accept c); [|discriminate].
      destruct (IH _ _ _ _ _ E') as (a & s' & p & -> & K).
      exists (c :: a), s', p. auto. }
    destruct min as [|min].
    + cbn [rep] in H.
      destruct greedy.
      * destruct (match max with
                  | Some O => None
                  | _ => if accept c
                         then rep accept true (pred 0) (option_map pred max)
                                (Some c) s k
                         else None
                  end) as [r'|] eqn:E.
        -- injection H as <-. apply M. reflexivity.
        -- exists [], (c :: s), prev. auto.
      * destruct (k prev (c :: s)) as [r'|] eqn:E.
        -- injection H as <-. exists [], (c :: s), prev. auto.
        -- apply M. exact H.
    + cbn [rep] in H. apply M. exact H.
Qed.

Lemma char_sound (c : N) (x : State) (k : State -> option State)
    (y : State) :
  matcher (Char c) x k = Some y ->
  exists s',
    rest x = c :: s' /\
    k {| before := Some c; rest := s'; captures := captures x |} = Some y.
Proof.
  cbn [Regex.matcher]. destruct (rest x) as [|ch s']; [discriminate|].
  destruct (N.eqb_spec ch c) as [->|]; [|discriminate].
  intros H. exists s'. auto.
Qed.

Lemma group_sound (i : nat) (x : State) (k : State -> option State)
    (y : State) :
  matcher (Group i (Rep Dot 0 None false)) x k = Some y ->
  exists a s' p,
    rest x = a ++ s' /\
    k {| before := p; rest := s'; captures := (i, a) :: captures x |}
    = Some y.
Proof.
  cbn [Regex.matcher]. intros H. apply rep_sound in H.
  destruct H as (a & s' & p & E & H). cbn [rest before captures] in H.
  exists a, s', p. split; [exact E|].
  rewrite E, length_app in H.
  replace (length a + length s' - length s') with (length a) in H by lia.
  rewrite firstn_app, firstn_all, Nat.sub_diag in H. cbn [firstn] in H.
  rewrite app_nil_r in H. exact H.
Qed.

Lemma seq_sound (a b : regex) (x : State) (k : State -> option State)
    (y : State) :
  matcher (Seq a b) x k = Some y ->
  matcher a x (fun z => matcher b z k) = Some y.
Proof. exact (fun H => H). Qed.

Lemma alt_sound (a b : regex) (x : State) (k : State -> option State)
    (y : State) :
  matcher (Alt a b) x k = Some y ->
  matcher a x k = Some y \/ matcher b x k = Some y.
Proof.
  cbn [Regex.matcher]. destruct (matcher a x k) as [z|]; auto.
Qed.

Ltac step_char H s E :=
  apply seq_sound in H; apply char_sound in H;
  destruct H as (s & E & H); cbv beta in H.

Ltac step_group H a s p E :=
  apply seq_sound in H; apply group_sound in H;
  destruct H as (a & s & p & E & H); cbv beta in H.

(** A match of the pattern is a link or bold text, and the groups hold
    its parts. *)
Lemma combinedRegex_sound (x y : State) :
  captures x = [] ->
  matcher combinedRegex x Some = Some y ->
  (exists linkText linkUrl,
     rest x = [91]%N ++ linkText ++ [93; 40]%N ++ linkUrl ++ [41]%N
              ++ rest y /\
     captures y = [(2, linkUrl); (1, linkText)]) \/
  (exists boldText,
     rest x = [42; 42]%N ++ boldText ++ [42; 42]%N ++ rest y /\
     captures y = [(3, boldText)]).
Proof.
  intros C H. unfold combinedRegex, seqs in H. cbn [fold_right] in H.
  apply alt_sound in H. destruct H as [H|H].
  - left.
    step_char H s1 E1. step_group H t s2 p2 E2.
    step_char H s3 E3. step_char H s4 E4.
    step_group H u s5 p5 E5. step_char H s6 E6.
    cbn [Regex.matcher rest captures before] in *. injection H as <-.
    cbn [rest captures]. exists t, u. rewrite C. split; [|reflexivity].
    rewrite E1, E2, E3, E4, E5, E6. cbn. rewrite <- ?app_assoc.
    reflexivity.
  - right.
    step_char H s1 E1. step_char H s2 E2.
    step_group H b s3 p3 E3.
    step_char H s4 E4. step_char H s5 E5.
    cbn [Regex.matcher rest captures before] in *. injection H as <-.
    cbn [rest captures]. exists b. rewrite C. split; [|reflexivity].
    rewrite E1, E2, E3, E4, E5. cbn. rewrite <- ?app_assoc. reflexivity.
Qed.

Lemma search_sound (r : regex) (s : jsstring) :
  forall (prev : option N) (i : nat) (m : Match),
    search r prev s i = Some m ->
    exists pre s1 p,
      s = pre ++ s1 /\ index m = i + length pre /\
      matcher r {| before := p; rest := s1; captures := [] |} Some
      = Some (final m).
Proof.
  induction s as [|c s IH]; intros prev i m H; cbn [Regex.search] in H.
  - destruct (matcher r _ Some) as [y|] eqn:E; [|discriminate].
    injection H as <-. exists [], [], prev. cbn. auto.
  - destruct (matcher r _ Some) as [y|] eqn:E.
    + injection H as <-. exists [], (c :: s), prev. cbn. auto.
    + destruct (IH _ _ _ H) as (pre & s1 & p & -> & I & M).
      exists (c :: pre), s1, p. cbn [length app]. split; [reflexivity|].
      split; [lia | exact M].
Qed.

Lemma text_tile (pre : jsstring) :
  concat (map source (match pre with [] => [] | _ => [Text pre] end)) = pre.
Proof. destruct pre; cbn; rewrite ?app_nil_r; reflexivity. Qed.

(** X26.  The renderer loses nothing of a line.  The elements that
    [processLine] pushes (pieces of text, links, bold texts), each
    written back as the markdown it stands for, make up the line again,
    in order; no piece of text is empty. *)
Theorem rendered_line_is_the_line (line : jsstring) :
  concat (map source (processLine line)) = line /\
  ~ In (Text []) (processLine line).
Proof.
  assert (G : forall fuel prev s,
            length s <= fuel ->
            concat (map source (processFrom fuel prev s)) = s /\
            ~ In (Text []) (processFrom fuel prev s)).
  {
    induction fuel as [|fuel IH]; intros prev s L.
    - destruct s; [|cbn in L; lia]. cbn. split; [reflexivity | intros []].
    - cbn [processFrom].
      destruct (search combinedRegex prev s 0) as [m|] eqn:E.
      + destruct (search_sound _ _ _ _ _ E) as (pre & s1 & p & -> & I & M).
        cbn [Nat.add] in I.
        apply combinedRegex_sound in M; [|reflexivity].
        cbn [rest] in M. rewrite length_app in L.
        assert (T : (match index m with
                     | O => []
                     | S _ => [Text (firstn (index m) (pre ++ s1))]
                     end)
                    = match pre with [] => [] | _ => [Text pre] end).
        { rewrite I. destruct pre as [|c pre]; [reflexivity|].
          cbn [length]. rewrite <- (Nat.add_0_r (S (length pre))).
          change (S (length pre)) with (length (c :: pre)).
          rewrite firstn_app_2. cbn [firstn]. rewrite app_nil_r.
          reflexivity. }
        rewrite T.
        destruct M as [(t & u & E1 & C)|(b & E1 & C)].
        * assert (El : element m = [Anchor t u]).
          { unfold element, group. rewrite C. reflexivity. }
          rewrite El.
          destruct (IH (before (final m)) (rest (final m))) as [I1 I2].
          { rewrite E1, !length_app in L. cbn [length] in L. lia. }
          split.
          -- rewrite !map_app, !concat_app, I1, (text_tile pre).
             cbn [map concat source]. rewrite app_nil_r, E1.
             repeat rewrite <- app_assoc. reflexivity.
          -- intros J. apply in_app_or in J. destruct J as [J|J].
             ++ destruct pre; [destruct J|]. destruct J as [J|[]].
                discriminate.
             ++ destruct J as [J|J]; [discriminate | exact (I2 J)].
        * assert (El : element m = [Strong b]).
          { unfold element, group. rewrite C. reflexivity. }
          rewrite El.
          destruct (IH (before (final m)) (rest (final m))) as [I1 I2].
          { rewrite E1, !length_app in L. cbn [length] in L. lia. }
          split.
          -- rewrite !map_app, !concat_app, I1, (text_tile pre).
             cbn [map concat source]. rewrite app_nil_r, E1.
             repeat rewrite <- app_assoc. reflexivity.
          -- intros J. apply in_app_or in J. destruct J as [J|J].
             ++ destruct pre; [destruct J|]. destruct J as [J|[]].
                discriminate.
             ++ destruct J as [J|J]; [discriminate | exact (I2 J)].
      + destruct s as [|c s]; cbn; [split; [reflexivity | intros []]|].
        rewrite app_nil_r. split; [reflexivity|].
        intros [J|[]]. discriminate.
  }
  apply G. apply Nat.le_refl.
Qed.

End RenderFacts.

(* ================================================================== *)
(** ** The further scenarios, run *)
(* ================================================================== *)

Module ExampleFacts.

Import Store StoreFacts App AppFacts Scenario Examples.

(** The theorem of the store at a fresh mount: a new chat is opened and
    renamed, selected and deleted; the first session is active again. *)
Lemma store_keeps_active_session_witness :
  let st :=
    fold_left (Sessions.perform LANGUAGES TODAYS_BRIEFING_PROMPT) commands
      (Sessions.loadSessions TODAYS_BRIEFING_PROMPT None None clock
         Sessions.mounted) in
  Sessions.activeInStore st /\ sessions st <> [] /\
  map ChatSession.id (sessions st) = [lit "2000"] /\
  activeSessionId st = Some (lit "2000").
Proof.
  intros st.
  destruct (SessionFacts.store_keeps_active_session LANGUAGES
              TODAYS_BRIEFING_PROMPT None None clock commands) as [A B].
  - cbn. split; [exact I|]. split; [exact I|]. split; [|split; exact I].
    eexists. split; [left; reflexivity | reflexivity].
  - split; [exact A|]. split; [exact B|]. split; reflexivity.
Defined.

(** The theorem of the new chat at the session of the scenarios. *)
Lemma new_chat_inherits_language_witness :
  let st := Sessions.handleNewChat LANGUAGES TODAYS_BRIEFING_PROMPT
              ticking fresh in
  map ChatSession.id (sessions st) = [lit "1000"; lit "2000"] /\
  option_map ChatSession.languageCode (Sessions.activeSession st)
    = Some (lit "en-US").
Proof.
  intros st.
  destruct (SessionFacts.new_chat_inherits_language LANGUAGES
              TODAYS_BRIEFING_PROMPT ticking fresh session
              {| Language.code := lit "en-US"; Language.name := lit "English";
                 Language.nativeName := lit "English" |}
              eq_refl (or_introl eq_refl) eq_refl)
    as (S & A & L & _).
  - intros s [<-|[]]. vm_compute. discriminate.
  - subst st. split; [rewrite S; reflexivity|]. rewrite A. reflexivity.
Defined.

(** The theorem of the effect at the state in which a reply is awaited:
    one user message, so the counter is at one and no tip follows. *)
Lemma no_tip_after_chat_effect_witness :
  userMessageCount (Sessions.chatEffect startChat asking) = 1 /\
  snd (onStreamEnd SUSTAINABILITY_TIPS opening
         (Sessions.chatEffect startChat asking)) = None.
Proof.
  destruct (SessionFacts.no_tip_after_chat_effect SUSTAINABILITY_TIPS
              startChat opening asking
              (ChatSession.with_title
                 (ChatSession.with_messages session
                    [ChatMessage.with_files
                       (ChatMessage.make 2000 (lit "where is Om beach") user)
                       [];
                     placeholder 2001])
                 (lit "where is Om beach"))
              eq_refl) as (C & _ & T & _).
  split; [rewrite C; reflexivity | exact T].
Defined.

(** The theorem of the summary at the session of the scenarios: the
    notice is there while the call is awaited and gone when it fails. *)
Lemma summarize_clears_notice_witness :
  (exists m, In m (messagesOf (lit "1000") summarizing) /\
             Sessions.isSummarizing m = true) /\
  forall m,
    In m (messagesOf (lit "1000")
            (Sessions.settle summary
               (Backend.Rejected Backend.OtherValue) summarizing)) ->
    Sessions.isSummarizing m = false.
Proof.
  split.
  - eexists. split; [right; left; reflexivity | reflexivity].
  - exact (proj2 (proj2
      (SessionFacts.summarize_clears_notice (lit "a long text") clock fresh
         summarizing (lit "1000")
         (ChatSession.with_messages session
            [welcome;
             ChatMessage.with_isSystem
               (ChatMessage.make 2000 (lit "Summarizing...") bot) true])
         summary (Backend.Rejected Backend.OtherValue)
         eq_refl eq_refl eq_refl))).
Defined.

(** The theorem of the chat turn at the first question of the
    scenarios: the question becomes the title. *)
Lemma chat_turn_titles_session_witness :
  exists s,
    findSession (lit "1000")
      (sessions (fst (chatTurn (lit "1000") (say "where is Om beach")
                        session clock fresh))) = Some s /\
    ChatSession.title s = lit "where is Om beach".
Proof.
  destruct (HandlerFacts.chat_turn_titles_session (lit "1000")
              (say "where is Om beach") session clock fresh eq_refl)
    as (_ & (s & F & T & _) & _).
  exists s. split; [exact F | exact T].
Defined.

(** The theorem of the two ids at a clock that moves on by one
    millisecond at every reading: the image is in the session twice and
    the style message is not. *)
Lemma image_generation_ids_witness :
  exists finalPrompt settle,
    snd (handleImageGeneration toLowerCase (lit "a sunset")
           (lit "Watercolor") ticking fresh)
    = Some (GenerateImage finalPrompt settle) /\
    messagesOf (lit "1000")
      (settle (Backend.Fulfilled pictured)
         (fst (handleImageGeneration toLowerCase (lit "a sunset")
                 (lit "Watercolor") ticking fresh)))
    = [welcome; picture; picture].
Proof.
  destruct (HandlerFacts.image_generation_ids toLowerCase (lit "a sunset")
              (lit "Watercolor") ticking fresh 49%N (lit "000") session
              (Backend.Fulfilled pictured) picture eq_refl eq_refl)
    as (finalPrompt & settle & E & M).
  - intros m [<-|[]]. vm_compute. discriminate.
  - reflexivity.
  - exists finalPrompt, settle. split; [exact E | exact M].
Defined.

(** The theorem of the turn at a greeting answered in two pieces. *)
Lemma transcript_of_a_turn_witness :
  Transcript.transcription
    (fold_left Transcript.onmessage [hello; answer "Hi "; answer "there"]
       Transcript.opened)
  = [{| Turn.user := Some (lit "hello"); Turn.bot := lit "Hi there";
        Turn.isFinal := false |}].
Proof.
  exact (TranscriptFacts.transcript_of_a_turn Transcript.opened hello
           [answer "Hi "; answer "there"] (Some (lit "hello"))
           eq_refl I eq_refl eq_refl).
Defined.

(** The theorem of the clip that does not decode, with integer times:
    while two clips play, a clip in the URL-safe alphabet arrives with
    the interruption signal; the two clips stay in the tracked set. *)
Lemma undecodable_clip_stops_handler_witness :
  let playing :=
    LiveAudio.run 0%Z Z.add Z.leb Z.of_N
      [LiveAudio.Message 10%Z clipMessage;
       LiveAudio.Message 11%Z clipMessage]
      (LiveAudio.initial 0%Z) in
  snd (LiveAudio.onmessage 0%Z Z.add Z.leb Z.of_N 12%Z urlSafeClip playing)
    = LiveAudio.Threw /\
  LiveAudio.sources
    (fst (LiveAudio.onmessage 0%Z Z.add Z.leb Z.of_N 12%Z urlSafeClip
            playing))
    = [0%nat; 1%nat].
Proof.
  intros playing.
  rewrite (PlaybackFacts.undecodable_clip_stops_handler Z 0%Z Z.add Z.leb
             Z.of_N 12%Z urlSafeClip playing (lit "AA-A") 45%N eq_refl
             (or_intror (or_intror (or_introl eq_refl))) eq_refl eq_refl).
  - split; reflexivity.
  - discriminate.
Defined.

(** The theorem of the microphone path at two samples. *)
Lemma captured_frame_is_decodable_witness :
  exists data,
    Pcm.pcmBlobData frame = Some data /\
    match Base64.decode data with
    | Some bytes => Pcm.channelData bytes
    | None => None
    end = Some [QArith_base.Qmake 16384 32768;
                QArith_base.Qmake (-8192) 32768].
Proof.
  destruct (PcmFacts.captured_frame_is_decodable frame) as [H _].
  - discriminate.
  - exact H.
Defined.

(** The theorem of the video result at the backend of the scenarios. *)
Lemma generateVideo_result_witness :
  exists looks,
    looks <= 2 /\
    match Backend.seen noLink looks with
    | Backend.Fulfilled op =>
        Backend.opDone op = true /\ Backend.resultUri op = None
    | Backend.Rejected _ => False
    end.
Proof.
  destruct (VideoFacts.generateVideo_result (lit "KEY") noLink 2
              (Backend.Rejected (Backend.ErrorObject (lit
                 "Video generation completed but no download link was found.")))
              eq_refl) as (looks & L & N & R).
  exists looks. split; [exact L|].
  destruct looks as [|[|[|looks]]]; [| | |lia].
  - destruct R as [R _]. discriminate.
  - destruct R as [R _]. discriminate.
  - split; reflexivity.
Defined.

(** The theorem of the chips at the image request of the scenarios. *)
Lemma style_chips_start_generation_witness :
  ChatWindow.chips (messagesOf (lit "1000") awaitingStyle)
    = [{| Suggestion.text := lit "Watercolor";
          Suggestion.icon := PaletteIcon; Suggestion.prompt := None |}] /\
  exists chip settle,
    In chip (ChatWindow.chips (messagesOf (lit "1000") awaitingStyle)) /\
    snd (handle (ChatWindow.chipPayload chip) awaitingStyle) =
      Some (GenerateImage
              (lit "A watercolor of: generate a sunset over the beach")
              settle).
Proof.
  destruct (WindowFacts.style_chips_start_generation LANGUAGES ART_STYLES
              TRIP_PLAN_PROMPT toLowerCase canonicalize
              (lit "generate a sunset over the beach") (lit "Watercolor")
              clock clock (setIsBotSpeaking false fresh) 49%N (lit "000")
              session eq_refl eq_refl)
    as (_ & C & chip & settle & I1 & _ & G & _).
  - discriminate.
  - left. reflexivity.
  - vm_compute. discriminate.
  - vm_compute. reflexivity.
  - split; [exact C|]. exists chip, settle. split; [exact I1 | exact G].
Defined.

(** The theorem of the input at a greeting typed. *)
Lemma chat_input_guards_witness :
  exists payload,
    ChatInput.handleManualSendMessage false typed
      = (ChatInput.cleared, Some payload) /\
    accepted payload fresh = Some (lit "1000", session).
Proof.
  destruct (WindowFacts.chat_input_guards false None true typed fresh
              49%N (lit "000") session eq_refl eq_refl) as [H _].
  cbn in H. destruct H as (_ & _ & _ & _ & _ & A).
  eexists. split; [reflexivity | exact A].
Defined.

(** The theorem of the restarted chat at the switch to Hindi of the
    scenarios: the new chat is in Hindi and has two turns of history. *)
Lemma language_switch_restarts_chat_witness :
  chatSessionRef
    (Sessions.chatEffect startChat
       (fst (switchLanguage (lit "1000") (lit "switch to Hindi")
               {| Language.code := lit "hi-IN"; Language.name := lit "Hindi";
                  Language.nativeName := [2361; 2367; 2344; 2381; 2342; 2368]%N |}
               clock fresh)))
  = Some (startChat (lit "hi-IN")
            [{| Sessions.role := Sessions.UserRole;
                Sessions.parts := [Sessions.TextPart (lit "switch to Hindi")] |};
             {| Sessions.role := Sessions.ModelRole;
                Sessions.parts :=
                  [Sessions.TextPart
                     (lit "Certainly! I will now respond in Hindi.")] |}]).
Proof.
  rewrite (SessionFacts.language_switch_restarts_chat startChat (lit "1000")
             (lit "switch to Hindi")
             {| Language.code := lit "hi-IN"; Language.name := lit "Hindi";
                Language.nativeName := [2361; 2367; 2344; 2381; 2342; 2368]%N |}
             clock fresh session eq_refl eq_refl).
  - reflexivity.
  - vm_compute. discriminate.
Defined.

End ExampleFacts.
